(** * as6-migration-tools: rewrite passes, parallel scanner, hardware check

    A shallow embedding of
    - [helpers/mappmotion_update.py] (the rewrite passes and [main]),
    - [utils/utils.py] ([calculate_file_hash], [log], [ask_user],
      [get_and_check_project_file], [scan_files_parallel]),
    - [checks/hardware_check.py] ([process_hw_file], [check_hardware]),
    followed by the properties established for them. *)

From Stdlib Require Import Ascii String Strings.Byte.
From Stdlib Require Import List Bool Arith Lia.
From Stdlib Require Import Permutation Sorting.Sorted DecimalString.
Import ListNotations.

Set Implicit Arguments.

(** ** Text

    A Python [str] holding ISO-8859-1 text is a sequence of code points below
    256: a [list ascii].  String literals are read as such lists. *)

Definition text := list ascii.

Coercion list_ascii_of_string : string >-> list.

Local Open Scope string_scope.
Local Open Scope nat_scope.
Local Open Scope list_scope.
Local Open Scope bool_scope.

Definition text_dec (a b : text) : {a = b} + {a <> b} :=
  list_eq_dec ascii_dec a b.

Definition text_eqb (a b : text) : bool :=
  if text_dec a b then true else false.

(** [s.startswith(k)] *)
Fixpoint startswith (k s : text) : bool :=
  match k, s with
  | [], _ => true
  | _ :: _, [] => false
  | a :: k', b :: s' => Ascii.eqb a b && startswith k' s'
  end.

(** [k in s] for two strings: [k] occurs somewhere in [s]. *)
Fixpoint contains (k s : text) : bool :=
  startswith k s ||
  match s with
  | [] => false
  | _ :: s' => contains k s'
  end.

(** ** The fragment of [re] the passes use

    Every pattern the three passes build is [re.escape(k)] or
    [rf"\b{re.escape(k)}\b"]: a literal, possibly between two word-boundary
    assertions. *)

Module Re.

(** [\w] on a [str] pattern: [ch.isalnum() or ch == '_'].  Below 256 the
    alphanumeric code points are the ASCII letters and digits, U+00AA, U+00B2,
    U+00B3, U+00B5, U+00B9, U+00BA, U+00BC..U+00BE, U+00C0..U+00D6,
    U+00D8..U+00F6 and U+00F8..U+00FF. *)
Definition is_word_char (c : ascii) : bool :=
  let n := nat_of_ascii c in
  ((48 <=? n) && (n <=? 57)) || ((65 <=? n) && (n <=? 90)) ||
  ((97 <=? n) && (n <=? 122)) || (n =? 95) ||
  (n =? 170) || (n =? 178) || (n =? 179) || (n =? 181) || (n =? 185) ||
  (n =? 186) || ((188 <=? n) && (n <=? 190)) ||
  ((192 <=? n) && (n <=? 214)) || ((216 <=? n) && (n <=? 246)) ||
  (248 <=? n).

(** A neighbour of a position: the character there, or nothing at either end
    of the string. *)
Definition word_side (c : option ascii) : bool :=
  match c with Some a => is_word_char a | None => false end.

(** [\b] between the character before and the character after a position. *)
Definition at_boundary (before after : option ascii) : bool :=
  xorb (word_side before) (word_side after).

Inductive pattern :=
| Lit (k : text)       (* re.escape(k) *)
| WordLit (k : text).  (* rf"\b{re.escape(k)}\b" *)

Definition literal (p : pattern) : text :=
  match p with Lit k => k | WordLit k => k end.

(** The character before the end of a match of [k] that starts after [prev]. *)
Definition last_before (prev : option ascii) (k : text) : option ascii :=
  match k with [] => prev | _ :: _ => Some (last k "000"%char) end.

(** Does the pattern match at the current position?  [prev] is the character
    before it, [s] the rest of the string from it. *)
Definition match_here (p : pattern) (prev : option ascii) (s : text) : bool :=
  match p with
  | Lit k => startswith k s
  | WordLit k =>
      startswith k s
      && at_boundary prev (hd_error s)
      && at_boundary (last_before prev k) (hd_error (skipn (length k) s))
  end.

(** One left-to-right pass of the matcher, as [re.subn] and [re.finditer] make
    it: the leftmost match is taken, the search resumes where it ended.
    [skip] counts the characters of the current match still to be stepped
    over, [pos] is the offset of [s] in the whole string.  The result is the
    rewritten text with the start offsets of the matches.  An empty match
    leaves the character after it in place and the search moves one on. *)
Fixpoint scan (p : pattern) (repl : text) (skip : nat) (prev : option ascii)
    (pos : nat) (s : text) : text * list nat :=
  match s with
  | [] =>
      match skip with
      | 0 => if match_here p prev [] then (repl, [pos]) else ([], [])
      | S _ => ([], [])
      end
  | c :: s' =>
      match skip with
      | S k => scan p repl k (Some c) (S pos) s'
      | 0 =>
          if match_here p prev s then
            match length (literal p) with
            | 0 =>
                let (out, ms) := scan p repl 0 (Some c) (S pos) s' in
                (repl ++ c :: out, pos :: ms)
            | S k =>
                let (out, ms) := scan p repl k (Some c) (S pos) s' in
                (repl ++ out, pos :: ms)
            end
          else
            let (out, ms) := scan p repl 0 (Some c) (S pos) s' in
            (c :: out, ms)
      end
  end.

(** [[m.start() for m in re.finditer(p, s)]] *)
Definition finditer (p : pattern) (s : text) : list nat :=
  snd (scan p [] 0 None 0 s).

(** [re.search(p, s)] as a truth value. *)
Definition search (p : pattern) (s : text) : bool :=
  match finditer p s with [] => false | _ :: _ => true end.

(** [re.findall(p, s)] for a pattern without groups: one copy of the
    matched literal per match. *)
Definition findall (p : pattern) (s : text) : list text :=
  map (fun _ => literal p) (finditer p s).

(** A replacement string without a backslash is a literal template; with one,
    [re] expands escapes and group references, which this model leaves out. *)
Definition literal_template (repl : text) : bool :=
  negb (existsb (Ascii.eqb "\"%char) repl).

(** The scan, with the number of matches for their offsets. *)
Definition scan_n (p : pattern) (repl : text) (skip : nat)
    (prev : option ascii) (pos : nat) (s : text) : text * nat :=
  let (out, ms) := scan p repl skip prev pos s in (out, length ms).

(** [re.subn(p, repl, s)] once the template is known to be literal. *)
Definition subn_literal (p : pattern) (repl : text) (s : text) : text * nat :=
  scan_n p repl 0 None 0 s.

(** [re.subn(p, repl, s)]: the template is compiled before the search, so a
    template outside the model has no result whatever the string holds. *)
Definition subn (p : pattern) (repl : text) (s : text) : option (text * nat) :=
  if literal_template repl then Some (subn_literal p repl s) else None.

(** The character before offset [j] of [s], which itself comes after
    [prev]. *)
Definition char_before (prev : option ascii) (s : text) (j : nat)
    : option ascii :=
  match j with 0 => prev | S j' => nth_error s j' end.

(** The text with the matches at offsets [ms], each [len] long, replaced by
    [repl]; [pos] is the offset of [s] in the whole string. *)
Fixpoint replace_at (len : nat) (repl : text) (ms : list nat) (pos : nat)
    (s : text) : text :=
  match ms with
  | [] => s
  | m :: ms' =>
      firstn (m - pos) s ++ repl
      ++ replace_at len repl ms' (m + len) (skipn (m - pos + len) s)
  end.

(** An identifier: a non-empty run of word characters. *)
Definition identifier (k : text) : bool :=
  match k with [] => false | _ :: _ => forallb is_word_char k end.

(** The tokens of a text: its maximal runs of word characters, and each
    other character on its own. *)
Fixpoint tokens (s : text) : list text :=
  match s with
  | [] => []
  | c :: s' =>
      if is_word_char c then
        match tokens s' with
        | (d :: t) :: ts =>
            if is_word_char d then (c :: d :: t) :: ts
            else [c] :: (d :: t) :: ts
        | ts => [c] :: ts
        end
      else [c] :: tokens s'
  end.

(** The run of word characters a text starts with, and what follows it. *)
Fixpoint word_run (s : text) : text :=
  match s with
  | c :: s' => if is_word_char c then c :: word_run s' else []
  | [] => []
  end.

Fixpoint after_run (s : text) : text :=
  match s with
  | c :: s' => if is_word_char c then after_run s' else s
  | [] => []
  end.

(** A text that is empty or starts with a character that is no word
    character. *)
Definition sep_head (s : text) : bool := negb (word_side (hd_error s)).

(** How often [k] is a token of [s]. *)
Definition count_token (k : text) (s : text) : nat :=
  count_occ text_dec (tokens s) k.

(** [s] with every token equal to [old] replaced by [new]. *)
Definition rename_token (old new : text) (s : text) : text :=
  concat (map (fun t => if text_eqb t old then new else t) (tokens s)).

End Re.

(** ** Files, console and exceptions

    The file system is an association list from path strings to nodes; the
    order of the list stands for the order in which the operating system
    enumerates entries.  Paths are compared as the strings they are. *)

Definition bytes := list byte.

Inductive node :=
| File (data : bytes)
| Dir.

Definition fs := list (text * node).

Fixpoint fs_lookup (files : fs) (path : text) : option node :=
  match files with
  | [] => None
  | (p, n) :: rest => if text_eqb p path then Some n else fs_lookup rest path
  end.

Fixpoint fs_store (files : fs) (path : text) (data : bytes) : fs :=
  match files with
  | [] => [(path, File data)]
  | (p, n) :: rest =>
      if text_eqb p path then (p, File data) :: rest
      else (p, n) :: fs_store rest path data
  end.

Inductive stream := Stdout | Stderr.

Inductive event :=
| Out (to : stream) (msg : text)     (* what print() sends to a stream *)
| LogV (msg : text)                  (* a call of utils.log_v(msg) *)
| SetVerbose (verbose : bool).       (* a call of utils.set_verbose *)

(** [utils.log_v] and [utils.set_verbose] are called by the passes and by
    [main] but not defined in [utils.py]; a call is recorded as the event it
    is. *)

Inductive error :=
| FileNotFoundError
| IsADirectoryError
| TemplateOutsideModel   (* a replacement string with a backslash *)
| SystemExit (code : nat).

Inductive outcome (A : Type) :=
| Return (a : A)
| Raise (e : error).
Arguments Raise {A} e.

Record world := World { files : fs; console : list event }.

(** Computations that read and write the world and may raise. *)
Definition io (A : Type) := world -> outcome A * world.

Definition ret {A} (a : A) : io A := fun w => (Return a, w).

Definition bind {A B} (m : io A) (k : A -> io B) : io B :=
  fun w =>
    match m w with
    | (Return a, w') => k a w'
    | (Raise e, w') => (Raise e, w')
    end.

Definition raise {A} (e : error) : io A := fun w => (Raise e, w).

Notation "x <- m ;; k" := (bind m (fun x => k))
  (at level 61, m at next level, right associativity).
Notation "m ;;; k" := (bind m (fun _ => k))
  (at level 61, right associativity).

Definition emit (e : event) : io unit :=
  fun w => (Return tt, World (files w) (console w ++ [e])).

Definition CR : ascii := "013"%char.
Definition LF : ascii := "010"%char.

(** [print(msg)] *)
Definition print (msg : text) : io unit := emit (Out Stdout (msg ++ [LF])).

Definition log_v (msg : text) : io unit := emit (LogV msg).

(** Text mode with [newline=None]: on reading, "\r\n" and a lone "\r" both
    become "\n". *)
Fixpoint universal_newlines (s : text) : text :=
  match s with
  | [] => []
  | c :: s' =>
      if Ascii.eqb c CR then
        match s' with
        | d :: s'' =>
            if Ascii.eqb d LF then LF :: universal_newlines s''
            else LF :: universal_newlines s'
        | [] => [LF]
        end
      else c :: universal_newlines s'
  end.

(** ... and on writing every "\n" becomes [os.linesep]. *)
Fixpoint translate_newlines (linesep : text) (s : text) : text :=
  match s with
  | [] => []
  | c :: s' =>
      if Ascii.eqb c LF then linesep ++ translate_newlines linesep s'
      else c :: translate_newlines linesep s'
  end.

(** ISO-8859-1 maps byte [n] to code point [n] and back; no byte is
    undecodable, so [errors="ignore"] drops nothing. *)
Definition decode_latin1 (data : bytes) : text := map ascii_of_byte data.
Definition encode_latin1 (s : text) : bytes := map byte_of_ascii s.

(** [open(path, "rb").read()] *)
Definition read_bytes (path : text) : io bytes :=
  fun w =>
    match fs_lookup (files w) path with
    | Some (File data) => (Return data, w)
    | Some Dir => (Raise IsADirectoryError, w)
    | None => (Raise FileNotFoundError, w)
    end.

(** [open(path, "r", encoding="iso-8859-1", errors="ignore").read()] *)
Definition read_text (path : text) : io text :=
  data <- read_bytes path ;; ret (universal_newlines (decode_latin1 data)).

(** [f.read(4096)] until it returns nothing: the chunks of a file. *)
Fixpoint chunks_from (size room : nat) (cur : bytes) (data : bytes)
    : list bytes :=
  match data with
  | [] => match cur with [] => [] | _ :: _ => [rev cur] end
  | b :: data' =>
      match room with
      | 0 => rev cur :: chunks_from size (size - 1) [b] data'
      | S r => chunks_from size r (b :: cur) data'
      end
  end.

Definition chunks (size : nat) (data : bytes) : list bytes :=
  chunks_from size size [] data.

(** [str(n)] *)
Definition str_nat (n : nat) : text :=
  list_ascii_of_string (NilEmpty.string_of_uint (Nat.to_uint n)).

(** [f"{n:4d}"] *)
Definition fmt_4d (n : nat) : text :=
  let d := str_nat n in repeat " "%char (4 - length d) ++ d.

Definition quoted (s : text) : text := "'" ++ s ++ "'".

(** A mapping table: the items of the [dict], in insertion order. *)
Definition mapping := list (text * text).

(** ** The rewrite passes of [mappmotion_update.py] *)

(** No key of the table occurs in the text. *)
Definition no_key_occurs (table : mapping) (content : text) : bool :=
  forallb (fun rule => negb (contains (fst rule) content)) table.

(** Every key of the table is an identifier, and none is [k]. *)
Definition renames_others (k : text) (table : mapping) : bool :=
  forallb (fun rule => Re.identifier (fst rule)
                       && negb (text_eqb (fst rule) k)) table.

(** Every replacement string a table gives rise to is a literal template. *)
Definition literal_table (repl : text -> text) (table : mapping) : bool :=
  forallb (fun rule => Re.literal_template (repl (snd rule))) table.

(** What the substitution loop of a pass computes from a working copy and
    a count ... *)
Fixpoint rewritten (pat : text -> Re.pattern) (repl : text -> text)
    (table : mapping) (content : text) (count : nat) : text * nat :=
  match table with
  | [] => (content, count)
  | (old, new) :: rest =>
      let (content', n) := Re.subn_literal (pat old) (repl new) content in
      rewritten pat repl rest content' (count + n)
  end.

(** ... and what it logs on the way. *)
Fixpoint rewrite_log (pat : text -> Re.pattern) (repl : text -> text)
    (msg : nat -> text -> text -> text) (table : mapping) (content : text)
    : list event :=
  match table with
  | [] => []
  | (old, new) :: rest =>
      let (content', n) := Re.subn_literal (pat old) (repl new) content in
      (if 0 <? n then [LogV (msg n old new)] else [])
      ++ rewrite_log pat repl msg rest content'
  end.

Section Passes.

(** [hashlib.md5]: a fresh accumulator, [update] and [hexdigest]. *)
Variable md5_state : Type.
Variable md5_new : md5_state.
Variable md5_update : md5_state -> bytes -> md5_state.
Variable md5_hexdigest : md5_state -> text.

(** [os.linesep] *)
Variable linesep : text.

(** The bytes [write_text] leaves in the file. *)
Definition written (s : text) : bytes :=
  encode_latin1 (translate_newlines linesep s).

(** [open(path, "w", encoding="iso-8859-1").write(s)]: the file is created
    or truncated (its directory is taken to exist). *)
Definition write_text (path : text) (s : text) : io unit :=
  fun w =>
    match fs_lookup (files w) path with
    | Some Dir => (Raise IsADirectoryError, w)
    | _ =>
        (Return tt,
         World (fs_store (files w) path (written s)) (console w))
    end.

(** The digest of a file's bytes, fed to the accumulator chunk by chunk. *)
Definition file_digest (data : bytes) : text :=
  md5_hexdigest (fold_left md5_update (chunks 4096 data) md5_new).

Definition calculate_file_hash (file_path : text) : io text :=
  data <- read_bytes file_path ;; ret (file_digest data).

Definition re_subn (p : Re.pattern) (repl s : text) : io (text * nat) :=
  match Re.subn p repl s with
  | Some r => ret r
  | None => raise TemplateOutsideModel
  end.

(** The loop the passes share: each rule of the table in turn is substituted
    in the working copy; a rule that replaced something is logged and the
    count accumulated. *)
Fixpoint substitute (pat : text -> Re.pattern) (repl : text -> text)
    (msg : nat -> text -> text -> text) (table : mapping)
    (content : text) (count : nat) : io (text * nat) :=
  match table with
  | [] => ret (content, count)
  | (old, new) :: rest =>
      r <- re_subn (pat old) (repl new) content ;;
      let (content', num_replacements) := r in
      (if 0 <? num_replacements
       then log_v (msg num_replacements old new) else ret tt) ;;;
      substitute pat repl msg rest content' (count + num_replacements)
  end.

(** The tail of the three passes: write back on change, then compare the
    digests. *)
Definition write_back (file_path : text) (original_hash : text)
    (original_content modified_content : text) (notice : text)
    : io bool :=
  if text_eqb modified_content original_content then ret false
  else
    write_text file_path modified_content ;;;
    new_hash <- calculate_file_hash file_path ;;
    if text_eqb original_hash new_hash then ret false
    else print notice ;;; ret true.

(** What [write_back] returns and leaves behind for a file that held
    [data] when its digest was taken. *)
Definition settle (file_path : text) (data : bytes)
    (original_content modified_content notice : text) (w : world)
    : bool * world :=
  if text_eqb modified_content original_content then (false, w)
  else
    let files' := fs_store (files w) file_path (written modified_content) in
    if text_eqb (file_digest data) (file_digest (written modified_content))
    then (false, World files' (console w))
    else (true,
          World files' (console w ++ [Out Stdout (notice ++ [LF])])).

Definition enum_msg (n : nat) (old_const new_const : text) : text :=
  "Replaced " ++ str_nat n ++ " occurance(s) of " ++ quoted old_const
  ++ " with " ++ quoted new_const.

Definition replace_enums (file_path : text) (enum_mapping : mapping)
    : io (nat * bool) :=
  original_hash <- calculate_file_hash file_path ;;
  original_content <- read_text file_path ;;
  r <- substitute Re.Lit (fun new_const => new_const) enum_msg
         enum_mapping original_content 0 ;;
  let (modified_content, enum_replacements) := r in
  changed <- write_back file_path original_hash original_content
               modified_content
               (fmt_4d enum_replacements ++ " changes written to: "
                ++ file_path) ;;
  ret (enum_replacements, changed).

(** The message names the old input twice, as the source does. *)
Definition input_msg (n : nat) (old_input new_input : text) : text :=
  "Replaced " ++ str_nat n ++ " occurance(s) of " ++ quoted ("." ++ old_input)
  ++ " with " ++ quoted ("." ++ old_input).

Definition input_pattern (old_input : text) : Re.pattern :=
  Re.WordLit ("." ++ old_input).

Definition input_replacement (new_input : text) : text := "." ++ new_input.

Definition replace_inputs (file_path : text) (input_mapping : mapping)
    : io (nat * bool) :=
  original_hash <- calculate_file_hash file_path ;;
  original_content <- read_text file_path ;;
  r <- substitute input_pattern input_replacement input_msg
         input_mapping original_content 0 ;;
  let (modified_content, input_replacements) := r in
  changed <- write_back file_path original_hash original_content
               modified_content
               (fmt_4d input_replacements ++ " change(s) written to: "
                ++ file_path) ;;
  ret (input_replacements, changed).

Definition fb_msg (n : nat) (old_fb new_fb : text) : text :=
  "Replaced " ++ str_nat n ++ " instance(s) of FB " ++ quoted old_fb
  ++ " with " ++ quoted new_fb.

Definition type_msg (n : nat) (old_type new_type : text) : text :=
  "Replaced " ++ str_nat n ++ " instance(s) of type " ++ quoted old_type
  ++ " with " ++ quoted new_type.

(** [s.split(".")] *)
Fixpoint split_dot (s : text) : list text :=
  match s with
  | [] => [[]]
  | c :: s' =>
      if Ascii.eqb c "."%char then [] :: split_dot s'
      else match split_dot s' with
           | part :: parts => (c :: part) :: parts
           | [] => [[c]]
           end
  end.

Definition removal_msg_element (old_fb replacement : text) : text :=
  let parts := split_dot replacement in
  "Found usage(s) of " ++ quoted old_fb
  ++ ", the functionality is now covered by the element "
  ++ quoted (nth 1 parts []) ++ " of the FB " ++ quoted (nth 0 parts [])
  ++ " - skipping auto-replacement due to expected functionality change".

Definition removal_msg_fb (old_fb new_fb : text) : text :=
  "Found usage(s) of " ++ quoted old_fb
  ++ ", the functionality is now covered by the FB " ++ quoted new_fb
  ++ "- skipping auto-replacement due to expected functionality change".

(** What [report_removals] below prints for a table and a working copy. *)
Fixpoint removal_notices (fb_removal_mapping : mapping)
    (modified_content : text) : list event :=
  match fb_removal_mapping with
  | [] => []
  | (old_fb, new_fb) :: rest =>
      (if Re.search (Re.WordLit old_fb) modified_content then
         [Out Stdout
            ((if contains "." new_fb
              then removal_msg_element old_fb new_fb
              else removal_msg_fb old_fb new_fb) ++ [LF])]
       else [])
      ++ removal_notices rest modified_content
  end.

(** The loop over the removal table: it searches and prints, nothing else. *)
Fixpoint report_removals (fb_removal_mapping : mapping)
    (modified_content : text) : io unit :=
  match fb_removal_mapping with
  | [] => ret tt
  | (old_fb, new_fb) :: rest =>
      (if Re.search (Re.WordLit old_fb) modified_content then
         if contains "." new_fb
         then print (removal_msg_element old_fb new_fb)
         else print (removal_msg_fb old_fb new_fb)
       else ret tt) ;;;
      report_removals rest modified_content
  end.

Definition replace_fbs_and_types (file_path : text)
    (fb_mapping type_mapping fb_removal_mapping : mapping)
    : io (nat * nat * bool) :=
  original_hash <- calculate_file_hash file_path ;;
  original_content <- read_text file_path ;;
  r <- substitute Re.WordLit (fun new_fb => new_fb) fb_msg
         fb_mapping original_content 0 ;;
  let (content1, fb_replacements) := r in
  report_removals fb_removal_mapping content1 ;;;
  r <- substitute Re.WordLit (fun new_type => new_type) type_msg
         type_mapping content1 0 ;;
  let (modified_content, type_replacements) := r in
  changed <- write_back file_path original_hash original_content
               modified_content
               (fmt_4d (fb_replacements + type_replacements)
                ++ " change(s) written to: " ++ file_path) ;;
  ret (fb_replacements, type_replacements, changed).

(** What is to be said of a run of [replace_fbs_and_types] on a file that
    held [data], for a key of the removal table and the notice due for it:
    the pass returns the counts of its two renaming loops; it has printed
    the notice; the final working copy has the tokens of the text read, one
    for one, each under a renaming that leaves the key as it is, so every
    occurrence of the key stands where it stood; the key is matched in the
    final working copy at least as often as in the text read; the file holds
    its old bytes or that working copy; and the result and the files are
    those of the pass run with an empty removal table. *)
Definition reported_and_kept (w : world) (file_path : text) (data : bytes)
    (fb_mapping type_mapping fb_removal_mapping : mapping)
    (key notice : text) : Prop :=
  let content := universal_newlines (decode_latin1 data) in
  let r1 := rewritten Re.WordLit (fun new_fb => new_fb) fb_mapping
              content 0 in
  let r2 := rewritten Re.WordLit (fun new_type => new_type) type_mapping
              (fst r1) 0 in
  let run := replace_fbs_and_types file_path fb_mapping type_mapping
               fb_removal_mapping w in
  let bare := replace_fbs_and_types file_path fb_mapping type_mapping [] w in
  (exists changed, fst run = Return (snd r1, snd r2, changed))
  /\ In (Out Stdout (notice ++ [LF])) (console (snd run))
  /\ (exists rename : text -> text,
        rename key = key
        /\ Re.tokens (fst r2) = map rename (Re.tokens content))
  /\ length (Re.finditer (Re.WordLit key) content)
     <= length (Re.finditer (Re.WordLit key) (fst r2))
  /\ (fs_lookup (files (snd run)) file_path = Some (File data)
      \/ fs_lookup (files (snd run)) file_path
         = Some (File (written (fst r2))))
  /\ fst run = fst bare
  /\ files (snd run) = files (snd bare).

End Passes.

(** ** Dictionaries

    A Python [dict] keeps its keys in insertion order: an association list
    with one entry per key. *)

Module Dict.
Section Dict.
Variable V : Type.

Definition t := list (text * V).

Fixpoint get (d : t) (k : text) : option V :=
  match d with
  | [] => None
  | (k', v) :: rest => if text_eqb k' k then Some v else get rest k
  end.

(** [d[k] = v]: an existing key keeps its place. *)
Fixpoint set (d : t) (k : text) (v : V) : t :=
  match d with
  | [] => [(k, v)]
  | (k', v') :: rest =>
      if text_eqb k' k then (k', v) :: rest else (k', v') :: set rest k v
  end.

(** [d.setdefault(k, v)], for its effect on [d]. *)
Definition setdefault (d : t) (k : text) (v : V) : t :=
  match get d k with
  | Some _ => d
  | None => d ++ [(k, v)]
  end.

(** [d[k] = f(d[k])] for a key of [d].  Where it is used below the key is
    there ([task_keys_in_results], and [setdefault] in [group_step]), so the
    [KeyError] of a missing key does not arise; a [d] without [k] is left as
    it is. *)
Fixpoint update (d : t) (k : text) (f : V -> V) : t :=
  match d with
  | [] => []
  | (k', v) :: rest =>
      if text_eqb k' k then (k', f v) :: rest else (k', v) :: update rest k f
  end.

Definition keys (d : t) : list text := map fst d.

End Dict.
End Dict.

(** ** Paths ([posixpath]) *)

Definition slash : ascii := "/"%char.

Definition endswith (s suffix : text) : bool :=
  startswith (rev suffix) (rev s).

(** [(p[:i], p[i:])] for [i = p.rfind("/") + 1]. *)
Fixpoint split_at_last_slash (p : text) : text * text :=
  match p with
  | [] => ([], [])
  | c :: p' =>
      let (head, tail) := split_at_last_slash p' in
      match head with
      | _ :: _ => (c :: head, tail)
      | [] => if Ascii.eqb c slash then ([c], tail) else ([], c :: tail)
      end
  end.

(** [s.rstrip("/")] *)
Fixpoint rstrip_slashes (s : text) : text :=
  match s with
  | [] => []
  | c :: s' =>
      match rstrip_slashes s' with
      | [] => if Ascii.eqb c slash then [] else [c]
      | r => c :: r
      end
  end.

Definition basename (p : text) : text := snd (split_at_last_slash p).

Definition dirname (p : text) : text :=
  let head := fst (split_at_last_slash p) in
  match rstrip_slashes head with
  | [] => head            (* empty, or nothing but slashes *)
  | stripped => stripped
  end.

(** [os.path.join(a, b)] *)
Definition path_join (a b : text) : text :=
  if startswith "/" b then b
  else if match a with [] => true | _ => endswith a "/" end then a ++ b
  else a ++ "/" ++ b.

(** A path strictly below the directory [root]. *)
Definition below (root p : text) : bool :=
  startswith (path_join root []) p
  && negb (text_eqb (path_join root []) p).

Definition is_file (files : fs) (p : text) : bool :=
  match fs_lookup files p with Some (File _) => true | _ => false end.

(** ** [scan_files_parallel] *)

Section Scanner.

(** Result records and the extra arguments handed to every function. *)
Variable R : Type.
Variable Args : Type.

(** An extraction function: its [__name__] and what a call returns.  A call
    is taken to return; an exception in a task would end the scan when its
    result is fetched. *)
Record process_function := ProcessFunction {
  name : text;
  call : text -> Args -> list R
}.

(** [process_functions] is one callable or a list of them. *)
Inductive process_functions :=
| OneFunction (f : process_function)
| FunctionList (funcs : list process_function).

Inductive scan_result :=
| Flat (results : list R)
| Keyed (results : Dict.t (list R))
| KeyError.

(** [root_dir.rglob(f"*{ext}")]: every entry below the root whose name ends
    with [ext] ([ext] holds no wildcard of its own). *)
Definition rglob (files : fs) (root_dir ext : text) : list text :=
  filter (fun p => below root_dir p && endswith (basename p) ext)
         (map fst files).

Definition file_paths (files : fs) (root_dir : text) (extensions : list text)
    : list text :=
  flat_map (fun ext => filter (is_file files) (rglob files root_dir ext))
           extensions.

Definition function_list (pf : process_functions) : list process_function :=
  match pf with OneFunction f => [f] | FunctionList l => l end.

(** [{func.__name__: [] for func in process_functions}] *)
Definition empty_results (funcs : list process_function) : Dict.t (list R) :=
  fold_left (fun d f => Dict.set d (name f) []) funcs [].

(** The task submitted for one path. *)
Definition process_file (funcs : list process_function) (args : Args)
    (path : text) : Dict.t (list R) :=
  fold_left (fun d f => Dict.set d (name f) (call f path args)) funcs [].

(** [results[func_name].extend(result)] for every item of a task's result. *)
Definition merge (results func_results : Dict.t (list R))
    : Dict.t (list R) :=
  fold_left (fun d item => Dict.update d (fst item) (fun l => l ++ snd item))
            func_results results.

(** The consuming loop, over the tasks in the order they complete. *)
Definition aggregate (funcs : list process_function) (args : Args)
    (completed : list text) : Dict.t (list R) :=
  fold_left (fun results path => merge results (process_file funcs args path))
            completed (empty_results funcs).

(** The function whose results a name stands for in a task's result: the
    last one of that name. *)
Fixpoint last_named (funcs : list process_function) (n : text)
    : option process_function :=
  match funcs with
  | [] => None
  | f :: rest =>
      match last_named rest n with
      | Some g => Some g
      | None => if text_eqb (name f) n then Some f else None
      end
  end.

Definition finish (pf : process_functions) (results : Dict.t (list R))
    : scan_result :=
  match pf with
  | OneFunction f =>
      match Dict.get results (name f) with
      | Some l => Flat l
      | None => KeyError
      end
  | FunctionList _ => Keyed results
  end.

(** The scan for one completion order of its tasks. *)
Definition scan_files_parallel_in (completed : list text)
    (pf : process_functions) (args : Args) : scan_result :=
  finish pf (aggregate (function_list pf) args completed).

(** [scan_files_parallel]: one task per element of [file_paths]; the pool
    completes them in any order. *)
Inductive scan_files_parallel (files : fs) (root_dir : text)
    (extensions : list text) (pf : process_functions) (args : Args)
    : scan_result -> Prop :=
| scan_completed (completed : list text) :
    Permutation completed (file_paths files root_dir extensions) ->
    scan_files_parallel files root_dir extensions pf args
      (scan_files_parallel_in completed pf args).

End Scanner.

(** ** [hardware_check.py] *)

Definition dquote : ascii := "034"%char.

(** The characters before the first double quote, when there is one. *)
Fixpoint until_quote (s : text) : option text :=
  match s with
  | [] => None
  | c :: s' =>
      if Ascii.eqb c dquote then Some []
      else option_map (cons c) (until_quote s')
  end.

(** The regular expression of the module scan is
    [<Module [^>]*Type=Q([^Q]+)Q], with Q for the double quote.

    [Type=Q([^Q]+)Q] at the head of [s]: the group, and the length matched. *)
Definition type_here (s : text) : option (text * nat) :=
  if startswith ("Type=" ++ [dquote]) s then
    match until_quote (skipn 6 s) with
    | Some (c :: v) => Some (c :: v, 6 + length (c :: v) + 1)
    | _ => None
    end
  else None.

(** [[^>]*Type=Q([^Q]+)Q] at the head of [s].  The star is greedy: of the
    places it can stop at, the matcher takes the last that lets the rest of
    the pattern match. *)
Fixpoint type_attribute (s : text) : option (text * nat) :=
  match s with
  | [] => type_here s
  | c :: s' =>
      if Ascii.eqb c ">"%char then type_here s
      else
        match type_attribute s' with
        | Some (v, n) => Some (v, S n)
        | None => type_here s
        end
  end.

(** [re.findall] of the whole expression on [s]: the groups of the
    successive matches; [skip] counts the characters of the current match
    still to be stepped over. *)
Fixpoint module_types_from (skip : nat) (s : text) : list text :=
  match s with
  | [] => []
  | c :: s' =>
      match skip with
      | S k => module_types_from k s'
      | 0 =>
          if startswith "<Module " s then
            match type_attribute (skipn 8 s) with
            | Some (v, n) => v :: module_types_from (7 + n) s'
            | None => module_types_from 0 s'
            end
          else module_types_from 0 s'
      end
  end.

Definition module_types (content : text) : list text :=
  module_types_from 0 content.

(** A match record: (hardware id, reason, file path). *)
Definition hw_match := (text * text * text)%type.

Definition hw_match_eqb (a b : hw_match) : bool :=
  let '(a1, a2, a3) := a in
  let '(b1, b2, b3) := b in
  text_eqb a1 b1 && text_eqb a2 b2 && text_eqb a3 b3.

(** [results.add(x)] on a set kept as a list without repetition. *)
Definition set_add (results : list hw_match) (x : hw_match)
    : list hw_match :=
  if existsb (hw_match_eqb x) results then results else results ++ [x].

(** [hw_type in items] *)
Definition member (x : text) (items : list text) : bool :=
  existsb (text_eqb x) items.

Section HardwareCheck.

(** [utils.read_file] is called here but not defined in [utils.py]; it is
    taken as a parameter: the text of the file at a path. *)
Variable read_file : text -> text.

(** The catalog: reason -> items, in the order of [hardware_dict.items()]. *)
Definition catalog := Dict.t (list text).

(** The list made from a set comes in no particular order; the elements are
    given here in the order they were added. *)
Definition process_hw_file (file_path : text) (hardware_dict : catalog)
    : list hw_match :=
  let content := read_file file_path in
  let matches := module_types content in
  fold_left
    (fun results hw_type =>
       fold_left
         (fun results (item : text * list text) =>
            let (reason, items) := item in
            if member hw_type items
            then set_add results (hw_type, reason, file_path)
            else results)
         hardware_dict results)
    matches [].

Record group := Group { reason : text; configs : list text }.

Definition config_name (file_path : text) : text :=
  basename (dirname file_path).

(** The body of the first loop of [check_hardware] ... *)
Definition group_step (grouped_results : Dict.t group) (r : hw_match)
    : Dict.t group :=
  let '(hardware_id, first_reason, file_path) := r in
  Dict.update
    (Dict.setdefault grouped_results hardware_id (Group first_reason []))
    hardware_id
    (fun e => Group (reason e) (configs e ++ [config_name file_path])).

(** ... and the loop. *)
Definition group_results (hardware_results : list hw_match)
    : Dict.t group :=
  fold_left group_step hardware_results [].

(** The records of [hardware_results] for one identifier: the reason of the
    first, and the configuration names of all, in order. *)
Definition has_id (hardware_id : text) (r : hw_match) : bool :=
  text_eqb (fst (fst r)) hardware_id.

Definition first_reason (hardware_id : text)
    (hardware_results : list hw_match) : option text :=
  option_map (fun r => snd (fst r)) (find (has_id hardware_id) hardware_results).

Definition configs_of (hardware_id : text)
    (hardware_results : list hw_match) : list text :=
  map (fun r => config_name (snd r))
      (filter (has_id hardware_id) hardware_results).

(** Strings compare by code point, the shorter of two first when one is the
    start of the other. *)
Fixpoint text_leb (a b : text) : bool :=
  match a, b with
  | [], _ => true
  | _ :: _, [] => false
  | x :: a', y :: b' =>
      if Ascii.eqb x y then text_leb a' b'
      else nat_of_ascii x <? nat_of_ascii y
  end.

Definition text_le (a b : text) : Prop := text_leb a b = true.

Fixpoint insert_sorted (x : text) (l : list text) : list text :=
  match l with
  | [] => [x]
  | y :: l' => if text_leb x y then x :: l else y :: insert_sorted x l'
  end.

(** [sorted(l)] *)
Definition sorted (l : list text) : list text :=
  fold_right insert_sorted [] l.

(** [sep.join(l)] *)
Fixpoint join (sep : text) (l : list text) : text :=
  match l with
  | [] => []
  | [x] => x
  | x :: rest => x ++ sep ++ join sep rest
  end.

(** The names shown for one identifier. *)
Definition listed_configs (entries : group) : list text :=
  sorted (firstn 3 (configs entries)).

Definition more_suffix (entries : group) : text :=
  if 3 <? length (configs entries)
  then ", and " ++ str_nat (length (configs entries) - 3) ++ " more..."
  else [].

Definition entry_lines (hardware_id : text) (entries : group) : text :=
  [LF; LF] ++ "- " ++ hardware_id ++ ": " ++ reason entries
  ++ [LF] ++ "  Used in configurations: "
  ++ join ", " (listed_configs entries)
  ++ more_suffix entries.

Definition report_text (grouped_results : Dict.t group) : text :=
  fold_left (fun output item => output ++ entry_lines (fst item) (snd item))
            grouped_results
            ("The following unsupported hardware were found:" : text).

(** A call [log(message, when=..., severity=...)]. *)
Record log_call := LogCall { message : text; when : text; severity : text }.

(** U+2500, as its UTF-8 bytes. *)
Definition box_light_horizontal : text := ["226"; "148"; "128"]%char.

Definition banner : log_call :=
  LogCall (concat (repeat box_light_horizontal 80)
           ++ [LF] ++ "Checking for invalid hardware...") [] [].

(** [check_hardware] from the scan's result on. *)
Definition report (hardware_results : list hw_match) (verbose : bool)
    : list log_call :=
  match hardware_results with
  | _ :: _ =>
      [LogCall (report_text (group_results hardware_results)) "AS4" "WARNING"]
  | [] =>
      if verbose
      then [LogCall "No unsupported hardware found in the project." [] "INFO"]
      else []
  end.

(** [check_hardware(physical_path, log, verbose)]: the calls of [log] it
    makes, for the catalog [load_discontinuation_info] returned. *)
Inductive check_hardware (files : fs) (physical_path : text)
    (unsupported_hardware : catalog) (verbose : bool)
    : list log_call -> Prop :=
| check_hardware_done (hardware_results : list hw_match) :
    scan_files_parallel files physical_path [".hw" : text]
      (OneFunction (ProcessFunction "process_hw_file" process_hw_file))
      unsupported_hardware (Flat hardware_results) ->
    check_hardware files physical_path unsupported_hardware verbose
      (banner :: report hardware_results verbose).

End HardwareCheck.

(** ** [utils.log], [utils.ask_user], [utils.get_and_check_project_file] *)

Definition ESC : ascii := "027"%char.

Module ConsoleColors.
Definition RESET : text := ESC :: "[0m".
Definition MANDATORY : text := ESC :: "[1;31m".
Definition WARNING : text := ESC :: "[1;33m".
Definition INFO : text := ESC :: "[92m".
End ConsoleColors.

(** [s.upper()] on the letters a..z.  The severity tags compared with are
    ASCII words without a double S, so other letters do not matter here. *)
Definition upper_char (c : ascii) : ascii :=
  let n := nat_of_ascii c in
  if (97 <=? n) && (n <=? 122) then ascii_of_nat (n - 32) else c.

Definition upper (s : text) : text := map upper_char s.

(** [s.lower()]: A..Z, and the capital letters of U+00C0..U+00DE. *)
Definition lower_char (c : ascii) : ascii :=
  let n := nat_of_ascii c in
  if ((65 <=? n) && (n <=? 90))
     || ((192 <=? n) && (n <=? 222) && negb (n =? 215))
  then ascii_of_nat (n + 32) else c.

Definition lower (s : text) : text := map lower_char s.

(** [c.isspace()] below 256. *)
Definition is_space (c : ascii) : bool :=
  let n := nat_of_ascii c in
  ((9 <=? n) && (n <=? 13)) || ((28 <=? n) && (n <=? 32))
  || (n =? 133) || (n =? 160).

Fixpoint lstrip (s : text) : text :=
  match s with
  | c :: s' => if is_space c then lstrip s' else s
  | [] => []
  end.

(** [s.strip()] *)
Definition strip (s : text) : text := rev (lstrip (rev (lstrip s))).

(** [utils.log(message, when=..., severity=...)], called without a log
    file. *)
Definition log (message when severity : text) : io unit :=
  let message :=
    match when with
    | [] => message
    | _ :: _ => "[" ++ when ++ "] " ++ message
    end in
  let tag := "[" ++ severity ++ "]" in
  let console_message :=
    match severity with
    | [] => message
    | _ :: _ =>
        let colored_severity :=
          if text_eqb (upper severity) "MANDATORY"
             || text_eqb (upper severity) "ERROR"
          then ConsoleColors.MANDATORY ++ tag ++ ConsoleColors.RESET
          else if text_eqb (upper severity) "WARNING"
          then ConsoleColors.WARNING ++ tag ++ ConsoleColors.RESET
          else if text_eqb (upper severity) "INFO"
          then ConsoleColors.INFO ++ tag ++ ConsoleColors.RESET
          else tag in
        colored_severity ++ " " ++ message
    end in
  emit (Out (if text_eqb (upper severity) "ERROR" then Stderr else Stdout)
            ([LF] ++ console_message ++ [LF])).

(** What the process finds on its standard input. *)
Inductive stdin_state :=
| NoTerminal                  (* no stdin, or not a terminal *)
| Terminal (line : text)      (* the line the user types *)
| TerminalError (e : text).   (* input() raises; [e] is str(exception) *)

(** [utils.ask_user(message, default, extra_note=...)] without a parent
    window, as [main] calls it; the note is for the dialog only. *)
Definition ask_user (stdin : stdin_state) (message default : text)
    : io text :=
  let fallback :=
    log (message ++ " (Automatically using default: " ++ quoted default ++ ")")
        [] "INFO" ;;;
    ret default in
  match stdin with
  | Terminal line =>
      emit (Out Stdout message) ;;; ret (lower (strip line))
  | TerminalError e =>
      emit (Out Stdout message) ;;;
      log ("ask_user fallback triggered due to: " ++ e) [] "DEBUG" ;;;
      fallback
  | NoTerminal => fallback
  end.

(** The entries of a directory, in enumeration order. *)
Definition children (files : fs) (dir : text) : list text :=
  filter (fun p => below dir p && text_eqb (path_join dir (basename p)) p)
         (map fst files).

(** [utils.get_and_check_project_file(project_path)]; [argv0] is
    [sys.argv[0]]. *)
Definition get_and_check_project_file (argv0 project_path : text)
    : io text :=
  fun w =>
    match fs_lookup (files w) project_path with
    | None =>
        (log ("The provided project path does not exist: "
              ++ quoted project_path
              ++ [LF] ++ "Ensure the path is correct and the project folder exists."
              ++ [LF] ++ "If the path contains spaces, make sure to wrap it in quotes, like this:"
              ++ [LF] ++ "   python " ++ basename argv0 ++ " "
              ++ [dquote] ++ "C:\path\to\your\project" ++ [dquote])
             [] "ERROR" ;;;
         raise (SystemExit 1)) w
    | Some _ =>
        match filter (fun p => endswith (basename p) ".apj")
                     (children (files w) project_path) with
        | [] =>
            (log ("No .apj file found in the provided path: " ++ project_path
                  ++ [LF] ++ "Please specify a valid Automation Studio project path.")
                 [] "ERROR" ;;;
             raise (SystemExit 1)) w
        | apj_file :: _ => (Return (basename apj_file), w)
        end
    end.

(** ** [main] of [mappmotion_update.py] *)

Section Main.

Variable md5_state : Type.
Variable md5_new : md5_state.
Variable md5_update : md5_state -> bytes -> md5_state.
Variable md5_hexdigest : md5_state -> text.
Variable linesep : text.

Definition package_file (project_path : text) : text :=
  path_join (path_join (path_join project_path "Logical") "Libraries")
            "Package.pkg".

Definition check_for_library (project_path : text)
    (library_names : list text) : io (list text) :=
  let pkg_file := package_file project_path in
  fun w =>
    if is_file (files w) pkg_file then
      (content <- read_text pkg_file ;;
       ret (filter (fun lib => contains lib content) library_names)) w
    else
      (print ("Error: Could not find Package.pkg file in: " ++ pkg_file) ;;;
       ret []) w.

Definition warn_msg (old_item new_item : text) : text :=
  "Found usages of " ++ quoted old_item ++ ", needs replacing with "
  ++ quoted new_item
  ++ " - skipping auto-replacement due to possible functionality change".

Fixpoint warn_each (item_mappings : mapping) (original_content : text)
    : io unit :=
  match item_mappings with
  | [] => ret tt
  | (old_item, new_item) :: rest =>
      (match Re.findall (Re.Lit old_item) original_content with
       | _ :: _ => print (warn_msg old_item new_item)
       | [] => ret tt
       end) ;;;
      warn_each rest original_content
  end.

Definition warn_inputs (file_path : text) (item_mappings : mapping)
    : io unit :=
  original_content <- read_text file_path ;;
  warn_each item_mappings original_content.

Definition input_mapping : mapping :=
  [ ("Parameter.AxesGroup" : text, "Parameter.Component" : text);
    ("StandBy" : text, "Standby" : text);
    ("DataAdress" : text, "DataAddress" : text);
    ("Info.AutoTuneDone" : text, "AutoTuneDone" : text);
    ("Info.MechDeviationCompState" : text,
     "Info.AxisAdditionalInfo.MechDeviationCompState" : text);
    ("Info.AutoTuneState" : text,
     "Info.AxisAdditionalInfo.AutoTuneState" : text);
    ("Info.CommunicationState" : text,
     "Info.AxisAdditionalInfo.CommunicationState" : text);
    ("Info.StartupCount" : text,
     "Info.AxisAdditionalInfo.StartupCount" : text);
    ("Info.DigitalInputStatus" : text,
     "Info.AxisAdditionalInfo.DigitalInputStatus" : text);
    ("Info.PLCopenState" : text,
     "Info.AxisAdditionalInfo.PLCopenState" : text);
    ("Info.ActualOffsetShift" : text, "Info.Offset.ActualShift" : text);
    ("Info.OffsetValid" : text, "Info.Offset.Valid" : text);
    ("Info.ActualPhaseShift" : text, "Info.Phasing.ActualShift" : text);
    ("Info.PhasingValid" : text, "Info.Phasing.Valid" : text);
    ("Common.AdvancedParameters.StartStateParam.StartState" : text,
     "Common.StartStateParam.StartState" : text);
    ("Common.AdvancedParameters.StartStateParam.MasterStartRelPos" : text,
     "Common.StartStateParam.MasterStartPositionInCam" : text);
    ("CompensationParameters.MasterCamLeadIn" : text,
     "AdvancedParameters.MasterCamLeadIn" : text);
    ("AdvancedParameters.ShuttleIndex" : text,
     "AdvancedParameters.ShuttleID" : text);
    ("AssemblyInfo.ShuttlesCount" : text,
     "AssemblyInfo.ShuttleCount.Count" : text);
    ("AssemblyInfo.ShuttlesInStandstillCount" : text,
     "AssemblyInfo.ShuttleCount.InStandstill" : text);
    ("AssemblyInfo.ShuttlesInDisabledCount" : text,
     "AssemblyInfo.ShuttleCount.InDisabled" : text);
    ("AssemblyInfo.ShuttlesInStoppingCount" : text,
     "AssemblyInfo.ShuttleCount.InStopping" : text);
    ("AssemblyInfo.ShuttlesInErrorStopCount" : text,
     "AssemblyInfo.ShuttleCount.InErrorStop" : text);
    ("AssemblyInfo.VirtualShuttlesCount" : text,
     "AssemblyInfo.ShuttleCount.VirtualShuttles" : text);
    ("AssemblyInfo.ConvoysCount" : text,
     "AssemblyInfo.ShuttleCount.Convoys" : text);
    ("AssemblyInfo.SegmentsInDisabledCount" : text,
     "AssemblyInfo.SegmentCount.SegmentsInDisabled" : text);
    ("AssemblyInfo.SegmentsInStoppingCount" : text,
     "AssemblyInfo.SegmentCount.SegmentsInStopping" : text);
    ("AssemblyInfo.SegmentsInErrorStopCount" : text,
     "AssemblyInfo.SegmentCount.SegmentsInErrorStop" : text);
    ("Distance.Junction" : text, "Distance.Diverter" : text) ].

Definition input_mapping_warning : mapping :=
  [ ("StopMode" : text, "AdvancedParameters.StopMode" : text) ].

Definition type_mapping : mapping :=
  [ ("MpAxisCouplingRecoveryParType" : text, "MpAxisRecoveryParType" : text);
    ("MpAxisSequencerRecoveryParType" : text, "MpAxisRecoveryParType" : text);
    ("McAcpAxCamAutDefineType" : text, "McCamAutDefineType" : text);
    ("McAcpTrakAdvSecAddShWithMovType" : text,
     "McAcpTrakAdvSecAddShuttleType" : text) ].

Definition fb_mapping : mapping :=
  [ ("MC_BR_CamAutomatSetPar_AcpAx" : text, "MC_BR_CamAutomatSetPar" : text);
    ("MC_BR_CamAutomatGetPar_AcpAx" : text, "MC_BR_CamAutomatGetPar" : text);
    ("MC_BR_ShSetUserId_AcpTrak" : text, "MC_BR_ShSetUserID_AcpTrak" : text);
    ("MC_BR_TrgPointGetInfo_AcpTrak" : text,
     "MC_BR_TrgPointReadInfo_AcpTrak" : text);
    ("MC_BR_SecAddShWithMov_AcpTrak" : text,
     "MC_BR_SecAddShuttle_AcpTrak" : text);
    ("MC_BR_AsmGetShuttleSel_AcpTrak" : text,
     "MC_BR_AsmGetShuttle_AcpTrak" : text);
    ("MC_BR_SecGetShuttleSel_AcpTrak" : text,
     "MC_BR_SecGetShuttle_AcpTrak" : text) ].

Definition fb_removal_mapping : mapping :=
  [ ("MC_BR_AsmSegGrpPowerOn_AcpTrak" : text,
     "MC_BR_AsmPowerOn_AcpTrak.SegmentGroup" : text);
    ("MC_BR_AsmSegGrpPowerOff_AcpTrak" : text,
     "MC_BR_AsmPowerOff_AcpTrak.SegmentGroup" : text) ].

Definition enum_mapping : mapping :=
  [ ("mcAFDCSACOPOSMULTIDO_SS1X111" : text,
     "mcAFDCSACOPOSMULTIDO_SS2X111" : text);
    ("mcAFDCSACOPOSMULTIDO_SS1X113" : text,
     "mcAFDCSACOPOSMULTIDO_SS2X113" : text);
    ("mcAFDCSACOPOSMULTIDO_SS1X115" : text,
     "mcAFDCSACOPOSMULTIDO_SS2X115" : text);
    ("mcAFDCSACOPOSMULTIDO_SS1X116" : text,
     "mcAFDCSACOPOSMULTIDO_SS2X116" : text) ].

Definition library_names : list text :=
  [ "McAxis" : text; "MpAxis" : text; "McBase" : text; "McAcpAx" : text;
    "McAcpTrak" : text; "McAcpAx" : text ].

(** [os.walk(top)] flattened to its (root, file) pairs: every file below
    [top], in enumeration order. *)
Definition walk (files : fs) (top : text) : list (text * text) :=
  map (fun p => (dirname p, basename p))
      (filter (fun p => below top p && is_file files p) (map fst files)).

Definition endswith_any (s : text) (suffixes : list text) : bool :=
  existsb (endswith s) suffixes.

(** The running totals of [main]. *)
Record totals := Totals {
  total_input_replacements : nat;
  total_function_replacements : nat;
  total_enums_replacements : nat;
  total_type_replacements : nat;
  total_files_changed : nat
}.

(** The body of the two nested loops, for one file. *)
Definition process_entry (t : totals) (entry : text * text) : io totals :=
  let (root, file) := entry in
  if contains "Libraries" root then ret t
  else
    let file_path := path_join root file in
    if endswith_any file [".st" : text; ".c" : text; ".cpp" : text;
                          ".ab" : text] then
      warn_inputs file_path input_mapping_warning ;;;
      r <- replace_enums md5_new md5_update md5_hexdigest linesep
             file_path enum_mapping ;;
      let (enum_replacements, changed) := r in
      let t :=
        if (changed : bool)
        then Totals (total_input_replacements t)
                    (total_function_replacements t)
                    (total_enums_replacements t + enum_replacements)
                    (total_type_replacements t)
                    (total_files_changed t + 1)
        else t in
      r <- replace_inputs md5_new md5_update md5_hexdigest linesep
             file_path input_mapping ;;
      let (input_replacements, changed) := r in
      ret (if (changed : bool)
           then Totals (total_input_replacements t + input_replacements)
                       (total_function_replacements t)
                       (total_enums_replacements t)
                       (total_type_replacements t)
                       (total_files_changed t + 1)
           else t)
    else if endswith_any file [".typ" : text; ".var" : text;
                               ".fun" : text] then
      r <- replace_fbs_and_types md5_new md5_update md5_hexdigest linesep
             file_path fb_mapping type_mapping fb_removal_mapping ;;
      let '(function_replacements, type_replacements, changed) := r in
      ret (if (changed : bool)
           then Totals (total_input_replacements t)
                       (total_function_replacements t + function_replacements)
                       (total_enums_replacements t)
                       (total_type_replacements t + type_replacements)
                       (total_files_changed t + 1)
           else t)
    else ret t.

Fixpoint process_entries (t : totals) (entries : list (text * text))
    : io totals :=
  match entries with
  | [] => ret t
  | e :: rest => t' <- process_entry t e ;; process_entries t' rest
  end.

(** [main] from the tables on: the walk over [Logical] and the summary. *)
Definition migrate (project_path : text) : io unit :=
  let logical_path := path_join project_path "Logical" in
  fun w =>
    (t <- process_entries (Totals 0 0 0 0 0) (walk (files w) logical_path) ;;
     print ([LF] ++ "Summary:") ;;;
     print ("Total function blocks replaced: "
            ++ str_nat (total_function_replacements t)) ;;;
     print ("Total function block inputs replaced: "
            ++ str_nat (total_input_replacements t)) ;;;
     print ("Total enumerators replaced: "
            ++ str_nat (total_enums_replacements t)) ;;;
     print ("Total types replaced: "
            ++ str_nat (total_type_replacements t)) ;;;
     print ("Total files changed: " ++ str_nat (total_files_changed t)) ;;;
     if (total_function_replacements t =? 0)
        && (total_enums_replacements t =? 0)
        && (total_type_replacements t =? 0)
        && (total_input_replacements t =? 0)
     then print "No functions, inputs or constants needed to be replaced."
     else print "Replacement completed successfully.") w.

Definition not_found_question : text :=
  "Do you want to proceed with replacing functions and constants anyway? (y/n) [y]: ".

(** What [main] has printed when it asks that question after a successful
    project check and a failed search for the package descriptor. *)
Definition printed_before_question (project_path apj_file : text)
    (verbose : bool) : list event :=
  [SetVerbose verbose;
   Out Stdout ("Project path validated: " ++ project_path ++ [LF]);
   Out Stdout ("Using project file: " ++ apj_file ++ [LF] ++ [LF]);
   Out Stdout ("Error: Could not find Package.pkg file in: "
               ++ package_file project_path ++ [LF]);
   Out Stdout
     ("This script will search for usages of mappMotion function blocks, types and enumerators and update the naming."
      ++ [LF]
      ++ "Before proceeding, make sure you have a backup or are using version control (e.g., Git)."
      ++ [LF] ++ [LF]);
   Out Stdout ("None of the libraries supported by the script were found."
               ++ [LF] ++ [LF])].

Definition on_stderr (e : event) : bool :=
  match e with Out Stderr _ => true | _ => false end.

Definition proceeds (answer : text) : bool :=
  text_eqb answer [] || text_eqb answer "y".

(** [main()], for the command line [argv0 project_path [-v]].  An uncaught
    [SystemExit 1] or other exception is a failed run; [Return] is exit
    status 0. *)
Definition main (argv0 project_path : text) (verbose : bool)
    (stdin : stdin_state) : io unit :=
  apj_file <- get_and_check_project_file argv0 project_path ;;
  emit (SetVerbose verbose) ;;;
  print ("Project path validated: " ++ project_path) ;;;
  print ("Using project file: " ++ apj_file ++ [LF]) ;;;
  found_libraries <- check_for_library project_path library_names ;;
  print ("This script will search for usages of mappMotion function blocks, types and enumerators and update the naming."
         ++ [LF]
         ++ "Before proceeding, make sure you have a backup or are using version control (e.g., Git)."
         ++ [LF]) ;;;
  match found_libraries with
  | [] =>
      print ("None of the libraries supported by the script were found."
             ++ [LF]) ;;;
      proceed <- ask_user stdin not_found_question "y" ;;
      if proceeds proceed then migrate project_path
      else print "Operation cancelled. No changes were made."
  | _ :: _ =>
      print ("Libraries found: " ++ join ", " found_libraries ++ "." ++ [LF]) ;;;
      proceed <- ask_user stdin "Do you want to continue? (y/n) [y]: " "y" ;;
      if proceeds proceed then migrate project_path
      else print "Operation cancelled. No changes were made."
  end.

End Main.

(** ** Sample inputs *)

Module Sample.

(** A stand-in for MD5 that keeps all it is fed: equal digests, equal
    bytes. *)
Definition plain_new : bytes := [].
Definition plain_update (state chunk : bytes) : bytes := state ++ chunk.
Definition plain_hexdigest (state : bytes) : text := decode_latin1 state.

Definition posix_linesep : text := [LF].

Definition one_file (path : text) (content : text) : world :=
  World [(path, File (encode_latin1 content))] [].

(** A program file no table of [main] has a key in. *)
Definition untouched : world := one_file "Cyclic.st" "axis.Enable := TRUE;".

(** Files that end a line with a lone carriage return, and tables that turn
    the line feed read for it back into one. *)
Definition cr_enum_file : world := one_file "a.st" ("a" ++ [CR] ++ "b").
Definition cr_enum_table : mapping :=
  [("a" ++ [LF] ++ "b", "a" ++ [CR] ++ "b")].

Definition cr_input_file : world := one_file "a.st" ("x.k" ++ [CR] ++ "y").
Definition cr_input_table : mapping :=
  [("k" ++ [LF] ++ "y", "k" ++ [CR] ++ "y")].

(** The text of the word-boundary example, in a program file. *)
Definition foo_text : text := "Foobar FooX Foo.Y".
Definition foo_file : world := one_file "Main.st" foo_text.
Definition foo_table : mapping := [("Foo" : text, "Bar" : text)].

(** A declaration file that uses a function block of the removal table
    next to a type of the type table. *)
Definition removal_text : text :=
  "fb : MC_BR_AsmSegGrpPowerOn_AcpTrak; p : MpAxisCouplingRecoveryParType;".
Definition removal_file : world := one_file "Types.typ" removal_text.

(** A project with one hardware file, and extraction functions that return
    the path they are given with a mark of their own. *)
Definition hw_path : text := "/proj/Physical/Config1/Hardware.hw".
Definition hw_tree : fs :=
  [("/proj" : text, Dir); ("/proj/Physical" : text, Dir);
   ("/proj/Physical/Config1" : text, Dir); (hw_path, File [])].

Definition marks (mark : text) (path : text) (_ : unit) : list text :=
  [path ++ mark].

Definition extract_f : process_function text unit :=
  ProcessFunction "extract" (marks ":f").
Definition extract_g : process_function text unit :=
  ProcessFunction "extract" (marks ":g").

Definition collect_h : process_function text unit :=
  ProcessFunction "collect" (marks ":h").

(** Four configurations with the same module, in the order D, C, B, A, and
    a catalog that lists the module under one reason. *)
Definition four_configs : fs :=
  [("/proj/Physical/ConfigD/Hardware.hw" : text, File []);
   ("/proj/Physical/ConfigC/Hardware.hw" : text, File []);
   ("/proj/Physical/ConfigB/Hardware.hw" : text, File []);
   ("/proj/Physical/ConfigA/Hardware.hw" : text, File [])].

Definition module_line : text :=
  "<Module Name=" ++ [dquote] ++ "IF1" ++ [dquote]
  ++ " Type=" ++ [dquote] ++ "X100" ++ [dquote] ++ " />".

Definition same_module (path : text) : text := module_line.

Definition eol_catalog : catalog := [("EOL" : text, ["X100" : text])].

Definition four_results : list hw_match :=
  [("X100" : text, "EOL" : text, "/proj/Physical/ConfigD/Hardware.hw" : text);
   ("X100" : text, "EOL" : text, "/proj/Physical/ConfigC/Hardware.hw" : text);
   ("X100" : text, "EOL" : text, "/proj/Physical/ConfigB/Hardware.hw" : text);
   ("X100" : text, "EOL" : text, "/proj/Physical/ConfigA/Hardware.hw" : text)].

(** A module listed under two reasons. *)
Definition two_reasons : catalog :=
  [("EOL" : text, ["X100" : text]); ("Replaced" : text, ["X100" : text])].

(** A project folder with its project file and no package descriptor. *)
Definition bare_project : world :=
  World [("/proj" : text, Dir); ("/proj/Demo.apj" : text, File [])] [].

Definition eol_record : hw_match :=
  ("X100" : text, "EOL" : text, "/proj/Physical/ConfigA/Hardware.hw" : text).
Definition replaced_record : hw_match :=
  ("X100" : text, "Replaced" : text,
   "/proj/Physical/ConfigA/Hardware.hw" : text).

End Sample.

(** * Further definitions

    What the properties of the second part are stated with. *)

(** The text holds no carriage return. *)
Definition cr_free (s : text) : bool := negb (existsb (Ascii.eqb CR) s).

(** The line separators of the platforms Python runs on. *)
Definition is_linesep (linesep : text) : bool :=
  text_eqb linesep [LF] || text_eqb linesep [CR; LF].

(** No replacement of the table holds a carriage return. *)
Definition cr_free_table (repl : text -> text) (table : mapping) : bool :=
  forallb (fun rule => cr_free (repl (snd rule))) table.

(** A relation between the files before and after holds for every run. *)
Definition keeps (Rel : fs -> fs -> Prop) {A : Type} (m : io A) : Prop :=
  forall w, Rel (files w) (files (snd (m w))).

(** The same node at every path outside [touched]. *)
Definition same_except (touched : text -> Prop) (before after : fs) : Prop :=
  forall other, ~ touched other -> fs_lookup after other = fs_lookup before other.

(** The same paths in the same order, when [path] is among them. *)
Definition same_paths_with (path : text) (before after : fs) : Prop :=
  In path (map fst before) -> map fst after = map fst before.

(** A computation on the file at [path] that touches nothing else: every
    other path keeps its node, the paths and their order stay, and when
    [path] is no file the computation raises at once, the world as it was. *)
Definition confined_to (path : text) {A : Type} (m : io A) : Prop :=
  forall w,
    (forall other, other <> path ->
       fs_lookup (files (snd (m w))) other = fs_lookup (files w) other)
    /\ map fst (files (snd (m w))) = map fst (files w)
    /\ (fs_lookup (files w) path = None -> m w = (Raise FileNotFoundError, w))
    /\ (fs_lookup (files w) path = Some Dir ->
        m w = (Raise IsADirectoryError, w)).

(** ** The run as a whole *)

(** What [ask_user] returns: the line typed, stripped and in lower case, or
    the default where nothing can be read. *)
Definition answer (stdin : stdin_state) (default : text) : text :=
  match stdin with
  | Terminal line => lower (strip line)
  | NoTerminal | TerminalError _ => default
  end.

(** The entries of the walk that [main] hands to a pass: not below a folder
    with "Libraries" in its path, and with one of the seven suffixes. *)
Definition eligible (entry : text * text) : bool :=
  negb (contains "Libraries" (fst entry))
  && (endswith_any (snd entry)
        [".st" : text; ".c" : text; ".cpp" : text; ".ab" : text]
      || endswith_any (snd entry)
           [".typ" : text; ".var" : text; ".fun" : text]).

(** The paths a run on [files] hands to a pass. *)
Definition handed_to_a_pass (files : fs) (project_path : text) (p : text)
    : Prop :=
  exists entry,
    In entry (walk files (path_join project_path "Logical"))
    /\ eligible entry = true
    /\ p = path_join (fst entry) (snd entry).

Definition same_paths (before after : fs) : Prop :=
  map fst after = map fst before.

Definition same_dirs (before after : fs) : Prop :=
  forall p, fs_lookup before p = Some Dir -> fs_lookup after p = Some Dir.

Definition cancelled : text := "Operation cancelled. No changes were made.".

(** ** Warnings *)

(** The line [warn_inputs] prints for a rule. *)
Definition warning (rule : text * text) : event :=
  Out Stdout (warn_msg (fst rule) (snd rule) ++ [LF]).

(** A program file that uses the input the warning table names, inside a
    longer identifier as well. *)
Definition stop_text : text := "axis.StopMode := MyStopModeDefault;".
Definition stop_file : world := Sample.one_file "Main.st" stop_text.

(** ** Running a pass again *)

(** Every key and every new name of the table is an identifier. *)
Definition identifier_table (table : mapping) : bool :=
  forallb (fun rule => Re.identifier (fst rule) && Re.identifier (snd rule))
          table.

(** No new name of the table is [key]. *)
Definition never_renamed_to (key : text) (table : mapping) : bool :=
  forallb (fun rule => negb (text_eqb (snd rule) key)) table.

(** Two tables of identifiers in which no new name is a key. *)
Definition settled_tables (fb_table type_table : mapping) : bool :=
  identifier_table fb_table && identifier_table type_table
  && forallb (fun key => never_renamed_to key (fb_table ++ type_table))
             (map fst (fb_table ++ type_table)).

(** The bytes a pass leaves in a file that held [data], read as
    [original], once it has arrived at [modified]. *)
Definition left_behind (linesep : text) (data : bytes)
    (original modified : text) : bytes :=
  if text_eqb modified original then data else written linesep modified.

(** ** Module types *)

(** A text without a double quote. *)
Definition quote_free (s : text) : bool := negb (existsb (Ascii.eqb dquote) s).

(** ** [count_hardware] *)

(** The value kept for a module: the dictionary [{"cnt": n}]. *)
Record counter := Counter { cnt : nat }.

(** What a dictionary of counters holds for a module after [n] more
    matches of it. *)
Definition counted_from (o : option counter) (n : nat) : option counter :=
  match n with
  | 0 => o
  | S _ => Some (Counter (match o with Some e => cnt e | None => 0 end + n))
  end.

Section HardwareCount.

Variable read_file : text -> text.

(** The body of the inner loop: [result.setdefault(module, {"cnt": 0})],
    then [result[module]["cnt"] += 1]. *)
Definition count_step (result : Dict.t counter) (module : text)
    : Dict.t counter :=
  Dict.update (Dict.setdefault result module (Counter 0)) module
              (fun e => Counter (cnt e + 1)).

(** [count_hardware(folder)].  [rglob] is not filtered here: every entry
    below the folder whose name ends with ".hw" is read. *)
Definition count_hardware (files : fs) (folder : text) : Dict.t counter :=
  fold_left
    (fun result file_path =>
       fold_left count_step (module_types (read_file file_path)) result)
    (rglob files folder ".hw") [].

(** The module types of all hardware files below the folder, one for each
    [Module] element matched. *)
Definition modules_below (files : fs) (folder : text) : list text :=
  flat_map (fun file_path => module_types (read_file file_path))
           (rglob files folder ".hw").

(** A hardware file below [physical_path] holds a module that the catalog
    lists. *)
Definition listed_module_found (files : fs) (physical_path : text)
    (unsupported_hardware : catalog) : Prop :=
  exists file_path hw_type reason items,
    In file_path (file_paths files physical_path [".hw" : text])
    /\ In hw_type (module_types (read_file file_path))
    /\ In (reason, items) unsupported_hardware
    /\ member hw_type items = true.

End HardwareCount.

Definition nothing_found : log_call :=
  LogCall "No unsupported hardware found in the project." [] "INFO".


(** ** Libraries found *)

(** A project whose package descriptor names one library of the list of
    [main]. *)
Definition library_text : text := "<Object Type=Library>McAcpAx</Object>".
Definition library_project : world :=
  World [("/proj" : text, Dir); ("/proj/Demo.apj" : text, File []);
         ("/proj/Logical" : text, Dir);
         ("/proj/Logical/Libraries" : text, Dir);
         ("/proj/Logical/Libraries/Package.pkg" : text,
          File (encode_latin1 library_text))] [].

(** ** Configuration names *)

(** A name that holds no slash. *)
Definition slash_free (s : text) : bool := negb (existsb (Ascii.eqb slash) s).

(** ** The declaration pass, token by token *)

(** The new name the table has for a token, or the token itself: the first
    rule with the token as its key decides. *)
Definition renamed_by (table : mapping) (t : text) : text :=
  match find (fun rule => text_eqb (fst rule) t) table with
  | Some rule => snd rule
  | None => t
  end.

(** The token is a key of the table. *)
Definition is_key (table : mapping) (t : text) : bool :=
  existsb (fun rule => text_eqb (fst rule) t) table.

(** No new name of the table is a key of it. *)
Definition no_chain (table : mapping) : bool :=
  forallb (fun key => never_renamed_to key table) (map fst table).


(** ** The notice for a removed function block *)

(** A name that holds no dot. *)
Definition dot_free (s : text) : bool :=
  negb (existsb (Ascii.eqb "."%char) s).

(** ** A project below a folder named Libraries *)

(** What the rewrite prints when it has replaced nothing. *)
Definition summary_of_nothing : list event :=
  map (fun line => Out Stdout (line ++ [LF]))
      [LF :: "Summary:";
       "Total function blocks replaced: 0" : text;
       "Total function block inputs replaced: 0" : text;
       "Total enumerators replaced: 0" : text;
       "Total types replaced: 0" : text;
       "Total files changed: 0" : text;
       "No functions, inputs or constants needed to be replaced." : text].

(** A project kept below a folder of that name, with a declaration file
    that uses a type of the table. *)
Definition shelved_project : world :=
  World [("/Libraries/proj" : text, Dir);
         ("/Libraries/proj/Demo.apj" : text, File []);
         ("/Libraries/proj/Logical" : text, Dir);
         ("/Libraries/proj/Logical/Types.typ" : text,
          File (encode_latin1 Sample.removal_text))] [].

(** * Properties *)

Unset Implicit Arguments.

Lemma text_eqb_eq (a b : text) : text_eqb a b = true <-> a = b.
Proof.
  unfold text_eqb. destruct (text_dec a b); split; congruence.
Qed.

Lemma text_eqb_refl (a : text) : text_eqb a a = true.
Proof. now apply text_eqb_eq. Qed.

Lemma text_eqb_neq (a b : text) : text_eqb a b = false <-> a <> b.
Proof.
  unfold text_eqb. destruct (text_dec a b); split; congruence.
Qed.


Example subn_word_example :
  Re.subn (Re.WordLit "Foo") "Bar" "Foobar FooX Foo.Y" =
  Some ("Foobar FooX Bar.Y" : text, 1).
Proof. reflexivity. Qed.

Example subn_lit_example :
  Re.subn (Re.Lit "Foo") "Bar" "Foobar FooX Foo.Y" =
  Some ("Barbar BarX Bar.Y" : text, 3).
Proof. reflexivity. Qed.

Example subn_empty_example :
  Re.subn (Re.Lit "") "-" "abc" = Some ("-a-b-c-" : text, 4).
Proof. reflexivity. Qed.


(** ** Strings *)

Lemma eqb_ascii_true (a b : ascii) : Ascii.eqb a b = true <-> a = b.
Proof. apply Ascii.eqb_eq. Qed.

Lemma startswith_app (k r : text) : startswith k (k ++ r) = true.
Proof.
  induction k as [|a k IH]; simpl; [reflexivity|].
  now rewrite Ascii.eqb_refl, IH.
Qed.

Lemma startswith_split (k s : text) :
  startswith k s = true -> s = k ++ skipn (length k) s.
Proof.
  revert s. induction k as [|a k IH]; intros [|b s]; simpl; try easy.
  intros H. apply andb_true_iff in H as [Hab Hk].
  apply Ascii.eqb_eq in Hab. subst b. f_equal. now apply IH.
Qed.

Lemma startswith_nil_r (k : text) : startswith k [] = true -> k = [].
Proof. destruct k; simpl; congruence. Qed.

Lemma contains_here (k s : text) :
  contains k s = false -> startswith k s = false.
Proof.
  destruct s; simpl; intros H; apply orb_false_iff in H; tauto.
Qed.

Lemma contains_tail (k : text) (c : ascii) (s : text) :
  contains k (c :: s) = false -> contains k s = false.
Proof. simpl. intros H. apply orb_false_iff in H. tauto. Qed.

Lemma startswith_cons_tail (c : ascii) (k s : text) :
  startswith (c :: k) s = true -> contains k (tl s) = true.
Proof.
  destruct s as [|b s]; simpl; [discriminate|].
  intros H. apply andb_true_iff in H as [_ H].
  destruct s; simpl in *; rewrite H; reflexivity.
Qed.

Lemma contains_skip (k : text) (c : ascii) (s : text) :
  contains k s = true -> contains k (c :: s) = true.
Proof.
  intros H. simpl. rewrite H. apply orb_true_r.
Qed.

(** A text that holds [c :: k] somewhere holds [k]. *)
Lemma contains_cons (c : ascii) (k s : text) :
  contains k s = false -> contains (c :: k) s = false.
Proof.
  induction s as [|b s IH]; intros H.
  - reflexivity.
  - change (contains (c :: k) (b :: s))
      with (startswith (c :: k) (b :: s) || contains (c :: k) s).
    rewrite (IH (contains_tail _ _ _ H)), orb_false_r.
    destruct (startswith (c :: k) (b :: s)) eqn:E; [|reflexivity].
    apply startswith_cons_tail in E. simpl tl in E.
    rewrite (contains_tail _ _ _ H) in E. discriminate.
Qed.

(** ** The matcher *)

Lemma match_here_startswith (p : Re.pattern) (prev : option ascii)
    (s : text) :
  Re.match_here p prev s = true -> startswith (Re.literal p) s = true.
Proof.
  destruct p as [k|k]; simpl; [easy|].
  intros H. apply andb_true_iff in H as [H _].
  apply andb_true_iff in H as [H _]. exact H.
Qed.

(** Where the literal does not occur, the scan copies the text. *)
Lemma scan_absent (p : Re.pattern) (repl : text) (s : text) :
  contains (Re.literal p) s = false ->
  forall prev pos, Re.scan p repl 0 prev pos s = (s, []).
Proof.
  induction s as [|c s IH]; intros H prev pos.
  - simpl. destruct (Re.match_here p prev []) eqn:E; [|reflexivity].
    apply match_here_startswith in E.
    rewrite (contains_here _ _ H) in E. discriminate.
  - simpl. destruct (Re.match_here p prev (c :: s)) eqn:E.
    + apply match_here_startswith in E.
      rewrite (contains_here _ _ H) in E. discriminate.
    + now rewrite (IH (contains_tail _ _ _ H)).
Qed.

Lemma subn_literal_absent (p : Re.pattern) (repl s : text) :
  contains (Re.literal p) s = false -> Re.subn_literal p repl s = (s, 0).
Proof.
  intros H. unfold Re.subn_literal, Re.scan_n. now rewrite scan_absent.
Qed.

Lemma finditer_absent (p : Re.pattern) (s : text) :
  contains (Re.literal p) s = false -> Re.finditer p s = [].
Proof.
  intros H. unfold Re.finditer. now rewrite scan_absent.
Qed.

Lemma char_before_cons (prev : option ascii) (c : ascii) (s : text)
    (j : nat) :
  Re.char_before prev (c :: s) (S j) = Re.char_before (Some c) s j.
Proof. destruct j; reflexivity. Qed.

(** Every offset the scan reports is one where the pattern matches. *)
Lemma scan_matches (p : Re.pattern) (repl : text) (s : text) :
  forall skip prev pos out ms,
    Re.scan p repl skip prev pos s = (out, ms) ->
    forall m, In m ms ->
      pos + skip <= m <= pos + length s /\
      Re.match_here p (Re.char_before prev s (m - pos)) (skipn (m - pos) s)
      = true.
Proof.
  induction s as [|c s IH]; intros skip prev pos out ms Hscan m Hm.
  - simpl in Hscan. destruct skip.
    + destruct (Re.match_here p prev []) eqn:E; inversion Hscan; subst.
      * destruct Hm as [<-|[]]. rewrite Nat.sub_diag. simpl. split; [lia|].
        exact E.
      * destruct Hm.
    + inversion Hscan; subst. destruct Hm.
  - assert (Hstep : forall k out' ms',
              Re.scan p repl k (Some c) (S pos) s = (out', ms') ->
              In m ms' ->
              pos + S k <= m <= pos + length (c :: s) /\
              Re.match_here p (Re.char_before prev (c :: s) (m - pos))
                (skipn (m - pos) (c :: s)) = true).
    { intros k out' ms' Hk Hin.
      destruct (IH _ _ _ _ _ Hk m Hin) as [Hb Hmatch].
      replace (m - pos) with (S (m - S pos)) by lia.
      rewrite char_before_cons. simpl skipn. simpl length. split; [lia|].
      exact Hmatch. }
    simpl in Hscan. destruct skip as [|k].
    + destruct (Re.match_here p prev (c :: s)) eqn:E.
      * destruct (length (Re.literal p)) as [|k] eqn:El.
        -- destruct (Re.scan p repl 0 (Some c) (S pos) s) as [out' ms'] eqn:Es.
           inversion Hscan; subst. destruct Hm as [<-|Hm].
           ++ rewrite Nat.sub_diag. simpl. split; [lia|exact E].
           ++ destruct (Hstep _ _ _ Es Hm). split; [lia|assumption].
        -- destruct (Re.scan p repl k (Some c) (S pos) s) as [out' ms'] eqn:Es.
           inversion Hscan; subst. destruct Hm as [<-|Hm].
           ++ rewrite Nat.sub_diag. simpl. split; [lia|exact E].
           ++ destruct (Hstep _ _ _ Es Hm). split; [lia|assumption].
      * destruct (Re.scan p repl 0 (Some c) (S pos) s) as [out' ms'] eqn:Es.
        inversion Hscan; subst.
        destruct (Hstep _ _ _ Es Hm). split; [lia|assumption].
    + exact (Hstep _ _ _ Hscan Hm).
Qed.

Lemma finditer_matches (p : Re.pattern) (s : text) (m : nat) :
  In m (Re.finditer p s) ->
  m <= length s /\
  Re.match_here p (Re.char_before None s m) (skipn m s) = true.
Proof.
  unfold Re.finditer. intros H.
  destruct (Re.scan p [] 0 None 0 s) as [out ms] eqn:E.
  destruct (scan_matches _ _ _ _ _ _ _ _ E m H) as [Hb Hm].
  rewrite Nat.sub_0_r in Hm. split; [lia|exact Hm].
Qed.

(** The offsets do not depend on the replacement. *)
Lemma scan_offsets (p : Re.pattern) (repl repl' : text) (s : text) :
  forall skip prev pos,
    snd (Re.scan p repl skip prev pos s)
    = snd (Re.scan p repl' skip prev pos s).
Proof.
  induction s as [|c s IH]; intros skip prev pos; simpl.
  - destruct skip; [|reflexivity].
    destruct (Re.match_here p prev []); reflexivity.
  - destruct skip as [|k]; [|apply IH].
    destruct (Re.match_here p prev (c :: s)).
    + destruct (length (Re.literal p)) as [|k].
      * specialize (IH 0 (Some c) (S pos)).
        destruct (Re.scan p repl 0 (Some c) (S pos) s),
                 (Re.scan p repl' 0 (Some c) (S pos) s).
        simpl in *. congruence.
      * specialize (IH k (Some c) (S pos)).
        destruct (Re.scan p repl k (Some c) (S pos) s),
                 (Re.scan p repl' k (Some c) (S pos) s).
        simpl in *. congruence.
    + specialize (IH 0 (Some c) (S pos)).
      destruct (Re.scan p repl 0 (Some c) (S pos) s),
               (Re.scan p repl' 0 (Some c) (S pos) s).
      simpl in *. congruence.
Qed.

Lemma subn_literal_finditer (p : Re.pattern) (repl s : text) :
  snd (Re.subn_literal p repl s) = length (Re.finditer p s).
Proof.
  unfold Re.subn_literal, Re.scan_n, Re.finditer.
  rewrite (scan_offsets p [] repl s 0 None 0).
  destruct (Re.scan p repl 0 None 0 s). reflexivity.
Qed.

Lemma replace_at_cons (len : nat) (repl : text) (ms : list nat) (pos : nat)
    (c : ascii) (s : text) :
  (forall m, In m ms -> S pos <= m) ->
  Re.replace_at len repl ms pos (c :: s)
  = c :: Re.replace_at len repl ms (S pos) s.
Proof.
  destruct ms as [|m ms]; intros H; [reflexivity|].
  assert (S pos <= m) by (apply H; now left).
  simpl Re.replace_at.
  replace (m - pos) with (S (m - S pos)) by lia. reflexivity.
Qed.

Lemma startswith_length (k s : text) :
  startswith k s = true -> length k <= length s.
Proof.
  revert s. induction k as [|a k IH]; intros [|b s]; simpl; try easy; try lia.
  intros H. apply andb_true_iff in H as [_ H]. apply IH in H. lia.
Qed.

(** The text the scan returns is the input with each match replaced. *)
Lemma scan_replace_at (p : Re.pattern) (repl : text) (s : text) :
  forall skip prev pos out ms,
    skip <= length s ->
    Re.scan p repl skip prev pos s = (out, ms) ->
    out = Re.replace_at (length (Re.literal p)) repl ms (pos + skip)
            (skipn skip s).
Proof.
  induction s as [|c s IH]; intros skip prev pos out ms Hle Hscan.
  - simpl in Hle. assert (skip = 0) by lia. subst skip. simpl in Hscan.
    destruct (Re.match_here p prev []) eqn:E; inversion Hscan; subst.
    + simpl. rewrite Nat.add_0_r, Nat.sub_diag. simpl.
      apply match_here_startswith, startswith_nil_r in E. rewrite E. simpl.
      now rewrite app_nil_r.
    + reflexivity.
  - simpl in Hscan. destruct skip as [|k].
    + rewrite Nat.add_0_r. simpl skipn.
      destruct (Re.match_here p prev (c :: s)) eqn:E.
      * pose proof (startswith_length _ _ (match_here_startswith _ _ _ E))
          as Hlen.
        destruct (length (Re.literal p)) as [|k] eqn:El.
        -- destruct (Re.scan p repl 0 (Some c) (S pos) s) as [out' ms'] eqn:Es.
           inversion Hscan; subst. simpl Re.replace_at.
           rewrite Nat.sub_diag, Nat.add_0_r. simpl. f_equal.
           rewrite replace_at_cons.
           ++ f_equal. apply IH in Es; [|lia].
              rewrite Nat.add_0_r in Es. exact Es.
           ++ intros m Hm. destruct (scan_matches _ _ _ _ _ _ _ _ Es m Hm). lia.
        -- destruct (Re.scan p repl k (Some c) (S pos) s) as [out' ms'] eqn:Es.
           inversion Hscan; subst. simpl Re.replace_at.
           rewrite Nat.sub_diag. simpl. f_equal.
           apply IH in Es; [|simpl in Hlen; lia].
           replace (pos + S k) with (S pos + k) by lia. exact Es.
      * destruct (Re.scan p repl 0 (Some c) (S pos) s) as [out' ms'] eqn:Es.
        inversion Hscan; subst. rewrite replace_at_cons.
        -- f_equal. apply IH in Es; [|lia].
           rewrite Nat.add_0_r in Es. exact Es.
        -- intros m Hm. destruct (scan_matches _ _ _ _ _ _ _ _ Es m Hm). lia.
    + simpl skipn. replace (pos + S k) with (S pos + k) by lia.
      apply IH with (prev := Some c); [simpl in Hle; lia|exact Hscan].
Qed.

Lemma subn_literal_replace_at (p : Re.pattern) (repl s : text) :
  fst (Re.subn_literal p repl s)
  = Re.replace_at (length (Re.literal p)) repl (Re.finditer p s) 0 s.
Proof.
  unfold Re.subn_literal, Re.scan_n, Re.finditer.
  rewrite (scan_offsets p [] repl s 0 None 0).
  destruct (Re.scan p repl 0 None 0 s) as [out ms] eqn:E. simpl.
  apply scan_replace_at in E; [exact E|lia].
Qed.

(** ** Tokens *)

Lemma run_split (s : text) : s = Re.word_run s ++ Re.after_run s.
Proof.
  induction s as [|c s IH]; simpl; [reflexivity|].
  destruct (Re.is_word_char c); simpl; [now f_equal|reflexivity].
Qed.

Lemma word_run_word (s : text) : forallb Re.is_word_char (Re.word_run s) = true.
Proof.
  induction s as [|c s IH]; simpl; [reflexivity|].
  destruct (Re.is_word_char c) eqn:E; simpl; [now rewrite E|reflexivity].
Qed.

Lemma after_run_sep (s : text) : Re.sep_head (Re.after_run s) = true.
Proof.
  induction s as [|c s IH]; simpl; [reflexivity|].
  destruct (Re.is_word_char c) eqn:E; [exact IH|].
  unfold Re.sep_head. simpl. now rewrite E.
Qed.

Lemma after_run_length (s : text) : length (Re.after_run s) <= length s.
Proof.
  induction s as [|c s IH]; simpl; [lia|].
  destruct (Re.is_word_char c); simpl; lia.
Qed.

(** Induction over a text token by token. *)
Lemma token_ind (P : text -> Prop) :
  P [] ->
  (forall c s, Re.is_word_char c = false -> P s -> P (c :: s)) ->
  (forall w rest, Re.identifier w = true -> Re.sep_head rest = true ->
                  P rest -> P (w ++ rest)) ->
  forall s, P s.
Proof.
  intros Hnil Hsep Hword s.
  remember (length s) as n eqn:Hn.
  revert s Hn. induction n as [n IH] using lt_wf_ind. intros s Hn.
  destruct s as [|c s]; [exact Hnil|].
  destruct (Re.is_word_char c) eqn:E.
  - rewrite (run_split (c :: s)). apply Hword.
    + simpl. rewrite E. simpl. rewrite E. simpl. apply word_run_word.
    + apply after_run_sep.
    + apply (IH (length (Re.after_run (c :: s)))); [|reflexivity].
      subst n. simpl. rewrite E. pose proof (after_run_length s). lia.
  - apply Hsep; [exact E|].
    apply (IH (length s)); [subst n; simpl; lia|reflexivity].
Qed.

Lemma tokens_sep_cons (c : ascii) (s : text) :
  Re.is_word_char c = false -> Re.tokens (c :: s) = [c] :: Re.tokens s.
Proof. intros E. simpl. now rewrite E. Qed.

Lemma tokens_word_cons (c : ascii) (s : text) :
  Re.is_word_char c = true ->
  Re.tokens (c :: s)
  = match Re.tokens s with
    | (d :: t) :: ts =>
        if Re.is_word_char d then (c :: d :: t) :: ts
        else [c] :: (d :: t) :: ts
    | ts => [c] :: ts
    end.
Proof. intros E. simpl. now rewrite E. Qed.

Lemma tokens_sep_head (s : text) :
  Re.sep_head s = true ->
  s = [] \/ exists d r, s = d :: r /\ Re.is_word_char d = false
                        /\ Re.tokens s = [d] :: Re.tokens r.
Proof.
  destruct s as [|d r]; [now left|]. unfold Re.sep_head. simpl.
  intros E. apply negb_true_iff in E. right. exists d, r.
  repeat split; [exact E|now apply tokens_sep_cons].
Qed.

Lemma identifier_cons (c : ascii) (w : text) :
  Re.identifier (c :: w) = true ->
  Re.is_word_char c = true /\ forallb Re.is_word_char w = true.
Proof. simpl. intros H. now apply andb_true_iff in H. Qed.

(** A word followed by a separator, or by nothing, is a token. *)
Lemma tokens_word_app (w rest : text) :
  Re.identifier w = true -> Re.sep_head rest = true ->
  Re.tokens (w ++ rest) = w :: Re.tokens rest.
Proof.
  intros Hw Hrest. destruct w as [|c w]; [discriminate|].
  apply identifier_cons in Hw as [Hc Hw].
  revert c Hc. induction w as [|c' w IH]; intros c Hc.
  - simpl. rewrite Hc.
    destruct (tokens_sep_head _ Hrest) as [->|(d & r & -> & Hd & Ht)].
    + reflexivity.
    + rewrite Ht, Hd. reflexivity.
  - simpl in Hw. apply andb_true_iff in Hw as [Hc' Hw].
    change ((c :: c' :: w) ++ rest) with (c :: ((c' :: w) ++ rest)).
    rewrite tokens_word_cons by exact Hc.
    rewrite (IH Hw c' Hc'). now rewrite Hc'.
Qed.

Lemma tokens_identifier (w : text) :
  Re.identifier w = true -> Re.tokens w = [w].
Proof.
  intros H. rewrite <- (app_nil_r w) at 1. now rewrite tokens_word_app.
Qed.

Lemma tokens_nil (s : text) : Re.tokens s = [] -> s = [].
Proof.
  destruct s as [|c s]; [reflexivity|]. simpl.
  destruct (Re.is_word_char c); [|discriminate].
  destruct (Re.tokens s) as [|[|d t] ts]; try discriminate.
  destruct (Re.is_word_char d); discriminate.
Qed.

Lemma tokens_app_sep (x y : text) :
  Re.sep_head y = true -> Re.tokens (x ++ y) = Re.tokens x ++ Re.tokens y.
Proof.
  intros Hy. induction x as [|c x IH]; [reflexivity|].
  change ((c :: x) ++ y) with (c :: (x ++ y)).
  destruct (Re.is_word_char c) eqn:Ec;
    [|rewrite !tokens_sep_cons by exact Ec; rewrite IH; reflexivity].
  rewrite !tokens_word_cons by exact Ec. rewrite IH.
  destruct (Re.tokens x) as [|t ts] eqn:Et.
  - simpl. destruct (tokens_sep_head _ Hy) as [->|(d & r & -> & Hd & Ht)].
    + reflexivity.
    + rewrite Ht, Hd. reflexivity.
  - simpl. destruct t as [|d t]; [reflexivity|].
    destruct (Re.is_word_char d); reflexivity.
Qed.

Lemma concat_tokens (s : text) : concat (Re.tokens s) = s.
Proof.
  induction s as [|c s IH]; [reflexivity|]. simpl.
  destruct (Re.is_word_char c).
  - destruct (Re.tokens s) as [|[|d t] ts]; simpl in *; try now f_equal.
    destruct (Re.is_word_char d); simpl; now f_equal.
  - simpl. now f_equal.
Qed.

(** ** The scan, token by token *)

Lemma scan_n_miss (p : Re.pattern) (repl : text) (prev : option ascii)
    (pos : nat) (c : ascii) (s : text) :
  Re.match_here p prev (c :: s) = false ->
  Re.scan_n p repl 0 prev pos (c :: s)
  = (c :: fst (Re.scan_n p repl 0 (Some c) (S pos) s),
     snd (Re.scan_n p repl 0 (Some c) (S pos) s)).
Proof.
  intros E. unfold Re.scan_n. simpl. rewrite E.
  destruct (Re.scan p repl 0 (Some c) (S pos) s). reflexivity.
Qed.

Lemma scan_n_hit (p : Re.pattern) (repl : text) (prev : option ascii)
    (pos : nat) (c : ascii) (s : text) (k : nat) :
  Re.match_here p prev (c :: s) = true ->
  length (Re.literal p) = S k ->
  Re.scan_n p repl 0 prev pos (c :: s)
  = (repl ++ fst (Re.scan_n p repl k (Some c) (S pos) s),
     S (snd (Re.scan_n p repl k (Some c) (S pos) s))).
Proof.
  intros E El. unfold Re.scan_n. simpl. rewrite E, El.
  destruct (Re.scan p repl k (Some c) (S pos) s). reflexivity.
Qed.

Lemma last_before_cons (prev : option ascii) (c : ascii) (x : text) :
  Re.last_before prev (c :: x) = Re.last_before (Some c) x.
Proof.
  unfold Re.last_before. destruct x as [|d x]; [reflexivity|].
  f_equal.
Qed.

(** Stepping over the rest of a match. *)
Lemma scan_n_skip (p : Re.pattern) (repl : text) (x rest : text) :
  forall prev pos,
    Re.scan_n p repl (length x) prev pos (x ++ rest)
    = Re.scan_n p repl 0 (Re.last_before prev x) (pos + length x) rest.
Proof.
  induction x as [|c x IH]; intros prev pos.
  - simpl. now rewrite Nat.add_0_r.
  - rewrite last_before_cons. simpl length.
    replace (pos + S (length x)) with (S pos + length x) by lia.
    rewrite <- IH. reflexivity.
Qed.

Lemma word_side_last_before (prev : option ascii) (x : text) :
  Re.word_side prev = true -> forallb Re.is_word_char x = true ->
  Re.word_side (Re.last_before prev x) = true.
Proof.
  revert prev. induction x as [|c x IH]; intros prev Hp Hx; [exact Hp|].
  rewrite last_before_cons. simpl in Hx.
  apply andb_true_iff in Hx as [Hc Hx]. now apply IH.
Qed.

Section WordRule.

Variable K : text.
Hypothesis K_identifier : Re.identifier K = true.
Variable repl : text.

Lemma word_rule_nil (prev : option ascii) (pos : nat) :
  Re.scan_n (Re.WordLit K) repl 0 prev pos [] = ([], 0).
Proof.
  unfold Re.scan_n. simpl. destruct K; [discriminate|reflexivity].
Qed.

(** No match starts at a character that is no word character ... *)
Lemma word_rule_sep (prev : option ascii) (c : ascii) (s : text) :
  Re.is_word_char c = false ->
  Re.match_here (Re.WordLit K) prev (c :: s) = false.
Proof.
  intros Hc. destruct K as [|a k]; [discriminate|].
  apply identifier_cons in K_identifier as [Ha _].
  simpl. destruct (Ascii.eqb a c) eqn:E; [|reflexivity].
  apply Ascii.eqb_eq in E. congruence.
Qed.

(** ... nor after a word character. *)
Lemma word_rule_inside (prev : option ascii) (s : text) :
  Re.word_side prev = true ->
  Re.match_here (Re.WordLit K) prev s = false.
Proof.
  intros Hp. destruct K as [|a k]; [discriminate|].
  apply identifier_cons in K_identifier as [Ha _].
  destruct s as [|c s]; [reflexivity|].
  simpl. destruct (Ascii.eqb a c) eqn:E; [|reflexivity].
  apply Ascii.eqb_eq in E. subst c.
  unfold Re.at_boundary at 1. simpl. rewrite Hp, Ha. simpl.
  now rewrite andb_false_r.
Qed.

Lemma word_rule_through (u rest : text) :
  forallb Re.is_word_char u = true ->
  forall prev pos,
    Re.word_side prev = true ->
    Re.scan_n (Re.WordLit K) repl 0 prev pos (u ++ rest)
    = (u ++ fst (Re.scan_n (Re.WordLit K) repl 0 (Re.last_before prev u)
                   (pos + length u) rest),
       snd (Re.scan_n (Re.WordLit K) repl 0 (Re.last_before prev u)
              (pos + length u) rest)).
Proof.
  induction u as [|c u IH]; intros Hu prev pos Hp.
  - simpl. rewrite Nat.add_0_r. now destruct (Re.scan_n _ _ _ _ _ _).
  - simpl in Hu. apply andb_true_iff in Hu as [Hc Hu].
    change ((c :: u) ++ rest) with (c :: (u ++ rest)).
    rewrite scan_n_miss by now apply word_rule_inside.
    rewrite (IH Hu (Some c) (S pos) Hc). rewrite last_before_cons.
    simpl length. replace (pos + S (length u)) with (S pos + length u) by lia.
    reflexivity.
Qed.

(** A word that starts with the key and ends where the key ends is the
    key. *)
Lemma word_is_key (k w rest : text) :
  forallb Re.is_word_char k = true ->
  forallb Re.is_word_char w = true ->
  Re.sep_head rest = true ->
  startswith k (w ++ rest) = true ->
  Re.word_side (hd_error (skipn (length k) (w ++ rest))) = false ->
  k = w.
Proof.
  revert w. induction k as [|a k IH]; intros [|c w] Hk Hw Hrest Hs Hb.
  - reflexivity.
  - simpl in Hw, Hb. apply andb_true_iff in Hw as [Hc _]. congruence.
  - simpl in Hk. apply andb_true_iff in Hk as [Ha _].
    destruct rest as [|d r]; [discriminate|]. simpl in Hs.
    apply andb_true_iff in Hs as [Had _]. apply Ascii.eqb_eq in Had.
    subst d. unfold Re.sep_head in Hrest. simpl in Hrest.
    rewrite Ha in Hrest. discriminate.
  - simpl in Hk, Hw, Hs, Hb.
    apply andb_true_iff in Hk as [_ Hk]. apply andb_true_iff in Hw as [_ Hw].
    apply andb_true_iff in Hs as [Hac Hs]. apply Ascii.eqb_eq in Hac.
    subst c. f_equal. now apply IH.
Qed.

Lemma last_word (a : ascii) (k : text) :
  forallb Re.is_word_char (a :: k) = true ->
  Re.is_word_char (last (a :: k) "000"%char) = true.
Proof.
  revert a. induction k as [|b k IH]; intros a H.
  - simpl in *. now apply andb_true_iff in H.
  - change (last (a :: b :: k) "000"%char) with (last (b :: k) "000"%char).
    apply IH. simpl in H. now apply andb_true_iff in H.
Qed.

Lemma skipn_app_length (x y : text) : skipn (length x) (x ++ y) = y.
Proof. induction x; simpl; auto. Qed.

(** At the start of a word the rule matches when the word is the key. *)
Lemma word_rule_start (prev : option ascii) (w rest : text) :
  Re.word_side prev = false ->
  Re.identifier w = true -> Re.sep_head rest = true ->
  Re.match_here (Re.WordLit K) prev (w ++ rest) = text_eqb w K.
Proof.
  intros Hp Hw Hrest.
  destruct (text_eqb w K) eqn:E.
  - apply text_eqb_eq in E. subst w. simpl.
    rewrite startswith_app, skipn_app_length. simpl.
    destruct K as [|a k] eqn:EK; [discriminate|].
    unfold Re.at_boundary. simpl hd_error. simpl Re.last_before.
    rewrite Hp. simpl Re.word_side at 1.
    apply identifier_cons in Hw as Hw'. destruct Hw' as [Ha _].
    rewrite Ha. simpl.
    change (match k with [] => a | _ :: _ => last k "000"%char end)
      with (last (a :: k) "000"%char).
    rewrite last_word by exact Hw.
    unfold Re.sep_head in Hrest. apply negb_true_iff in Hrest.
    now rewrite Hrest.
  - apply text_eqb_neq in E.
    destruct (Re.match_here (Re.WordLit K) prev (w ++ rest)) eqn:M;
      [|reflexivity].
    exfalso. apply E. symmetry. simpl in M.
    apply andb_true_iff in M as [M Hr]. apply andb_true_iff in M as [Hs _].
    destruct K as [|a k] eqn:EK; [discriminate|].
    apply (word_is_key (a :: k) w rest).
    + exact K_identifier.
    + destruct w; [discriminate|exact Hw].
    + exact Hrest.
    + exact Hs.
    + unfold Re.at_boundary in Hr. simpl Re.last_before in Hr.
      simpl Re.word_side at 1 in Hr.
      change (match k with [] => a | _ :: _ => last k "000"%char end)
        with (last (a :: k) "000"%char) in Hr.
      rewrite last_word in Hr by exact K_identifier.
      simpl in Hr. now apply negb_true_iff in Hr.
Qed.

Lemma rename_token_sep (c : ascii) (s : text) :
  Re.is_word_char c = false ->
  Re.rename_token K repl (c :: s) = c :: Re.rename_token K repl s.
Proof.
  intros Hc. unfold Re.rename_token. rewrite tokens_sep_cons by exact Hc.
  simpl. destruct (text_eqb [c] K) eqn:E; [|reflexivity].
  apply text_eqb_eq in E. subst K. simpl in K_identifier.
  rewrite Hc in K_identifier. discriminate.
Qed.

Lemma count_token_sep (c : ascii) (s : text) :
  Re.is_word_char c = false ->
  Re.count_token K (c :: s) = Re.count_token K s.
Proof.
  intros Hc. unfold Re.count_token. rewrite tokens_sep_cons by exact Hc.
  apply count_occ_cons_neq. intros E. subst K. simpl in K_identifier.
  rewrite Hc in K_identifier. discriminate.
Qed.

Lemma rename_token_word (w rest : text) :
  Re.identifier w = true -> Re.sep_head rest = true ->
  Re.rename_token K repl (w ++ rest)
  = (if text_eqb w K then repl else w) ++ Re.rename_token K repl rest.
Proof.
  intros Hw Hrest. unfold Re.rename_token.
  now rewrite tokens_word_app.
Qed.

Lemma count_token_word (w rest : text) :
  Re.identifier w = true -> Re.sep_head rest = true ->
  Re.count_token K (w ++ rest)
  = (if text_eqb w K then 1 else 0) + Re.count_token K rest.
Proof.
  intros Hw Hrest. unfold Re.count_token.
  rewrite tokens_word_app by assumption.
  destruct (text_eqb w K) eqn:E.
  - apply text_eqb_eq in E. now apply count_occ_cons_eq.
  - apply text_eqb_neq in E. now apply count_occ_cons_neq.
Qed.

(** The whole-token rule rewrites the tokens equal to its key, and counts
    them. *)
Lemma word_rule_tokens (s : text) :
  forall prev pos,
    Re.word_side prev = false \/ Re.sep_head s = true ->
    Re.scan_n (Re.WordLit K) repl 0 prev pos s
    = (Re.rename_token K repl s, Re.count_token K s).
Proof.
  induction s as [|c s Hc IH|w rest Hw Hrest IH] using token_ind;
    intros prev pos Hprev.
  - apply word_rule_nil.
  - rewrite scan_n_miss by now apply word_rule_sep.
    rewrite IH by (left; simpl; exact Hc).
    now rewrite rename_token_sep, count_token_sep.
  - destruct Hprev as [Hp|Hs].
    2:{ destruct w as [|c w]; [discriminate|].
        apply identifier_cons in Hw as [Hc _].
        unfold Re.sep_head in Hs. simpl in Hs. rewrite Hc in Hs.
        discriminate. }
    pose proof (word_rule_start prev w rest Hp Hw Hrest) as M.
    rewrite rename_token_word, count_token_word by assumption.
    destruct w as [|c w]; [discriminate|].
    apply identifier_cons in Hw as Hw'. destruct Hw' as [Hc Hw'].
    change ((c :: w) ++ rest) with (c :: (w ++ rest)) in *.
    destruct (text_eqb (c :: w) K) eqn:E.
    + apply text_eqb_eq in E.
      rewrite (scan_n_hit _ _ _ _ _ _ (length w) M)
        by (simpl; now rewrite <- E).
      rewrite scan_n_skip.
      rewrite IH by now right. reflexivity.
    + rewrite scan_n_miss by exact M.
      rewrite word_rule_through by assumption.
      rewrite IH by now right. reflexivity.
Qed.

End WordRule.

(** [re.subn] of a whole-token rule whose key is an identifier. *)
Lemma subn_word_tokens (old new s : text) :
  Re.identifier old = true ->
  Re.subn_literal (Re.WordLit old) new s
  = (Re.rename_token old new s, Re.count_token old s).
Proof.
  intros H. unfold Re.subn_literal. apply word_rule_tokens; [exact H|].
  now left.
Qed.

Lemma finditer_word_tokens (k s : text) :
  Re.identifier k = true ->
  length (Re.finditer (Re.WordLit k) s) = Re.count_token k s.
Proof.
  intros H. rewrite <- subn_literal_finditer with (repl := []).
  now rewrite subn_word_tokens.
Qed.

(** ** Files *)

Lemma fs_lookup_store (files : fs) (path : text) (data : bytes) :
  fs_lookup (fs_store files path data) path = Some (File data).
Proof.
  induction files as [|[p n] rest IH]; simpl.
  - now rewrite text_eqb_refl.
  - destruct (text_eqb p path) eqn:E; simpl; rewrite E; [reflexivity|exact IH].
Qed.

Lemma fs_lookup_store_other (files : fs) (path other : text) (data : bytes) :
  other <> path ->
  fs_lookup (fs_store files path data) other = fs_lookup files other.
Proof.
  intros Hne. induction files as [|[p n] rest IH]; simpl.
  - destruct (text_eqb path other) eqn:E; [|reflexivity].
    apply text_eqb_eq in E. congruence.
  - destruct (text_eqb p path) eqn:E; simpl.
    + apply text_eqb_eq in E. subst p.
      destruct (text_eqb path other) eqn:E'; [|reflexivity].
      apply text_eqb_eq in E'. congruence.
    + now rewrite IH.
Qed.

(** ** The passes *)

Section PassFacts.

Variable md5_state : Type.
Variable md5_new : md5_state.
Variable md5_update : md5_state -> bytes -> md5_state.
Variable md5_hexdigest : md5_state -> text.
Variable linesep : text.

Local Abbreviation digest := (file_digest md5_new md5_update md5_hexdigest).
Local Abbreviation hash_of :=
  (calculate_file_hash md5_new md5_update md5_hexdigest).
Local Abbreviation finish_pass :=
  (write_back md5_new md5_update md5_hexdigest linesep).
Local Abbreviation stored := (written linesep).

Lemma read_bytes_file (w : world) (path : text) (data : bytes) :
  fs_lookup (files w) path = Some (File data) ->
  read_bytes path w = (Return data, w).
Proof. intros H. unfold read_bytes. now rewrite H. Qed.

Lemma calculate_file_hash_file (w : world) (path : text) (data : bytes) :
  fs_lookup (files w) path = Some (File data) ->
  hash_of path w = (Return (digest data), w).
Proof.
  intros H. unfold calculate_file_hash, bind.
  now rewrite (read_bytes_file _ _ _ H).
Qed.

Lemma read_text_file (w : world) (path : text) (data : bytes) :
  fs_lookup (files w) path = Some (File data) ->
  read_text path w
  = (Return (universal_newlines (decode_latin1 data)), w).
Proof.
  intros H. unfold read_text, bind. now rewrite (read_bytes_file _ _ _ H).
Qed.

(** The loop, for a table of literal templates. *)
Lemma substitute_run (pat : text -> Re.pattern) (repl : text -> text)
    (msg : nat -> text -> text -> text) (table : mapping) :
  literal_table repl table = true ->
  forall content count w,
    substitute pat repl msg table content count w
    = (Return (rewritten pat repl table content count),
       World (files w)
             (console w ++ rewrite_log pat repl msg table content)).
Proof.
  induction table as [|[old new] rest IH]; intros Hlit content count w.
  - simpl. unfold ret. rewrite app_nil_r. now destruct w.
  - simpl in Hlit. apply andb_true_iff in Hlit as [Hnew Hrest].
    simpl. unfold bind at 1, re_subn, Re.subn. rewrite Hnew. unfold ret at 1.
    destruct (Re.subn_literal (pat old) (repl new) content) as [c' n].
    unfold bind at 1.
    destruct (0 <? n); unfold log_v, emit, ret; rewrite (IH Hrest); simpl.
    + now rewrite <- app_assoc.
    + reflexivity.
Qed.

(** The tail of a pass, for a file that is there. *)
Lemma write_back_run (w : world) (path : text) (data : bytes)
    (original_hash original modified notice : text) :
  fs_lookup (files w) path = Some (File data) ->
  finish_pass path original_hash original modified notice w
  = if text_eqb modified original then (Return false, w)
    else
      let files' := fs_store (files w) path (stored modified) in
      if text_eqb original_hash (digest (stored modified))
      then (Return false, World files' (console w))
      else (Return true,
            World files' (console w ++ [Out Stdout (notice ++ [LF])])).
Proof.
  intros H. unfold write_back.
  destruct (text_eqb modified original); [reflexivity|].
  unfold bind at 1, write_text. rewrite H. unfold bind at 1.
  rewrite (calculate_file_hash_file _ path (stored modified))
    by apply fs_lookup_store.
  destruct (text_eqb original_hash (digest (stored modified)));
    reflexivity.
Qed.

Lemma write_back_settle (w : world) (path : text) (data : bytes)
    (original modified notice : text) :
  fs_lookup (files w) path = Some (File data) ->
  finish_pass path (digest data) original modified notice w
  = (Return (fst (settle md5_new md5_update md5_hexdigest linesep
                    path data original modified notice w)),
     snd (settle md5_new md5_update md5_hexdigest linesep
            path data original modified notice w)).
Proof.
  intros H. rewrite (write_back_run _ _ data) by exact H. unfold settle.
  destruct (text_eqb modified original); [reflexivity|]. simpl.
  destruct (text_eqb (digest data) (digest (stored modified))); reflexivity.
Qed.

Lemma report_removals_run (removal : mapping) (content : text) (w : world) :
  report_removals removal content w
  = (Return tt,
     World (files w) (console w ++ removal_notices removal content)).
Proof.
  revert w. induction removal as [|[old new] rest IH]; intros w.
  - simpl. unfold ret. rewrite app_nil_r. now destruct w.
  - simpl. unfold bind.
    destruct (Re.search (Re.WordLit old) content).
    + match goal with
      | |- context [contains ?dot new] => destruct (contains dot new)
      end; unfold print, emit; rewrite IH; simpl; now rewrite <- app_assoc.
    + unfold ret. now rewrite IH.
Qed.

Local Abbreviation settled :=
  (settle md5_new md5_update md5_hexdigest linesep).

(** The three passes on a file that is there, for literal templates. *)
Lemma replace_enums_run (w : world) (path : text) (data : bytes)
    (enum_mapping : mapping) :
  fs_lookup (files w) path = Some (File data) ->
  literal_table (fun new_const => new_const) enum_mapping = true ->
  let content := universal_newlines (decode_latin1 data) in
  let r := rewritten Re.Lit (fun new_const => new_const) enum_mapping
             content 0 in
  let s := settled path data content (fst r)
             (fmt_4d (snd r) ++ " changes written to: " ++ path)
             (World (files w)
                (console w
                 ++ rewrite_log Re.Lit (fun new_const => new_const) enum_msg
                      enum_mapping content)) in
  replace_enums md5_new md5_update md5_hexdigest linesep path enum_mapping w
  = (Return (snd r, fst s), snd s).
Proof.
  intros H Hlit content r s. unfold replace_enums. unfold bind at 1.
  rewrite (calculate_file_hash_file _ _ _ H). unfold bind at 1.
  rewrite (read_text_file _ _ _ H). unfold bind at 1.
  rewrite substitute_run by exact Hlit. fold content. fold r.
  destruct r as [modified n] eqn:Er. unfold bind at 1.
  rewrite (write_back_settle _ _ data) by exact H.
  reflexivity.
Qed.

Lemma replace_inputs_run (w : world) (path : text) (data : bytes)
    (input_mapping : mapping) :
  fs_lookup (files w) path = Some (File data) ->
  literal_table input_replacement input_mapping = true ->
  let content := universal_newlines (decode_latin1 data) in
  let r := rewritten input_pattern input_replacement input_mapping
             content 0 in
  let s := settled path data content (fst r)
             (fmt_4d (snd r) ++ " change(s) written to: " ++ path)
             (World (files w)
                (console w
                 ++ rewrite_log input_pattern input_replacement input_msg
                      input_mapping content)) in
  replace_inputs md5_new md5_update md5_hexdigest linesep path input_mapping w
  = (Return (snd r, fst s), snd s).
Proof.
  intros H Hlit content r s. unfold replace_inputs. unfold bind at 1.
  rewrite (calculate_file_hash_file _ _ _ H). unfold bind at 1.
  rewrite (read_text_file _ _ _ H). unfold bind at 1.
  rewrite substitute_run by exact Hlit. fold content. fold r.
  destruct r as [modified n] eqn:Er. unfold bind at 1.
  rewrite (write_back_settle _ _ data) by exact H.
  reflexivity.
Qed.

Lemma replace_fbs_and_types_run (w : world) (path : text) (data : bytes)
    (fb_mapping type_mapping fb_removal_mapping : mapping) :
  fs_lookup (files w) path = Some (File data) ->
  literal_table (fun new_fb => new_fb) fb_mapping = true ->
  literal_table (fun new_type => new_type) type_mapping = true ->
  let content := universal_newlines (decode_latin1 data) in
  let r1 := rewritten Re.WordLit (fun new_fb => new_fb) fb_mapping
              content 0 in
  let r2 := rewritten Re.WordLit (fun new_type => new_type) type_mapping
              (fst r1) 0 in
  let s := settled path data content (fst r2)
             (fmt_4d (snd r1 + snd r2) ++ " change(s) written to: " ++ path)
             (World (files w)
                (((console w
                   ++ rewrite_log Re.WordLit (fun new_fb => new_fb) fb_msg
                        fb_mapping content)
                  ++ removal_notices fb_removal_mapping (fst r1))
                 ++ rewrite_log Re.WordLit (fun new_type => new_type)
                      type_msg type_mapping (fst r1))) in
  replace_fbs_and_types md5_new md5_update md5_hexdigest linesep path
    fb_mapping type_mapping fb_removal_mapping w
  = (Return (snd r1, snd r2, fst s), snd s).
Proof.
  intros H Hfb Hty content r1 r2 s. unfold replace_fbs_and_types.
  unfold bind at 1. rewrite (calculate_file_hash_file _ _ _ H).
  unfold bind at 1. rewrite (read_text_file _ _ _ H). unfold bind at 1.
  rewrite substitute_run by exact Hfb. fold content. fold r1.
  destruct r1 as [content1 n1] eqn:Er1. unfold bind at 1.
  rewrite report_removals_run. unfold bind at 1.
  rewrite substitute_run by exact Hty. simpl files. simpl console.
  simpl fst in r2. fold r2.
  destruct r2 as [modified n2] eqn:Er2. unfold bind at 1.
  rewrite (write_back_settle _ _ data) by exact H.
  reflexivity.
Qed.

End PassFacts.

(** ** A table none of whose keys occurs *)

Lemma rewritten_absent (pat : text -> Re.pattern) (repl : text -> text)
    (msg : nat -> text -> text -> text) (table : mapping) (content : text) :
  (forall old, Re.literal (pat old) = old
               \/ Re.literal (pat old) = "."%char :: old) ->
  no_key_occurs table content = true ->
  forall count,
    rewritten pat repl table content count = (content, count)
    /\ rewrite_log pat repl msg table content = [].
Proof.
  intros Hpat. induction table as [|[old new] rest IH]; intros Habs count.
  - now split.
  - simpl in Habs. apply andb_true_iff in Habs as [Hold Hrest].
    apply negb_true_iff in Hold.
    assert (Hlit : contains (Re.literal (pat old)) content = false).
    { destruct (Hpat old) as [->| ->]; [exact Hold|].
      now apply contains_cons. }
    simpl. rewrite (subn_literal_absent _ _ _ Hlit). simpl.
    rewrite Nat.add_0_r. now apply IH.
Qed.

Lemma removal_notices_absent (table : mapping) (content : text) :
  no_key_occurs table content = true -> removal_notices table content = [].
Proof.
  induction table as [|[old new] rest IH]; intros Habs; [reflexivity|].
  simpl in Habs. apply andb_true_iff in Habs as [Hold Hrest].
  apply negb_true_iff in Hold. simpl. unfold Re.search.
  rewrite (finditer_absent (Re.WordLit old)) by exact Hold.
  now apply IH.
Qed.

Lemma world_console_nil (w : world) : World (files w) (console w ++ []) = w.
Proof. destruct w. simpl. now rewrite app_nil_r. Qed.

Section PassClaims.

Variable md5_state : Type.
Variable md5_new : md5_state.
Variable md5_update : md5_state -> bytes -> md5_state.
Variable md5_hexdigest : md5_state -> text.
Variable linesep : text.

Local Abbreviation digest := (file_digest md5_new md5_update md5_hexdigest).
Local Abbreviation stored := (written linesep).

(** C3.  A pass over a file in whose text no key of the supplied tables
    occurs returns a count of 0 with changed = False, and leaves the world as
    it found it: nothing is written to the file (or anywhere else), nothing
    is printed. *)
Theorem pass_without_occurrence_is_noop (w : world) (path : text)
    (data : bytes) :
  fs_lookup (files w) path = Some (File data) ->
  let content := universal_newlines (decode_latin1 data) in
  (forall enum_mapping,
      literal_table (fun new_const => new_const) enum_mapping = true ->
      no_key_occurs enum_mapping content = true ->
      replace_enums md5_new md5_update md5_hexdigest linesep
        path enum_mapping w
      = (Return (0, false), w))
  /\ (forall input_mapping,
      literal_table input_replacement input_mapping = true ->
      no_key_occurs input_mapping content = true ->
      replace_inputs md5_new md5_update md5_hexdigest linesep
        path input_mapping w
      = (Return (0, false), w))
  /\ (forall fb_mapping type_mapping fb_removal_mapping,
      literal_table (fun new_fb => new_fb) fb_mapping = true ->
      literal_table (fun new_type => new_type) type_mapping = true ->
      no_key_occurs fb_mapping content = true ->
      no_key_occurs type_mapping content = true ->
      no_key_occurs fb_removal_mapping content = true ->
      replace_fbs_and_types md5_new md5_update md5_hexdigest linesep
        path fb_mapping type_mapping fb_removal_mapping w
      = (Return (0, 0, false), w)).
Proof.
  intros H content. repeat split.
  - intros table Hlit Habs.
    rewrite (replace_enums_run _ _ _ _ _ _ _ data) by assumption.
    fold content.
    destruct (rewritten_absent Re.Lit (fun x => x) enum_msg table content)
      with (count := 0) as [-> ->]; [now left|exact Habs|].
    simpl fst. simpl snd. unfold settle. rewrite text_eqb_refl. simpl.
    now rewrite world_console_nil.
  - intros table Hlit Habs.
    rewrite (replace_inputs_run _ _ _ _ _ _ _ data) by assumption.
    fold content.
    destruct (rewritten_absent input_pattern input_replacement input_msg
                table content)
      with (count := 0) as [-> ->]; [now right|exact Habs|].
    simpl fst. simpl snd. unfold settle. rewrite text_eqb_refl. simpl.
    now rewrite world_console_nil.
  - intros fb ty rem Hfb Hty Afb Aty Arem.
    rewrite (replace_fbs_and_types_run _ _ _ _ _ _ _ data) by assumption.
    fold content.
    destruct (rewritten_absent Re.WordLit (fun x => x) fb_msg fb content)
      with (count := 0) as [-> ->]; [now left|exact Afb|].
    simpl fst. simpl snd.
    destruct (rewritten_absent Re.WordLit (fun x => x) type_msg ty content)
      with (count := 0) as [-> ->]; [now left|exact Aty|].
    rewrite removal_notices_absent by exact Arem.
    simpl fst. simpl snd. unfold settle. rewrite text_eqb_refl. simpl.
    rewrite !app_nil_r. now destruct w.
Qed.

(** C2.  When the text a pass arrives at differs from the text read, the
    pass writes it back and takes the digest of the file anew; if that digest
    is the one taken before the write, the pass returns changed = False
    together with the count it accumulated (the file holds the new bytes,
    no "written" line is printed). *)
Theorem pass_reports_unchanged_on_equal_digest (w : world) (path : text)
    (data : bytes) :
  fs_lookup (files w) path = Some (File data) ->
  let content := universal_newlines (decode_latin1 data) in
  (forall enum_mapping,
      literal_table (fun new_const => new_const) enum_mapping = true ->
      let r := rewritten Re.Lit (fun new_const => new_const) enum_mapping
                 content 0 in
      fst r <> content ->
      digest (stored (fst r)) = digest data ->
      replace_enums md5_new md5_update md5_hexdigest linesep
        path enum_mapping w
      = (Return (snd r, false),
         World (fs_store (files w) path (stored (fst r)))
               (console w
                ++ rewrite_log Re.Lit (fun new_const => new_const) enum_msg
                     enum_mapping content)))
  /\ (forall input_mapping,
      literal_table input_replacement input_mapping = true ->
      let r := rewritten input_pattern input_replacement input_mapping
                 content 0 in
      fst r <> content ->
      digest (stored (fst r)) = digest data ->
      replace_inputs md5_new md5_update md5_hexdigest linesep
        path input_mapping w
      = (Return (snd r, false),
         World (fs_store (files w) path (stored (fst r)))
               (console w
                ++ rewrite_log input_pattern input_replacement input_msg
                     input_mapping content)))
  /\ (forall fb_mapping type_mapping fb_removal_mapping,
      literal_table (fun new_fb => new_fb) fb_mapping = true ->
      literal_table (fun new_type => new_type) type_mapping = true ->
      let r1 := rewritten Re.WordLit (fun new_fb => new_fb) fb_mapping
                  content 0 in
      let r2 := rewritten Re.WordLit (fun new_type => new_type) type_mapping
                  (fst r1) 0 in
      fst r2 <> content ->
      digest (stored (fst r2)) = digest data ->
      replace_fbs_and_types md5_new md5_update md5_hexdigest linesep
        path fb_mapping type_mapping fb_removal_mapping w
      = (Return (snd r1, snd r2, false),
         World (fs_store (files w) path (stored (fst r2)))
               (((console w
                  ++ rewrite_log Re.WordLit (fun new_fb => new_fb) fb_msg
                       fb_mapping content)
                 ++ removal_notices fb_removal_mapping (fst r1))
                ++ rewrite_log Re.WordLit (fun new_type => new_type)
                     type_msg type_mapping (fst r1)))).
Proof.
  intros H content. repeat split.
  - intros table Hlit r Hne Hd.
    rewrite (replace_enums_run _ _ _ _ _ _ _ data) by assumption.
    fold content. fold r. unfold settle.
    apply text_eqb_neq in Hne. rewrite Hne, Hd, text_eqb_refl. reflexivity.
  - intros table Hlit r Hne Hd.
    rewrite (replace_inputs_run _ _ _ _ _ _ _ data) by assumption.
    fold content. fold r. unfold settle.
    apply text_eqb_neq in Hne. rewrite Hne, Hd, text_eqb_refl. reflexivity.
  - intros fb ty rem Hfb Hty r1 r2 Hne Hd.
    rewrite (replace_fbs_and_types_run _ _ _ _ _ _ _ data) by assumption.
    fold content. fold r1. fold r2. unfold settle.
    apply text_eqb_neq in Hne. rewrite Hne, Hd, text_eqb_refl. reflexivity.
Qed.

End PassClaims.

Lemma pass_without_occurrence_is_noop_witness :
  replace_enums Sample.plain_new Sample.plain_update Sample.plain_hexdigest
    Sample.posix_linesep "Cyclic.st" enum_mapping Sample.untouched
  = (Return (0, false), Sample.untouched)
  /\ replace_inputs Sample.plain_new Sample.plain_update
       Sample.plain_hexdigest Sample.posix_linesep "Cyclic.st" input_mapping
       Sample.untouched
     = (Return (0, false), Sample.untouched)
  /\ replace_fbs_and_types Sample.plain_new Sample.plain_update
       Sample.plain_hexdigest Sample.posix_linesep "Cyclic.st" fb_mapping
       type_mapping fb_removal_mapping Sample.untouched
     = (Return (0, 0, false), Sample.untouched).
Proof.
  destruct (pass_without_occurrence_is_noop
              bytes Sample.plain_new Sample.plain_update Sample.plain_hexdigest
              Sample.posix_linesep Sample.untouched "Cyclic.st"
              (encode_latin1 "axis.Enable := TRUE;") eq_refl)
    as (Henum & Hinput & Hfb).
  split; [|split].
  - apply Henum; reflexivity.
  - apply Hinput; reflexivity.
  - apply Hfb; reflexivity.
Defined.

Lemma pass_reports_unchanged_on_equal_digest_witness :
  replace_enums Sample.plain_new Sample.plain_update Sample.plain_hexdigest
    Sample.posix_linesep "a.st" Sample.cr_enum_table Sample.cr_enum_file
  = (Return (1, false),
     World (files Sample.cr_enum_file)
       [LogV (enum_msg 1 ("a" ++ [LF] ++ "b") ("a" ++ [CR] ++ "b"))])
  /\ replace_inputs Sample.plain_new Sample.plain_update
       Sample.plain_hexdigest Sample.posix_linesep "a.st"
       Sample.cr_input_table Sample.cr_input_file
     = (Return (1, false),
        World (files Sample.cr_input_file)
          [LogV (input_msg 1 ("k" ++ [LF] ++ "y") ("k" ++ [CR] ++ "y"))])
  /\ replace_fbs_and_types Sample.plain_new Sample.plain_update
       Sample.plain_hexdigest Sample.posix_linesep "a.st"
       Sample.cr_enum_table [] [] Sample.cr_enum_file
     = (Return (1, 0, false),
        World (files Sample.cr_enum_file)
          [LogV (fb_msg 1 ("a" ++ [LF] ++ "b") ("a" ++ [CR] ++ "b"))]).
Proof.
  split; [|split].
  - apply (pass_reports_unchanged_on_equal_digest
             bytes Sample.plain_new Sample.plain_update Sample.plain_hexdigest
             Sample.posix_linesep Sample.cr_enum_file "a.st"
             (encode_latin1 ("a" ++ [CR] ++ "b")) eq_refl);
      [reflexivity|discriminate|reflexivity].
  - apply (pass_reports_unchanged_on_equal_digest
             bytes Sample.plain_new Sample.plain_update Sample.plain_hexdigest
             Sample.posix_linesep Sample.cr_input_file "a.st"
             (encode_latin1 ("x.k" ++ [CR] ++ "y")) eq_refl);
      [reflexivity|discriminate|reflexivity].
  - apply (pass_reports_unchanged_on_equal_digest
             bytes Sample.plain_new Sample.plain_update Sample.plain_hexdigest
             Sample.posix_linesep Sample.cr_enum_file "a.st"
             (encode_latin1 ("a" ++ [CR] ++ "b")) eq_refl
             : _ /\ _ /\ _);
      [reflexivity|reflexivity|discriminate|reflexivity].
Defined.

(** ** Where the rules match *)

Lemma startswith_cons_cons (a b : ascii) (k s : text) :
  startswith (a :: k) (b :: s) = Ascii.eqb a b && startswith k s.
Proof. reflexivity. Qed.

Lemma hd_error_skipn (s : text) (n : nat) :
  hd_error (skipn n s) = nth_error s n.
Proof.
  revert s. induction n as [|n IH]; intros [|c s]; simpl; auto.
Qed.

Lemma skipn_skipn_add (s : text) (a b : nat) :
  skipn a (skipn b s) = skipn (b + a) s.
Proof.
  revert s. induction b as [|b IH]; intros s; [reflexivity|].
  destruct s as [|c s]; simpl; [now rewrite skipn_nil|apply IH].
Qed.

(** A match of a whole-token rule for an identifier has no word character
    on either side. *)
Lemma word_match_sides (old content : text) (m : nat) :
  Re.identifier old = true ->
  In m (Re.finditer (Re.WordLit old) content) ->
  startswith old (skipn m content) = true
  /\ Re.word_side (Re.char_before None content m) = false
  /\ Re.word_side (nth_error content (m + length old)) = false.
Proof.
  intros Hid Hm. apply finditer_matches in Hm as [_ Hm]. simpl in Hm.
  apply andb_true_iff in Hm as [Hm Hright].
  apply andb_true_iff in Hm as [Hstart Hleft].
  destruct old as [|a k]; [discriminate|].
  pose proof (identifier_cons _ _ Hid) as [Ha _].
  split; [exact Hstart|]. split.
  - destruct (skipn m content) as [|c r]; [discriminate|].
    simpl in Hstart. apply andb_true_iff in Hstart as [Hac _].
    apply Ascii.eqb_eq in Hac. subst c.
    unfold Re.at_boundary in Hleft. simpl in Hleft. rewrite Ha in Hleft.
    now destruct (Re.word_side (Re.char_before None content m)).
  - rewrite skipn_skipn_add, hd_error_skipn in Hright.
    unfold Re.at_boundary in Hright. simpl Re.last_before in Hright.
    simpl Re.word_side at 1 in Hright.
    change (match k with [] => a | _ :: _ => last k "000"%char end)
      with (last (a :: k) "000"%char) in Hright.
    rewrite last_word in Hright by exact Hid.
    simpl in Hright. now apply negb_true_iff in Hright.
Qed.

(** C4, as the code has it.  A rule of the function-block table or the type
    table whose key is an identifier rewrites the tokens equal to the key
    and nothing else: one turn of the loop leaves the working copy with
    those tokens renamed and adds their number to the count; every match has
    the key between two characters that are no word characters (or the ends
    of the text), so FooX and Foobar stay. *)
Theorem identifier_rule_rewrites_whole_tokens
    (msg : nat -> text -> text -> text) (old new : text) (rest : mapping)
    (content : text) (count : nat) (w : world) :
  Re.identifier old = true ->
  Re.literal_template new = true ->
  substitute Re.WordLit (fun new_fb => new_fb) msg ((old, new) :: rest)
    content count w
  = substitute Re.WordLit (fun new_fb => new_fb) msg rest
      (Re.rename_token old new content)
      (count + Re.count_token old content)
      (World (files w)
         (console w
          ++ if 0 <? Re.count_token old content
             then [LogV (msg (Re.count_token old content) old new)]
             else []))
  /\ forall m, In m (Re.finditer (Re.WordLit old) content) ->
       startswith old (skipn m content) = true
       /\ Re.word_side (Re.char_before None content m) = false
       /\ Re.word_side (nth_error content (m + length old)) = false.
Proof.
  intros Hid Hlit. split; [|intros m; now apply word_match_sides].
  simpl. unfold bind at 1, re_subn, Re.subn. rewrite Hlit.
  rewrite subn_word_tokens by exact Hid. unfold ret at 1. unfold bind at 1.
  destruct (0 <? Re.count_token old content); unfold log_v, emit, ret.
  - reflexivity.
  - simpl. now rewrite world_console_nil.
Qed.

Lemma identifier_rule_rewrites_whole_tokens_witness :
  substitute Re.WordLit (fun new_fb => new_fb) fb_msg Sample.foo_table
    Sample.foo_text 0 Sample.foo_file
  = (Return ("Foobar FooX Bar.Y" : text, 1),
     World (files Sample.foo_file) [LogV (fb_msg 1 "Foo" "Bar")])
  /\ Re.finditer (Re.WordLit "Foo") Sample.foo_text = [12].
Proof.
  split; [|reflexivity].
  destruct (identifier_rule_rewrites_whole_tokens fb_msg "Foo" "Bar" []
              Sample.foo_text 0 Sample.foo_file eq_refl eq_refl)
    as [Hstep _].
  unfold Sample.foo_table. rewrite Hstep. reflexivity.
Defined.

(** C4, as the claim has it, fails for the enumerator table: the rule of
    [replace_enums] has no word boundary, so with Foo -> Bar the pass turns
    "Foobar FooX Foo.Y" into "Barbar BarX Bar.Y" and counts 3. *)
Lemma enum_rule_rewrites_inside_identifiers :
  let run :=
    replace_enums Sample.plain_new Sample.plain_update Sample.plain_hexdigest
      Sample.posix_linesep "Main.st" Sample.foo_table Sample.foo_file in
  fst run = Return (3, true)
  /\ fs_lookup (files (snd run)) "Main.st"
     = Some (File (encode_latin1 "Barbar BarX Bar.Y")).
Proof. split; reflexivity. Qed.

(** C9.  The rule of [replace_inputs] for a key matches only where the text
    has a word character, then ".", then the key: the boundary assertion
    stands before the dot.  So no match starts at offset 0, none after a
    character that is no word character (a blank, say), and the text the
    rule returns is the input with each match replaced by "." and the new
    key; a turn of the loop of [replace_inputs] goes on with that text and
    the number of matches added to the count. *)
Theorem input_rule_needs_word_before_dot (old new content : text) :
  (forall m, In m (Re.finditer (input_pattern old) content) ->
     exists m' c,
       m = S m' /\ nth_error content m' = Some c
       /\ Re.is_word_char c = true
       /\ startswith ("."%char :: old) (skipn m content) = true)
  /\ ~ In 0 (Re.finditer (input_pattern old) content)
  /\ (forall m' c,
        nth_error content m' = Some c -> Re.is_word_char c = false ->
        ~ In (S m') (Re.finditer (input_pattern old) content))
  /\ Re.subn_literal (input_pattern old) (input_replacement new) content
     = (Re.replace_at (S (length old)) ("."%char :: new)
          (Re.finditer (input_pattern old) content) 0 content,
        length (Re.finditer (input_pattern old) content))
  /\ (forall rest count w,
        Re.literal_template new = true ->
        substitute input_pattern input_replacement input_msg
          ((old, new) :: rest) content count w
        = substitute input_pattern input_replacement input_msg rest
            (Re.replace_at (S (length old)) ("."%char :: new)
               (Re.finditer (input_pattern old) content) 0 content)
            (count + length (Re.finditer (input_pattern old) content))
            (World (files w)
               (console w
                ++ if 0 <? length (Re.finditer (input_pattern old) content)
                   then [LogV (input_msg
                                 (length (Re.finditer (input_pattern old)
                                            content))
                                 old new)]
                   else []))).
Proof.
  assert (Hmain : forall m, In m (Re.finditer (input_pattern old) content) ->
     exists m' c,
       m = S m' /\ nth_error content m' = Some c
       /\ Re.is_word_char c = true
       /\ startswith ("."%char :: old) (skipn m content) = true).
  { intros m Hm. apply finditer_matches in Hm as [_ Hm].
    unfold input_pattern in Hm. cbv beta iota delta [Re.match_here] in Hm.
    apply andb_true_iff in Hm as [Hm _].
    apply andb_true_iff in Hm as [Hstart Hleft].
    change (list_ascii_of_string "." ++ old) with ("."%char :: old) in *.
    destruct (skipn m content) as [|d r] eqn:Es; [discriminate|].
    pose proof Hstart as Hd. rewrite startswith_cons_cons in Hd.
    apply andb_true_iff in Hd as [Hd _]. apply Ascii.eqb_eq in Hd. subst d.
    unfold Re.at_boundary in Hleft. simpl hd_error in Hleft.
    change (Re.word_side (Some "."%char)) with false in Hleft.
    rewrite xorb_false_r in Hleft.
    destruct m as [|m']; [discriminate|]. simpl in Hleft.
    destruct (nth_error content m') as [c|] eqn:En; [|discriminate].
    exists m', c. repeat split; assumption. }
  assert (Hsubn :
    Re.subn_literal (input_pattern old) (input_replacement new) content
    = (Re.replace_at (S (length old)) ("."%char :: new)
         (Re.finditer (input_pattern old) content) 0 content,
       length (Re.finditer (input_pattern old) content))).
  { rewrite (surjective_pairing (Re.subn_literal _ _ _)).
    rewrite subn_literal_replace_at, subn_literal_finditer. reflexivity. }
  split; [exact Hmain|]. split; [|split; [|split]].
  - intros H0. destruct (Hmain 0 H0) as (m' & c & E & _). discriminate.
  - intros m' c Hn Hc Hin.
    destruct (Hmain _ Hin) as (m'' & c' & E & Hn' & Hc' & _).
    inversion E; subst m''. congruence.
  - exact Hsubn.
  - intros rest count w Hlit. simpl.
    unfold bind at 1, re_subn, Re.subn.
    assert (Hdot : Re.literal_template (input_replacement new) = true).
    { unfold input_replacement, Re.literal_template in *. simpl.
      exact Hlit. }
    rewrite Hdot, Hsubn. unfold ret at 1. unfold bind at 1.
    destruct (0 <? length (Re.finditer (input_pattern old) content));
      unfold log_v, emit, ret.
    + reflexivity.
    + simpl. now rewrite world_console_nil.
Qed.

Lemma input_rule_needs_word_before_dot_witness :
  Re.finditer (input_pattern "StandBy") ".StandBy; .StandBy; ax.StandBy;"
  = [22]
  /\ Re.subn_literal (input_pattern "StandBy") (input_replacement "Standby")
       ".StandBy; .StandBy; ax.StandBy;"
     = (".StandBy; .StandBy; ax.Standby;" : text, 1).
Proof.
  split; [reflexivity|].
  destruct (input_rule_needs_word_before_dot "StandBy" "Standby"
              ".StandBy; .StandBy; ax.StandBy;") as (_ & _ & _ & -> & _).
  reflexivity.
Defined.

(** ** Tokens that a rule for another identifier leaves alone *)

Lemma rename_token_sep_head (old new s : text) :
  Re.identifier old = true -> Re.sep_head s = true ->
  Re.sep_head (Re.rename_token old new s) = true.
Proof.
  intros Hid Hs. destruct s as [|d r]; [reflexivity|].
  unfold Re.sep_head in Hs. simpl in Hs. apply negb_true_iff in Hs.
  rewrite rename_token_sep by assumption.
  unfold Re.sep_head. simpl. now rewrite Hs.
Qed.

Lemma rename_keeps_token (k old new s : text) :
  Re.identifier k = true -> Re.identifier old = true -> old <> k ->
  Re.count_token k s <= Re.count_token k (Re.rename_token old new s).
Proof.
  intros Hk Hold Hne.
  induction s as [|c s Hc IH|w rest Hw Hrest IH] using token_ind.
  - apply Nat.le_refl.
  - rewrite rename_token_sep by assumption.
    now rewrite !count_token_sep by assumption.
  - rewrite rename_token_word by assumption.
    rewrite count_token_word by assumption.
    unfold Re.count_token at 2.
    rewrite tokens_app_sep by now apply rename_token_sep_head.
    rewrite count_occ_app. unfold Re.count_token in IH.
    destruct (text_eqb w k) eqn:Ewk.
    + apply text_eqb_eq in Ewk. subst w.
      assert (Eko : text_eqb k old = false).
      { apply text_eqb_neq. congruence. }
      rewrite Eko, tokens_identifier by exact Hk.
      rewrite count_occ_cons_eq by reflexivity.
      unfold Re.count_token. simpl count_occ. apply le_n_S. exact IH.
    + unfold Re.count_token. simpl Nat.add.
      eapply Nat.le_trans; [exact IH|apply Nat.le_add_l].
Qed.

Lemma rewritten_keeps_token (k : text) (table : mapping) :
  renames_others k table = true -> Re.identifier k = true ->
  forall content count,
    Re.count_token k content
    <= Re.count_token k
         (fst (rewritten Re.WordLit (fun new => new) table content count)).
Proof.
  intros Htable Hk.
  induction table as [|[old new] rest IH]; intros content count.
  - apply Nat.le_refl.
  - simpl in Htable. apply andb_true_iff in Htable as [Hrule Hrest].
    apply andb_true_iff in Hrule as [Hold Hne].
    apply negb_true_iff, text_eqb_neq in Hne.
    simpl. rewrite subn_word_tokens by exact Hold.
    eapply Nat.le_trans; [|apply (IH Hrest)].
    now apply rename_keeps_token.
Qed.

Lemma search_count (k s : text) :
  Re.identifier k = true ->
  Re.search (Re.WordLit k) s = true <-> 0 < Re.count_token k s.
Proof.
  intros Hk. rewrite <- (finditer_word_tokens _ _ Hk). unfold Re.search.
  destruct (Re.finditer (Re.WordLit k) s); simpl; split;
    intros; try lia; try discriminate; reflexivity.
Qed.

Lemma removal_notice_in (table : mapping) (content old new : text) :
  In (old, new) table ->
  Re.search (Re.WordLit old) content = true ->
  contains "." new = true ->
  In (Out Stdout (removal_msg_element old new ++ [LF]))
     (removal_notices table content).
Proof.
  intros Hin Hs Hdot. induction table as [|[o n] rest IH]; [destruct Hin|].
  simpl. apply in_or_app. destruct Hin as [E|Hin].
  - inversion E; subst o n. left. rewrite Hs.
    match goal with
    | |- context [contains ?dot new] =>
        change (contains dot new) with (contains "." new)
    end.
    rewrite Hdot. now left.
  - right. now apply IH.
Qed.

(** ** Dictionaries *)

Section DictFacts.

Variable V : Type.
Implicit Types (d : Dict.t V) (k n : text) (v : V).

Lemma get_set_same d k v : Dict.get (Dict.set d k v) k = Some v.
Proof.
  induction d as [|[k' v'] rest IH]; simpl.
  - now rewrite text_eqb_refl.
  - destruct (text_eqb k' k) eqn:E; simpl; rewrite E; [reflexivity|exact IH].
Qed.

Lemma get_set_other d k n v :
  k <> n -> Dict.get (Dict.set d k v) n = Dict.get d n.
Proof.
  intros Hne. induction d as [|[k' v'] rest IH]; simpl.
  - apply text_eqb_neq in Hne. now rewrite Hne.
  - destruct (text_eqb k' k) eqn:E; simpl.
    + apply text_eqb_eq in E. subst k'.
      apply text_eqb_neq in Hne. now rewrite Hne.
    + now rewrite IH.
Qed.

Lemma get_in_keys d n : Dict.get d n <> None <-> In n (Dict.keys d).
Proof.
  induction d as [|[k' v'] rest IH]; simpl; [tauto|].
  destruct (text_eqb k' n) eqn:E.
  - apply text_eqb_eq in E. split; [now left|discriminate].
  - apply text_eqb_neq in E. rewrite IH. tauto.
Qed.

Lemma keys_set_present d k v :
  In k (Dict.keys d) -> Dict.keys (Dict.set d k v) = Dict.keys d.
Proof.
  induction d as [|[k' v'] rest IH]; simpl; [tauto|].
  intros Hin. destruct (text_eqb k' k) eqn:E; simpl; [reflexivity|].
  apply text_eqb_neq in E. f_equal. apply IH. tauto.
Qed.

Lemma keys_set_fresh d k v :
  ~ In k (Dict.keys d) -> Dict.keys (Dict.set d k v) = Dict.keys d ++ [k].
Proof.
  induction d as [|[k' v'] rest IH]; simpl; [reflexivity|].
  intros Hin. destruct (text_eqb k' k) eqn:E; simpl.
  - apply text_eqb_eq in E. tauto.
  - f_equal. apply IH. tauto.
Qed.

Lemma keys_update d k (f : V -> V) :
  Dict.keys (Dict.update d k f) = Dict.keys d.
Proof.
  induction d as [|[k' v'] rest IH]; simpl; [reflexivity|].
  destruct (text_eqb k' k); simpl; [reflexivity|now f_equal].
Qed.

Lemma get_update_same d k (f : V -> V) :
  Dict.get (Dict.update d k f) k = option_map f (Dict.get d k).
Proof.
  induction d as [|[k' v'] rest IH]; simpl; [reflexivity|].
  destruct (text_eqb k' k) eqn:E; simpl; rewrite E; [reflexivity|exact IH].
Qed.

Lemma get_update_other d k n (f : V -> V) :
  k <> n -> Dict.get (Dict.update d k f) n = Dict.get d n.
Proof.
  intros Hne. induction d as [|[k' v'] rest IH]; simpl; [reflexivity|].
  destruct (text_eqb k' k) eqn:E; simpl.
  - apply text_eqb_eq in E. subst k'.
    apply text_eqb_neq in Hne. now rewrite Hne.
  - now rewrite IH.
Qed.

Lemma in_keys_set d k n v :
  In n (Dict.keys (Dict.set d k v)) <-> n = k \/ In n (Dict.keys d).
Proof.
  destruct (in_dec (list_eq_dec ascii_dec) k (Dict.keys d)) as [Hin|Hout].
  - rewrite keys_set_present by exact Hin. split; [tauto|].
    intros [->|H]; assumption.
  - rewrite keys_set_fresh by exact Hout. rewrite in_app_iff. simpl.
    split; intros H; intuition congruence.
Qed.

Lemma nodup_keys_set d k v :
  NoDup (Dict.keys d) -> NoDup (Dict.keys (Dict.set d k v)).
Proof.
  intros Hd.
  destruct (in_dec (list_eq_dec ascii_dec) k (Dict.keys d)) as [Hin|Hout].
  - now rewrite keys_set_present.
  - rewrite keys_set_fresh by exact Hout.
    apply NoDup_app; [exact Hd|repeat constructor; intros []|].
    intros x Hx [<-|[]]. contradiction.
Qed.

End DictFacts.

(** ** The scanner *)

Section ScannerFacts.

Variable R : Type.
Variable Args : Type.
Implicit Types (f g : process_function R Args)
  (funcs : list (process_function R Args)) (n : text)
  (d : Dict.t (list R)).

Lemma last_named_some funcs n f :
  last_named funcs n = Some f -> In f funcs /\ name f = n.
Proof.
  induction funcs as [|g rest IH]; simpl; [discriminate|].
  destruct (last_named rest n) as [h|].
  - intros E. inversion E; subst h. destruct (IH eq_refl). tauto.
  - destruct (text_eqb (name g) n) eqn:E; [|discriminate].
    intros E'. inversion E'; subst g. apply text_eqb_eq in E. tauto.
Qed.

Lemma last_named_none funcs n :
  last_named funcs n = None <-> ~ In n (map (@name R Args) funcs).
Proof.
  induction funcs as [|g rest IH]; simpl; [tauto|].
  destruct (last_named rest n) as [h|] eqn:L.
  - split; [discriminate|]. intros H. exfalso. apply H. right.
    apply last_named_some in L as [Hin <-]. now apply in_map.
  - destruct (text_eqb (name g) n) eqn:E.
    + apply text_eqb_eq in E. split; [discriminate|tauto].
    + apply text_eqb_neq in E. split; [|reflexivity].
      intros _ [H|H]; [contradiction|]. now apply (proj1 IH).
Qed.

Lemma last_named_nodup funcs f :
  NoDup (map (@name R Args) funcs) -> In f funcs ->
  last_named funcs (name f) = Some f.
Proof.
  induction funcs as [|g rest IH]; intros Hnd Hin; [destruct Hin|].
  simpl in Hnd. inversion Hnd as [|x l Hx Hrest]; subst.
  simpl. destruct Hin as [->|Hin].
  - destruct (last_named rest (name f)) eqn:E.
    + apply last_named_some in E as [Hin E]. exfalso. apply Hx.
      rewrite <- E. now apply in_map.
    + now rewrite text_eqb_refl.
  - now rewrite (IH Hrest Hin).
Qed.

(** The keys a comprehension over the functions leaves. *)
Lemma fold_set_keys (val : process_function R Args -> list R) funcs :
  forall d n,
    In n (Dict.keys (fold_left (fun d f => Dict.set d (name f) (val f))
                       funcs d))
    <-> In n (Dict.keys d) \/ In n (map (@name R Args) funcs).
Proof.
  induction funcs as [|g rest IH]; intros d n; simpl; [tauto|].
  rewrite IH, in_keys_set. intuition congruence.
Qed.

Lemma fold_set_nodup (val : process_function R Args -> list R) funcs :
  forall d, NoDup (Dict.keys d) ->
    NoDup (Dict.keys (fold_left (fun d f => Dict.set d (name f) (val f))
                        funcs d)).
Proof.
  induction funcs as [|g rest IH]; intros d Hd; simpl; [exact Hd|].
  apply IH. now apply nodup_keys_set.
Qed.

Lemma fold_set_keys_exact (val : process_function R Args -> list R) funcs :
  forall d, NoDup (Dict.keys d ++ map (@name R Args) funcs) ->
    Dict.keys (fold_left (fun d f => Dict.set d (name f) (val f)) funcs d)
    = Dict.keys d ++ map (@name R Args) funcs.
Proof.
  induction funcs as [|g rest IH]; intros d Hd; simpl.
  - now rewrite app_nil_r.
  - simpl in Hd. rewrite IH.
    + rewrite keys_set_fresh.
      * now rewrite <- app_assoc.
      * apply NoDup_remove_2 in Hd. intros H. apply Hd.
        apply in_or_app. now left.
    + rewrite keys_set_fresh.
      * rewrite <- app_assoc. exact Hd.
      * apply NoDup_remove_2 in Hd. intros H. apply Hd.
        apply in_or_app. now left.
Qed.

Lemma fold_set_get (val : process_function R Args -> list R) funcs :
  forall d n,
    Dict.get (fold_left (fun d f => Dict.set d (name f) (val f)) funcs d) n
    = match last_named funcs n with
      | Some f => Some (val f)
      | None => Dict.get d n
      end.
Proof.
  induction funcs as [|g rest IH]; intros d n; simpl; [reflexivity|].
  rewrite IH. destruct (last_named rest n); [reflexivity|].
  destruct (text_eqb (name g) n) eqn:E.
  - apply text_eqb_eq in E. subst n. apply get_set_same.
  - apply text_eqb_neq in E. now apply get_set_other.
Qed.

(** What a task's result adds to the results. *)
Lemma merge_keys d (fr : Dict.t (list R)) :
  Dict.keys (merge d fr) = Dict.keys d.
Proof.
  unfold merge. revert d. induction fr as [|[k l] rest IH]; intros d; simpl.
  - reflexivity.
  - rewrite IH. apply keys_update.
Qed.

Lemma merge_get (fr : Dict.t (list R)) :
  NoDup (Dict.keys fr) ->
  forall d n,
    Dict.get (merge d fr) n
    = option_map
        (fun l0 => l0 ++ match Dict.get fr n with Some l => l | None => [] end)
        (Dict.get d n).
Proof.
  unfold merge. induction fr as [|[k l] rest IH]; intros Hnd d n.
  - simpl. destruct (Dict.get d n); simpl; [now rewrite app_nil_r|easy].
  - simpl in Hnd. inversion Hnd as [|x xs Hk Hrest]; subst.
    simpl fold_left. rewrite (IH Hrest). simpl Dict.get at 3.
    destruct (text_eqb k n) eqn:E.
    + apply text_eqb_eq in E. subst n. rewrite get_update_same.
      assert (Dict.get rest k = None) as ->.
      { destruct (Dict.get rest k) eqn:G; [|reflexivity].
        exfalso. apply Hk. apply get_in_keys. congruence. }
      destruct (Dict.get d k); simpl; [now rewrite app_nil_r|reflexivity].
    + apply text_eqb_neq in E. now rewrite get_update_other.
Qed.

Lemma process_file_nodup funcs (args : Args) (path : text) :
  NoDup (Dict.keys (process_file funcs args path)).
Proof. apply fold_set_nodup. constructor. Qed.

Lemma process_file_get funcs (args : Args) (path : text) n :
  Dict.get (process_file funcs args path) n
  = option_map (fun f => call f path args) (last_named funcs n).
Proof.
  unfold process_file.
  rewrite (fold_set_get (fun f => call f path args)).
  now destruct (last_named funcs n).
Qed.

Lemma aggregate_step_get funcs (args : Args) (completed : list text) :
  forall d n f,
    last_named funcs n = Some f ->
    Dict.get (fold_left (fun results path =>
                           merge results (process_file funcs args path))
                completed d) n
    = option_map
        (fun l0 => l0 ++ flat_map (fun p => call f p args) completed)
        (Dict.get d n).
Proof.
  induction completed as [|p rest IH]; intros d n f Hf; simpl.
  - destruct (Dict.get d n); simpl; [now rewrite app_nil_r|reflexivity].
  - rewrite (IH _ _ _ Hf), merge_get by apply process_file_nodup.
    rewrite process_file_get, Hf. simpl.
    destruct (Dict.get d n); simpl; [now rewrite app_assoc|reflexivity].
Qed.

Lemma aggregate_keys funcs (args : Args) (completed : list text) :
  Dict.keys (aggregate funcs args completed)
  = Dict.keys (empty_results funcs).
Proof.
  unfold aggregate. generalize (empty_results funcs).
  induction completed as [|p rest IH]; intros d; simpl; [reflexivity|].
  rewrite IH. apply merge_keys.
Qed.

Lemma aggregate_get funcs (args : Args) (completed : list text) n f :
  last_named funcs n = Some f ->
  Dict.get (aggregate funcs args completed) n
  = Some (flat_map (fun p => call f p args) completed).
Proof.
  intros Hf. unfold aggregate. rewrite (aggregate_step_get _ _ _ _ _ _ Hf).
  unfold empty_results. rewrite (fold_set_get (fun _ => [])), Hf.
  reflexivity.
Qed.

Lemma aggregate_get_none funcs (args : Args) (completed : list text) n :
  last_named funcs n = None ->
  Dict.get (aggregate funcs args completed) n = None.
Proof.
  intros Hf. destruct (Dict.get _ n) eqn:G; [|reflexivity].
  exfalso. apply last_named_none in Hf. apply Hf.
  assert (In n (Dict.keys (aggregate funcs args completed)))
    by (apply get_in_keys; congruence).
  rewrite aggregate_keys in H. unfold empty_results in H.
  apply (fold_set_keys (fun _ => [])) in H. simpl in H. tauto.
Qed.

(** Every key of a task's result is a key of the results. *)
Lemma task_keys_in_results funcs (args : Args) (path : text)
    (completed : list text) n :
  In n (Dict.keys (process_file funcs args path)) ->
  In n (Dict.keys (aggregate funcs args completed)).
Proof.
  intros H. rewrite aggregate_keys. unfold empty_results.
  apply (fold_set_keys (fun _ => [])). right.
  unfold process_file in H.
  apply (fold_set_keys (fun f => call f path args)) in H.
  destruct H as [[]|H]. exact H.
Qed.

End ScannerFacts.

Section ScannerClaims.

Variable R : Type.
Variable Args : Type.

Lemma scan_list_inv (files : fs) (root_dir : text) (extensions : list text)
    (funcs : list (process_function R Args)) (args : Args)
    (result : scan_result R) :
  scan_files_parallel files root_dir extensions (FunctionList funcs) args
    result ->
  exists completed,
    Permutation completed (file_paths files root_dir extensions)
    /\ result = Keyed (aggregate funcs args completed).
Proof. intros H. inversion H as [completed Hp]. now exists completed. Qed.

(** A single function: the flat aggregate. *)
Lemma scan_one_function (files : fs) (root_dir : text)
    (extensions : list text) (f : process_function R Args) (args : Args)
    (result : scan_result R) :
  scan_files_parallel files root_dir extensions (OneFunction f) args result ->
  exists l,
    result = Flat l
    /\ Permutation l
         (flat_map (fun p => call f p args)
            (file_paths files root_dir extensions)).
Proof.
  intros H. inversion H as [completed Hp].
  unfold scan_files_parallel_in, finish. simpl function_list.
  rewrite (aggregate_get _ _ _ _ _ (name f) f).
  - eexists. split; [reflexivity|]. now apply Permutation_flat_map.
  - simpl. now rewrite text_eqb_refl.
Qed.

(** C1, as the code has it.  With a list of functions the scan returns a
    mapping keyed by function name: one key per distinct name, so exactly K
    keys, in the order of the list, when the K names differ; under each name
    stands, up to order, the union over the enumerated files of the results
    of the last function listed under that name - of each function itself
    when the names differ.  With a single function the scan returns that
    function's flat aggregate.  And the scan does return. *)
Theorem scan_keyed_by_function_name (files : fs) (root_dir : text)
    (extensions : list text) (args : Args) :
  (forall (funcs : list (process_function R Args)) (result : scan_result R),
      scan_files_parallel files root_dir extensions (FunctionList funcs) args
        result ->
      exists d,
        result = Keyed d
        /\ NoDup (Dict.keys d)
        /\ (forall n, In n (Dict.keys d) <-> In n (map (@name R Args) funcs))
        /\ (forall n f, last_named funcs n = Some f ->
              exists l,
                Dict.get d n = Some l
                /\ Permutation l
                     (flat_map (fun p => call f p args)
                        (file_paths files root_dir extensions)))
        /\ (NoDup (map (@name R Args) funcs) ->
              Dict.keys d = map (@name R Args) funcs
              /\ forall f, In f funcs ->
                   exists l,
                     Dict.get d (name f) = Some l
                     /\ Permutation l
                          (flat_map (fun p => call f p args)
                             (file_paths files root_dir extensions))))
  /\ (forall (f : process_function R Args) (result : scan_result R),
        scan_files_parallel files root_dir extensions (OneFunction f) args
          result ->
        exists l,
          result = Flat l
          /\ Permutation l
               (flat_map (fun p => call f p args)
                  (file_paths files root_dir extensions)))
  /\ (forall pf : process_functions R Args,
        scan_files_parallel files root_dir extensions pf args
          (scan_files_parallel_in
             (file_paths files root_dir extensions) pf args)).
Proof.
  split; [|split].
  - intros funcs result H.
    apply scan_list_inv in H as (completed & Hp & ->).
    assert (Hunion : forall n f, last_named funcs n = Some f ->
              exists l,
                Dict.get (aggregate funcs args completed) n = Some l
                /\ Permutation l
                     (flat_map (fun p => call f p args)
                        (file_paths files root_dir extensions))).
    { intros n f Hf. rewrite (aggregate_get _ _ _ _ _ _ _ Hf).
      eexists. split; [reflexivity|]. now apply Permutation_flat_map. }
    eexists. split; [reflexivity|]. rewrite aggregate_keys.
    unfold empty_results. split; [|split; [|split]].
    + apply (fold_set_nodup _ _ (fun _ => [])). constructor.
    + intros n. rewrite (fold_set_keys _ _ (fun _ => [])). simpl. tauto.
    + exact Hunion.
    + intros Hnd. split.
      * now rewrite (fold_set_keys_exact _ _ (fun _ => [])).
      * intros f Hin. apply Hunion. now apply last_named_nodup.
  - intros f result. apply scan_one_function.
  - intros pf. constructor. apply Permutation_refl.
Qed.

Lemma count_occ_filter (P : text -> bool) (l : list text) (x : text) :
  count_occ text_dec (filter P l) x
  = if P x then count_occ text_dec l x else 0.
Proof.
  induction l as [|y l IH]; simpl; [now destruct (P x)|].
  destruct (P y) eqn:Py; simpl;
    destruct (text_dec y x) as [->|Hne]; rewrite IH.
  - rewrite Py. reflexivity.
  - reflexivity.
  - rewrite Py. reflexivity.
  - reflexivity.
Qed.

Lemma is_file_in (files : fs) (p : text) :
  is_file files p = true -> In p (map fst files).
Proof.
  unfold is_file. induction files as [|[q n] rest IH]; simpl; [discriminate|].
  destruct (text_eqb q p) eqn:E.
  - apply text_eqb_eq in E. now left.
  - intros H. right. now apply IH.
Qed.

Lemma count_occ_file_paths (files : fs) (root_dir : text)
    (extensions : list text) (p : text) :
  NoDup (map fst files) ->
  count_occ text_dec (file_paths files root_dir extensions) p
  = if is_file files p && below root_dir p
    then length (filter (endswith (basename p)) extensions)
    else 0.
Proof.
  intros Hnd. unfold file_paths.
  induction extensions as [|ext rest IH].
  - simpl. now destruct (is_file files p && below root_dir p).
  - cbn [flat_map]. rewrite count_occ_app, IH. unfold rglob.
    rewrite !count_occ_filter. cbn [filter].
    destruct (is_file files p) eqn:Hf; cbn [andb]; [|reflexivity].
    destruct (below root_dir p); cbn [andb]; [|reflexivity].
    destruct (endswith (basename p) ext); cbn [length]; [|reflexivity].
    rewrite (proj1 (NoDup_count_occ' text_dec _) Hnd p)
      by now apply is_file_in.
    reflexivity.
Qed.

(** C6, as the code has it.  In a tree whose paths are distinct, a path is
    enumerated once for every filter its file name ends with - filters
    counted as often as they are listed - when it is a file below the root,
    and not at all otherwise; so exactly once when exactly one filter
    matches.  Every enumeration is a task of its own, and the aggregate
    holds, up to order, the results of all of them. *)
Theorem file_enumerated_once_per_matching_filter (files : fs)
    (root_dir : text) (extensions : list text) :
  NoDup (map fst files) ->
  (forall p,
      count_occ text_dec
        (file_paths files root_dir extensions) p
      = if is_file files p && below root_dir p
        then length (filter (endswith (basename p)) extensions)
        else 0)
  /\ (forall (f : process_function R Args) args result,
        scan_files_parallel files root_dir extensions (OneFunction f) args
          result ->
        exists l,
          result = Flat l
          /\ Permutation l
               (flat_map (fun p => call f p args)
                  (file_paths files root_dir extensions))).
Proof.
  intros Hnd. split.
  - intros p. now apply count_occ_file_paths.
  - intros f args result. apply scan_one_function.
Qed.

End ScannerClaims.

Lemma hw_tree_paths_distinct : NoDup (map fst Sample.hw_tree).
Proof.
  apply (NoDup_count_occ' text_dec). intros x Hx. simpl in Hx.
  repeat (destruct Hx as [<-|Hx]; [reflexivity|]). destruct Hx.
Qed.

Lemma scan_keyed_by_function_name_witness :
  exists d,
    scan_files_parallel_in [Sample.hw_path]
      (FunctionList [Sample.extract_f; Sample.collect_h]) tt = Keyed d
    /\ Dict.keys d = ["extract" : text; "collect" : text]
    /\ exists l, Dict.get d "collect" = Some l
                 /\ Permutation l [Sample.hw_path ++ ":h"].
Proof.
  destruct (scan_keyed_by_function_name text unit Sample.hw_tree "/proj"
              [".hw" : text] tt) as (Hlist & _ & Hreturns).
  destruct (Hlist _ _
              (Hreturns (FunctionList [Sample.extract_f; Sample.collect_h])))
    as (d & E & _ & _ & _ & Hdistinct).
  assert (Hnd : NoDup (map (@name text unit)
                         [Sample.extract_f; Sample.collect_h])).
  { repeat constructor; simpl; intuition discriminate. }
  destruct (Hdistinct Hnd) as [Hkeys Hunion].
  exists d. split; [exact E|]. split; [exact Hkeys|].
  apply (Hunion Sample.collect_h). simpl. tauto.
Defined.

(** C1, as the claim has it, fails when two functions of the list have the
    same name: the scan of the sample tree with two functions called
    "extract" returns a mapping with one key, under which only the results
    of the second function stand. *)
Lemma same_name_functions_share_one_key :
  scan_files_parallel Sample.hw_tree "/proj" [".hw" : text]
    (FunctionList [Sample.extract_f; Sample.extract_g]) tt
    (Keyed [("extract" : text, [Sample.hw_path ++ ":g"])])
  /\ forall result,
       scan_files_parallel Sample.hw_tree "/proj" [".hw" : text]
         (FunctionList [Sample.extract_f; Sample.extract_g]) tt result ->
       result = Keyed [("extract" : text, [Sample.hw_path ++ ":g"])].
Proof.
  split.
  - exact (scan_completed Sample.hw_tree "/proj" [".hw" : text]
             (FunctionList [Sample.extract_f; Sample.extract_g]) tt
             (Permutation_refl _)).
  - intros result H. inversion H as [completed Hp].
    change (file_paths Sample.hw_tree "/proj" [".hw" : text])
      with [Sample.hw_path] in Hp.
    apply Permutation_sym, Permutation_length_1_inv in Hp. subst completed.
    reflexivity.
Qed.

Lemma file_enumerated_once_per_matching_filter_witness :
  count_occ text_dec
    (file_paths Sample.hw_tree "/proj" [".hw" : text; ".apj" : text])
    Sample.hw_path = 1.
Proof.
  destruct (file_enumerated_once_per_matching_filter text unit
              Sample.hw_tree "/proj" [".hw" : text; ".apj" : text]
              hw_tree_paths_distinct) as [Hcount _].
  rewrite Hcount. reflexivity.
Defined.

(** C6, as the claim has it, fails when two filters match one file name:
    with the filters ".hw" and "hw" the one hardware file of the sample tree
    is enumerated twice, processed by two tasks, and its results stand twice
    in the aggregate. *)
Lemma two_matching_filters_enumerate_twice :
  file_paths Sample.hw_tree "/proj" [".hw" : text; "hw" : text]
  = [Sample.hw_path; Sample.hw_path]
  /\ forall result,
       scan_files_parallel Sample.hw_tree "/proj" [".hw" : text; "hw" : text]
         (OneFunction Sample.extract_f) tt result ->
       result = Flat [Sample.hw_path ++ ":f"; Sample.hw_path ++ ":f"].
Proof.
  split; [reflexivity|].
  intros result H. inversion H as [completed Hp].
  change (file_paths Sample.hw_tree "/proj" [".hw" : text; "hw" : text])
    with [Sample.hw_path; Sample.hw_path] in Hp.
  apply Permutation_sym, Permutation_length_2_inv in Hp.
  destruct Hp as [->| ->]; reflexivity.
Qed.

(** ** Sorting *)

Lemma text_leb_total (a b : text) :
  text_leb a b = false -> text_leb b a = true.
Proof.
  revert b. induction a as [|x a IH]; intros [|y b]; simpl; try easy.
  rewrite (Ascii.eqb_sym y x).
  destruct (Ascii.eqb x y) eqn:E; [apply IH|].
  intros H. apply Nat.ltb_ge in H. apply Nat.ltb_lt.
  assert (nat_of_ascii x <> nat_of_ascii y).
  { intros Hn. apply (f_equal ascii_of_nat) in Hn.
    rewrite !ascii_nat_embedding in Hn. subst y.
    rewrite Ascii.eqb_refl in E. discriminate. }
  lia.
Qed.

Lemma insert_sorted_perm (x : text) (l : list text) :
  Permutation (insert_sorted x l) (x :: l).
Proof.
  induction l as [|y l IH]; simpl; [apply Permutation_refl|].
  destruct (text_leb x y); [apply Permutation_refl|].
  eapply Permutation_trans; [apply perm_skip, IH|apply perm_swap].
Qed.

Lemma sorted_perm (l : list text) : Permutation (sorted l) l.
Proof.
  induction l as [|x l IH]; simpl; [constructor|].
  eapply Permutation_trans; [apply insert_sorted_perm|now apply perm_skip].
Qed.

Lemma insert_sorted_sorted (x : text) (l : list text) :
  Sorted text_le l -> Sorted text_le (insert_sorted x l).
Proof.
  induction l as [|y l IH]; intros Hs; simpl.
  - repeat constructor.
  - destruct (text_leb x y) eqn:E.
    + constructor; [exact Hs|]. constructor. exact E.
    + inversion Hs as [|? ? Hl Hy]; subst.
      constructor; [now apply IH|].
      destruct l as [|z l]; simpl.
      * constructor. now apply text_leb_total.
      * destruct (text_leb x z); constructor.
        -- now apply text_leb_total.
        -- now inversion Hy.
Qed.

Lemma sorted_sorted (l : list text) : Sorted text_le (sorted l).
Proof.
  induction l as [|x l IH]; simpl; [constructor|].
  now apply insert_sorted_sorted.
Qed.

(** ** The hardware check *)

Lemma hw_match_eqb_eq (a b : hw_match) : hw_match_eqb a b = true <-> a = b.
Proof.
  destruct a as [[a1 a2] a3], b as [[b1 b2] b3]. unfold hw_match_eqb.
  rewrite !andb_true_iff, !text_eqb_eq. split.
  - intros [[-> ->] ->]. reflexivity.
  - intros E. inversion E. tauto.
Qed.

Lemma set_add_in (l : list hw_match) (x y : hw_match) :
  In y (set_add l x) <-> In y l \/ y = x.
Proof.
  unfold set_add. destruct (existsb (hw_match_eqb x) l) eqn:E.
  - split; [tauto|]. intros [H| ->]; [exact H|].
    apply existsb_exists in E as (z & Hz & Ez).
    apply hw_match_eqb_eq in Ez. now subst z.
  - rewrite in_app_iff. simpl. intuition.
Qed.

Lemma set_add_nodup (l : list hw_match) (x : hw_match) :
  NoDup l -> NoDup (set_add l x).
Proof.
  intros Hl. unfold set_add. destruct (existsb (hw_match_eqb x) l) eqn:E.
  - exact Hl.
  - apply NoDup_app; [exact Hl|repeat constructor; intros []|].
    intros y Hy [<-|[]].
    assert (existsb (hw_match_eqb x) l = true); [|congruence].
    apply existsb_exists. exists x. split; [exact Hy|].
    now apply hw_match_eqb_eq.
Qed.

Section HardwareFacts.

Variable read_file : text -> text.

Lemma reasons_in (file_path hw_type : text) (hardware_dict : catalog) :
  forall results x,
    In x (fold_left
            (fun results (item : text * list text) =>
               let (reason, items) := item in
               if member hw_type items
               then set_add results (hw_type, reason, file_path)
               else results)
            hardware_dict results)
    <-> In x results
        \/ exists reason items,
             In (reason, items) hardware_dict
             /\ member hw_type items = true
             /\ x = (hw_type, reason, file_path).
Proof.
  induction hardware_dict as [|[r its] rest IH]; intros results x; simpl.
  - split; [tauto|]. intros [H|(? & ? & [] & _)]. exact H.
  - rewrite IH. destruct (member hw_type its) eqn:M.
    + rewrite set_add_in. split.
      * intros [[H| ->]|(r' & i' & Hin & Hm & ->)].
        -- now left.
        -- right. exists r, its. tauto.
        -- right. exists r', i'. tauto.
      * intros [H|(r' & i' & [E|Hin] & Hm & ->)].
        -- tauto.
        -- inversion E; subst. tauto.
        -- right. exists r', i'. tauto.
    + split.
      * intros [H|(r' & i' & Hin & Hm & ->)]; [tauto|].
        right. exists r', i'. tauto.
      * intros [H|(r' & i' & [E|Hin] & Hm & ->)]; [tauto| |].
        -- inversion E; subst. congruence.
        -- right. exists r', i'. tauto.
Qed.

Lemma reasons_nodup (file_path hw_type : text) (hardware_dict : catalog) :
  forall results,
    NoDup results ->
    NoDup (fold_left
             (fun results (item : text * list text) =>
                let (reason, items) := item in
                if member hw_type items
                then set_add results (hw_type, reason, file_path)
                else results)
             hardware_dict results).
Proof.
  induction hardware_dict as [|[r its] rest IH]; intros results Hnd; simpl.
  - exact Hnd.
  - apply IH. destruct (member hw_type its); [|exact Hnd].
    now apply set_add_nodup.
Qed.

(** The records of a file: one for every module type found in it and every
    reason that lists the type. *)
Lemma process_hw_file_in (file_path : text) (hardware_dict : catalog)
    (x : hw_match) :
  In x (process_hw_file read_file file_path hardware_dict)
  <-> exists hw_type reason items,
        In hw_type (module_types (read_file file_path))
        /\ In (reason, items) hardware_dict
        /\ member hw_type items = true
        /\ x = (hw_type, reason, file_path).
Proof.
  unfold process_hw_file.
  generalize (module_types (read_file file_path)) as matches.
  intros matches.
  assert (G : forall results,
             In x (fold_left
                     (fun results hw_type =>
                        fold_left
                          (fun results (item : text * list text) =>
                             let (reason, items) := item in
                             if member hw_type items
                             then set_add results (hw_type, reason, file_path)
                             else results)
                          hardware_dict results)
                     matches results)
             <-> In x results
                 \/ exists hw_type reason items,
                      In hw_type matches
                      /\ In (reason, items) hardware_dict
                      /\ member hw_type items = true
                      /\ x = (hw_type, reason, file_path)).
  { induction matches as [|t rest IH]; intros results; simpl.
    - split; [tauto|]. intros [H|(? & ? & ? & [] & _)]. exact H.
    - rewrite IH, reasons_in. split.
      + intros [[H|(r & i & Hin & Hm & ->)]|(t' & r & i & Ht & Hin & Hm & ->)].
        * now left.
        * right. exists t, r, i. tauto.
        * right. exists t', r, i. tauto.
      + intros [H|(t' & r & i & [<-|Ht] & Hin & Hm & ->)].
        * tauto.
        * left. right. exists r, i. tauto.
        * right. exists t', r, i. tauto. }
  rewrite G. simpl. tauto.
Qed.

Lemma process_hw_file_nodup (file_path : text) (hardware_dict : catalog) :
  NoDup (process_hw_file read_file file_path hardware_dict).
Proof.
  unfold process_hw_file.
  generalize (module_types (read_file file_path)) as matches.
  intros matches. generalize (NoDup_nil hw_match).
  generalize (@nil hw_match) as results.
  induction matches as [|t rest IH]; intros results Hnd; simpl.
  - exact Hnd.
  - apply IH. now apply reasons_nodup.
Qed.

End HardwareFacts.

Section GroupFacts.

Implicit Types (g : Dict.t group) (n : text).

Lemma get_setdefault g (k n : text) (v : group) :
  Dict.get (Dict.setdefault g k v) n
  = match Dict.get g n with
    | Some e => Some e
    | None => if text_eqb k n then Some v else None
    end.
Proof.
  unfold Dict.setdefault. destruct (Dict.get g k) eqn:G.
  - destruct (Dict.get g n) eqn:Gn; [reflexivity|].
    destruct (text_eqb k n) eqn:E; [|reflexivity].
    apply text_eqb_eq in E. congruence.
  - induction g as [|[k' v'] rest IH]; simpl in *.
    + reflexivity.
    + destruct (text_eqb k' n); [reflexivity|].
      apply IH. now destruct (text_eqb k' k).
Qed.

Lemma keys_setdefault_nodup g (k : text) (v : group) :
  NoDup (Dict.keys g) -> NoDup (Dict.keys (Dict.setdefault g k v)).
Proof.
  intros Hg. unfold Dict.setdefault. destruct (Dict.get g k) eqn:G.
  - exact Hg.
  - unfold Dict.keys. rewrite map_app. simpl.
    apply NoDup_app; [exact Hg|repeat constructor; intros []|].
    intros x Hx [<-|[]]. apply get_in_keys in Hx. congruence.
Qed.

Lemma group_results_fold (hardware_results : list hw_match) :
  group_results hardware_results = fold_left group_step hardware_results [].
Proof. reflexivity. Qed.

Lemma group_fold_nodup (hardware_results : list hw_match) :
  forall g, NoDup (Dict.keys g) ->
    NoDup (Dict.keys (fold_left group_step hardware_results g)).
Proof.
  induction hardware_results as [|[[i r] p] rest IH]; intros g Hg; simpl.
  - exact Hg.
  - apply IH. rewrite keys_update. now apply keys_setdefault_nodup.
Qed.

Lemma configs_of_cons (n i r p : text) (rest : list hw_match) :
  configs_of n ((i, r, p) :: rest)
  = if text_eqb i n then config_name p :: configs_of n rest
    else configs_of n rest.
Proof.
  unfold configs_of. simpl filter. unfold has_id at 1. simpl fst.
  now destruct (text_eqb i n).
Qed.

Lemma first_reason_cons (n i r p : text) (rest : list hw_match) :
  first_reason n ((i, r, p) :: rest)
  = if text_eqb i n then Some r else first_reason n rest.
Proof.
  unfold first_reason. simpl find. unfold has_id at 1. simpl fst.
  now destruct (text_eqb i n).
Qed.

Lemma group_fold_get (hardware_results : list hw_match) :
  forall g n,
    Dict.get (fold_left group_step hardware_results g) n
    = match Dict.get g n with
      | Some e =>
          Some (Group (reason e) (configs e ++ configs_of n hardware_results))
      | None =>
          option_map (fun r => Group r (configs_of n hardware_results))
                     (first_reason n hardware_results)
      end.
Proof.
  induction hardware_results as [|[[i r] p] rest IH]; intros g n.
  - simpl. destruct (Dict.get g n) as [[]|]; simpl;
      [now rewrite app_nil_r|reflexivity].
  - simpl fold_left. rewrite IH. unfold group_step.
    rewrite configs_of_cons, first_reason_cons.
    destruct (text_eqb i n) eqn:E.
    + apply text_eqb_eq in E. subst i.
      rewrite get_update_same, get_setdefault, text_eqb_refl.
      destruct (Dict.get g n) as [e|]; simpl.
      * now rewrite <- app_assoc.
      * reflexivity.
    + apply text_eqb_neq in E.
      rewrite get_update_other by exact E. rewrite get_setdefault.
      apply text_eqb_neq in E. rewrite E.
      destruct (Dict.get g n); reflexivity.
Qed.

Lemma dict_in_get (V : Type) (d : Dict.t V) (k : text) (v : V) :
  NoDup (Dict.keys d) -> In (k, v) d <-> Dict.get d k = Some v.
Proof.
  induction d as [|[k' v'] rest IH]; intros Hnd; simpl.
  - split; [tauto|discriminate].
  - simpl in Hnd. inversion Hnd as [|x xs Hk Hrest]; subst.
    destruct (text_eqb k' k) eqn:E.
    + apply text_eqb_eq in E. subst k'. split.
      * intros [H|H]; [congruence|].
        exfalso. apply Hk. now apply (in_map fst) in H.
      * intros H. left. congruence.
    + apply text_eqb_neq in E. rewrite <- (IH Hrest). split.
      * intros [H|H]; [congruence|exact H].
      * tauto.
Qed.

(** The grouped results: one entry per identifier, with the reason of its
    first record and the configuration names of all its records. *)
Lemma group_results_get (hardware_results : list hw_match) (n : text) :
  Dict.get (group_results hardware_results) n
  = option_map (fun r => Group r (configs_of n hardware_results))
               (first_reason n hardware_results).
Proof. rewrite group_results_fold. now rewrite group_fold_get. Qed.

Lemma group_results_nodup (hardware_results : list hw_match) :
  NoDup (Dict.keys (group_results hardware_results)).
Proof. rewrite group_results_fold. apply group_fold_nodup. constructor. Qed.

Lemma report_text_concat (grouped_results : Dict.t group) :
  report_text grouped_results
  = "The following unsupported hardware were found:"
    ++ concat (map (fun item => entry_lines (fst item) (snd item))
                   grouped_results).
Proof.
  unfold report_text.
  generalize ("The following unsupported hardware were found:" : text).
  induction grouped_results as [|item rest IH]; intros header; simpl.
  - now rewrite app_nil_r.
  - rewrite IH. now rewrite <- app_assoc.
Qed.

End GroupFacts.

(** C5, as the code has it.  For every identifier of the grouped results
    the entry holds the configuration folder names of the identifier's
    records in the order of aggregation, repetitions kept.  The report lists
    the first three of them in sorted order - all of them, sorted, when
    there are no more than three - and then ", and N more..." with N the
    number of entries beyond three, exactly when there are more than three
    entries. *)
Theorem report_lists_first_three_sorted (hardware_results : list hw_match)
    (hardware_id : text) (entries : group) :
  In (hardware_id, entries) (group_results hardware_results) ->
  configs entries = configs_of hardware_id hardware_results
  /\ listed_configs entries = sorted (firstn 3 (configs entries))
  /\ Sorted text_le (listed_configs entries)
  /\ Permutation (listed_configs entries) (firstn 3 (configs entries))
  /\ length (listed_configs entries) = Nat.min 3 (length (configs entries))
  /\ (3 < length (configs entries) ->
      more_suffix entries
      = ", and " ++ str_nat (length (configs entries) - 3) ++ " more...")
  /\ (length (configs entries) <= 3 ->
      more_suffix entries = []
      /\ listed_configs entries = sorted (configs entries))
  /\ entry_lines hardware_id entries
     = [LF; LF] ++ "- " ++ hardware_id ++ ": " ++ reason entries
       ++ [LF] ++ "  Used in configurations: "
       ++ join ", " (listed_configs entries) ++ more_suffix entries
  /\ report_text (group_results hardware_results)
     = "The following unsupported hardware were found:"
       ++ concat (map (fun item => entry_lines (fst item) (snd item))
                      (group_results hardware_results)).
Proof.
  intros Hin.
  apply dict_in_get in Hin; [|apply group_results_nodup].
  rewrite group_results_get in Hin.
  repeat split.
  - destruct (first_reason hardware_id hardware_results); [|discriminate].
    simpl in Hin. inversion Hin. reflexivity.
  - apply sorted_sorted.
  - apply sorted_perm.
  - unfold listed_configs.
    rewrite (Permutation_length (sorted_perm _)). apply length_firstn.
  - intros H. unfold more_suffix. apply Nat.ltb_lt in H. now rewrite H.
  - unfold more_suffix.
    destruct (3 <? length (configs entries)) eqn:E; [|reflexivity].
    apply Nat.ltb_lt in E. lia.
  - unfold listed_configs. now rewrite firstn_all2.
  - apply report_text_concat.
Qed.

Lemma report_lists_first_three_sorted_witness :
  listed_configs
    (Group "EOL" ["ConfigD" : text; "ConfigC" : text; "ConfigB" : text;
                  "ConfigA" : text])
  = sorted ["ConfigD" : text; "ConfigC" : text; "ConfigB" : text]
  /\ more_suffix
       (Group "EOL" ["ConfigD" : text; "ConfigC" : text; "ConfigB" : text;
                     "ConfigA" : text])
     = (", and 1 more..." : text).
Proof.
  destruct (report_lists_first_three_sorted Sample.four_results "X100"
              (Group "EOL" ["ConfigD" : text; "ConfigC" : text;
                            "ConfigB" : text; "ConfigA" : text])
              (or_introl eq_refl))
    as (_ & Hlisted & _ & _ & _ & Hmore & _).
  split; [exact Hlisted|]. apply Hmore. simpl. lia.
Defined.

(** C5, as the claim has it, fails once an identifier has more than three
    entries: the names shown are not the first three of the sorted names.
    With four configurations completing in the order D, C, B, A the check
    logs "ConfigB, ConfigC, ConfigD, and 1 more...", and ConfigA, the first
    of the sorted names, is not shown. *)
Lemma report_sorts_after_cutting :
  check_hardware Sample.same_module Sample.four_configs "/proj/Physical"
    Sample.eol_catalog false
    [banner;
     LogCall
       ("The following unsupported hardware were found:"
        ++ [LF; LF] ++ "- X100: EOL" ++ [LF]
        ++ "  Used in configurations: ConfigB, ConfigC, ConfigD, and 1 more...")
       "AS4" "WARNING"]
  /\ firstn 3 (sorted (configs_of "X100" Sample.four_results))
     = ["ConfigA" : text; "ConfigB" : text; "ConfigC" : text].
Proof.
  split; [|reflexivity].
  exact (@check_hardware_done Sample.same_module Sample.four_configs
           "/proj/Physical" Sample.eol_catalog false Sample.four_results
           (@scan_completed hw_match catalog Sample.four_configs
              "/proj/Physical" [".hw" : text]
              (OneFunction
                 (ProcessFunction "process_hw_file"
                    (process_hw_file Sample.same_module)))
              Sample.eol_catalog _ (Permutation_refl _))).
Qed.

(** C10.  A file yields one record for every module type found in it and
    every reason whose list holds the type, each once.  The grouped results
    have one entry per identifier; its reason is the reason of the first
    record with that identifier, and every record with the identifier adds
    its configuration folder name to the entry's list.  A module listed
    under two reasons thus gives two records for one file, and an entry
    that holds the file's folder twice, under the reason of whichever record
    comes first. *)
Theorem duplicate_reasons_grouped_under_first (read_file : text -> text) :
  (forall file_path hardware_dict,
      NoDup (process_hw_file read_file file_path hardware_dict)
      /\ forall x,
           In x (process_hw_file read_file file_path hardware_dict)
           <-> exists hw_type reason items,
                 In hw_type (module_types (read_file file_path))
                 /\ In (reason, items) hardware_dict
                 /\ member hw_type items = true
                 /\ x = (hw_type, reason, file_path))
  /\ (forall hardware_results,
        NoDup (Dict.keys (group_results hardware_results))
        /\ forall hardware_id,
             Dict.get (group_results hardware_results) hardware_id
             = option_map
                 (fun r => Group r (configs_of hardware_id hardware_results))
                 (first_reason hardware_id hardware_results))
  /\ (forall hardware_id r p rest,
        group_results ((hardware_id, r, p) :: rest)
        = fold_left group_step rest
            [(hardware_id, Group r [config_name p])])
  /\ Permutation
       (process_hw_file Sample.same_module
          "/proj/Physical/ConfigA/Hardware.hw" Sample.two_reasons)
       [Sample.eol_record; Sample.replaced_record]
  /\ group_results [Sample.eol_record; Sample.replaced_record]
     = [("X100" : text, Group "EOL" ["ConfigA" : text; "ConfigA" : text])]
  /\ group_results [Sample.replaced_record; Sample.eol_record]
     = [("X100" : text,
         Group "Replaced" ["ConfigA" : text; "ConfigA" : text])].
Proof.
  split; [|split; [|split; [|split; [|split]]]].
  - intros file_path hardware_dict. split.
    + apply process_hw_file_nodup.
    + intros x. apply process_hw_file_in.
  - intros hardware_results. split.
    + apply group_results_nodup.
    + intros hardware_id. apply group_results_get.
  - intros hardware_id r p rest. unfold group_results. simpl fold_left.
    unfold group_step at 2. unfold Dict.setdefault. simpl.
    now rewrite text_eqb_refl.
  - apply Permutation_refl.
  - reflexivity.
  - reflexivity.
Qed.

Lemma duplicate_reasons_grouped_under_first_witness :
  In Sample.replaced_record
     (process_hw_file Sample.same_module
        "/proj/Physical/ConfigA/Hardware.hw" Sample.two_reasons)
  /\ Dict.get (group_results [Sample.eol_record; Sample.replaced_record])
       "X100"
     = Some (Group "EOL" ["ConfigA" : text; "ConfigA" : text]).
Proof.
  destruct (duplicate_reasons_grouped_under_first Sample.same_module)
    as (Hfile & Hgroup & _).
  split.
  - apply (proj2 (Hfile _ _)).
    exists ("X100" : text), ("Replaced" : text), ["X100" : text].
    repeat split; simpl; tauto.
  - rewrite (proj2 (Hgroup _)). reflexivity.
Defined.

(** ** [main] *)

Section MainClaim.

Variable md5_state : Type.
Variable md5_new : md5_state.
Variable md5_update : md5_state -> bytes -> md5_state.
Variable md5_hexdigest : md5_state -> text.
Variable linesep : text.

Local Abbreviation run_main :=
  (main md5_new md5_update md5_hexdigest linesep).
Local Abbreviation run_migrate :=
  (migrate md5_new md5_update md5_hexdigest linesep).

(** C8, as the code has it.  When [Package.pkg] is missing,
    [check_for_library] prints one plain line on standard output - no
    severity tag, nothing on standard error - and returns the empty list.
    [main], the project check passed, then goes the way of "no supported
    library found": it asks whether to proceed anyway.  On an answer other
    than "" or "y" it prints that the operation is cancelled and returns
    normally; on "" or "y", and without a terminal, it goes on to the
    rewrite.  The missing descriptor ends no run with a failure. *)
Theorem missing_package_descriptor_is_not_fatal (argv0 project_path : text)
    (verbose : bool) (stdin : stdin_state) (w : world) (apj_file : text) :
  get_and_check_project_file argv0 project_path w = (Return apj_file, w) ->
  is_file (files w) (package_file project_path) = false ->
  let asked :=
    World (files w)
          (console w
           ++ printed_before_question project_path apj_file verbose) in
  check_for_library project_path library_names w
  = (Return [],
     World (files w)
       (console w
        ++ [Out Stdout ("Error: Could not find Package.pkg file in: "
                        ++ package_file project_path ++ [LF])]))
  /\ run_main argv0 project_path verbose stdin w
     = (proceed <- ask_user stdin not_found_question "y" ;;
        if proceeds proceed then run_migrate project_path
        else print "Operation cancelled. No changes were made.") asked
  /\ (forall line,
        stdin = Terminal line -> proceeds (lower (strip line)) = false ->
        run_main argv0 project_path verbose stdin w
        = (Return tt,
           World (files w)
             (console asked
              ++ [Out Stdout not_found_question;
                  Out Stdout ("Operation cancelled. No changes were made."
                              ++ [LF])])))
  /\ (stdin = NoTerminal ->
      exists asked',
        files asked' = files w
        /\ run_main argv0 project_path verbose stdin w
           = run_migrate project_path asked').
Proof.
  intros Hcheck Hpkg asked.
  assert (Hlib : forall c,
            check_for_library project_path library_names (World (files w) c)
            = (Return [],
               World (files w)
                 (c ++ [Out Stdout
                          ("Error: Could not find Package.pkg file in: "
                           ++ package_file project_path ++ [LF])]))).
  { intros c. unfold check_for_library. simpl files. rewrite Hpkg.
    unfold bind, print, emit, ret. simpl. reflexivity. }
  assert (Hmain : run_main argv0 project_path verbose stdin w
     = (proceed <- ask_user stdin not_found_question "y" ;;
        if proceeds proceed then run_migrate project_path
        else print "Operation cancelled. No changes were made.") asked).
  { unfold main. unfold bind at 1. rewrite Hcheck.
    unfold bind at 1. unfold emit at 1. unfold bind at 1. unfold print at 1.
    unfold emit at 1. unfold bind at 1. unfold print at 1. unfold emit at 1.
    unfold bind at 1. simpl files. simpl console. rewrite Hlib.
    unfold bind at 1. unfold print at 1. unfold emit at 1.
    unfold bind at 1. unfold print at 1. unfold emit at 1.
    simpl files. simpl console. unfold asked, printed_before_question.
    repeat rewrite <- app_assoc. reflexivity. }
  split; [|split; [exact Hmain|split]].
  - destruct w as [f c]. exact (Hlib c).
  - intros line -> Hno. rewrite Hmain. unfold ask_user.
    unfold bind, emit, ret, print. simpl. rewrite Hno. simpl.
    unfold emit. simpl. now rewrite <- app_assoc.
  - intros ->. rewrite Hmain. unfold ask_user.
    unfold bind at 1. unfold bind at 1. unfold log, emit, ret.
    eexists. split; [|reflexivity]. reflexivity.
Qed.

End MainClaim.

Lemma bare_project_checked :
  get_and_check_project_file "mappmotion_update.py" "/proj"
    Sample.bare_project
  = (Return ("Demo.apj" : text), Sample.bare_project).
Proof. reflexivity. Qed.

Lemma missing_package_descriptor_is_not_fatal_witness :
  main Sample.plain_new Sample.plain_update Sample.plain_hexdigest
    Sample.posix_linesep "mappmotion_update.py" "/proj" false
    (Terminal "n") Sample.bare_project
  = (Return tt,
     World (files Sample.bare_project)
       (printed_before_question "/proj" "Demo.apj" false
        ++ [Out Stdout not_found_question;
            Out Stdout ("Operation cancelled. No changes were made."
                        ++ [LF])])).
Proof.
  destruct (missing_package_descriptor_is_not_fatal
              bytes Sample.plain_new Sample.plain_update
              Sample.plain_hexdigest Sample.posix_linesep
              "mappmotion_update.py" "/proj" false (Terminal "n")
              Sample.bare_project "Demo.apj" bare_project_checked eq_refl)
    as (_ & _ & Hcancel & _).
  exact (Hcancel "n" eq_refl eq_refl).
Defined.

(** C8, as the claim has it, fails: on a project without [Package.pkg] and
    without a terminal, [main] takes the default answer, runs the rewrite
    and returns normally, having written nothing to standard error. *)
Lemma run_without_package_descriptor_succeeds :
  let run :=
    main Sample.plain_new Sample.plain_update Sample.plain_hexdigest
      Sample.posix_linesep "mappmotion_update.py" "/proj" false NoTerminal
      Sample.bare_project in
  is_file (files Sample.bare_project) (package_file "/proj") = false
  /\ fst run = Return tt
  /\ existsb on_stderr (console (snd run)) = false
  /\ In (Out Stdout
           ("Error: Could not find Package.pkg file in: /proj/Logical/Libraries/Package.pkg"
            ++ [LF]))
        (console (snd run)).
Proof.
  vm_compute. repeat split. do 3 right. left. reflexivity.
Qed.

(** * Further properties *)

(** ** Chunks and digests *)

Lemma chunks_from_concat (size : nat) (data : bytes) :
  forall room cur,
    concat (chunks_from size room cur data) = rev cur ++ data.
Proof.
  induction data as [|b data IH]; intros room cur; simpl.
  - destruct cur; simpl; now rewrite ?app_nil_r.
  - destruct room as [|r]; simpl; rewrite IH; simpl.
    + reflexivity.
    + now rewrite <- app_assoc.
Qed.

Lemma chunks_from_nonempty (size : nat) (data : bytes) :
  forall room cur, cur <> [] -> chunks_from size room cur data <> [].
Proof.
  induction data as [|b data IH]; intros room cur Hcur; simpl.
  - destruct cur; [contradiction|discriminate].
  - destruct room; [discriminate|]. apply IH. discriminate.
Qed.

Lemma chunks_from_bounds (size : nat) (data : bytes) :
  0 < size ->
  forall room cur,
    length cur + room = size ->
    Forall (fun c => 0 < length c <= size) (chunks_from size room cur data)
    /\ Forall (fun c => length c = size)
         (removelast (chunks_from size room cur data)).
Proof.
  intros Hsize. induction data as [|b data IH]; intros room cur Hinv; simpl.
  - destruct cur as [|x cur]; simpl; [split; constructor|].
    split; [|constructor]. repeat constructor; rewrite length_app;
      simpl in *; rewrite length_rev; lia.
  - destruct room as [|r].
    + destruct (IH (size - 1) [b]) as [Hall Hfull]; [simpl; lia|].
      assert (Hlen : length (rev cur) = size) by (rewrite length_rev; lia).
      split.
      * constructor; [lia|exact Hall].
      * pose proof (chunks_from_nonempty size data (size - 1) [b]) as Hne.
        destruct (chunks_from size (size - 1) [b] data) as [|c rest] eqn:E.
        -- exfalso. apply Hne; [discriminate|reflexivity].
        -- change (removelast (rev cur :: c :: rest))
             with (rev cur :: removelast (c :: rest)).
           constructor; assumption.
    + apply IH. simpl. lia.
Qed.

Section Digest.

Variable md5_state : Type.
Variable md5_new : md5_state.
Variable md5_update : md5_state -> bytes -> md5_state.
Variable md5_hexdigest : md5_state -> text.

(** X1.  The chunks [calculate_file_hash] feeds to the accumulator are the
    file's bytes cut every 4096: put together they are the file, none is
    empty, none is longer than 4096 and all but the last are 4096 long.  So
    for an accumulator that takes its input in pieces - feeding [a] and then
    [b] is feeding [a ++ b], feeding nothing changes nothing - the digest is
    the digest of the whole content fed at once. *)
Theorem file_digest_of_whole_content (data : bytes) :
  (forall s a b, md5_update (md5_update s a) b = md5_update s (a ++ b)) ->
  (forall s, md5_update s [] = s) ->
  concat (chunks 4096 data) = data
  /\ Forall (fun c => 0 < length c <= 4096) (chunks 4096 data)
  /\ Forall (fun c => length c = 4096) (removelast (chunks 4096 data))
  /\ file_digest md5_new md5_update md5_hexdigest data
     = md5_hexdigest (md5_update md5_new data).
Proof.
  intros Happ Hnil.
  assert (Hcat : concat (chunks 4096 data) = data)
    by apply (chunks_from_concat 4096 data 4096 []).
  destruct (chunks_from_bounds 4096 data (Nat.lt_0_succ _) 4096 [] eq_refl)
    as [Hall Hfull].
  split; [exact Hcat|]. split; [exact Hall|]. split; [exact Hfull|].
  unfold file_digest. f_equal.
  rewrite <- Hcat at 2. generalize (chunks 4096 data) as cs.
  generalize md5_new as s. intros s cs. revert s.
  induction cs as [|c cs IH]; intros s; simpl.
  - now rewrite Hnil.
  - now rewrite IH, Happ.
Qed.

End Digest.

Lemma file_digest_of_whole_content_witness :
  file_digest Sample.plain_new Sample.plain_update Sample.plain_hexdigest
    (encode_latin1 "axis.Enable := TRUE;")
  = ("axis.Enable := TRUE;" : text).
Proof.
  destruct (file_digest_of_whole_content bytes Sample.plain_new
              Sample.plain_update Sample.plain_hexdigest
              (encode_latin1 "axis.Enable := TRUE;"))
    as (_ & _ & _ & ->).
  - intros s a b. unfold Sample.plain_update. now rewrite app_assoc.
  - intros s. apply app_nil_r.
  - reflexivity.
Defined.

(** ** Reading back what was written *)

Lemma encode_decode_latin1 (data : bytes) :
  encode_latin1 (decode_latin1 data) = data.
Proof.
  induction data as [|b data IH]; simpl; [reflexivity|].
  now rewrite byte_of_ascii_of_byte, IH.
Qed.

Lemma decode_encode_latin1 (s : text) :
  decode_latin1 (encode_latin1 s) = s.
Proof.
  induction s as [|c s IH]; simpl; [reflexivity|].
  now rewrite ascii_of_byte_of_ascii, IH.
Qed.

Lemma cr_free_cons (c : ascii) (s : text) :
  cr_free (c :: s) = negb (Ascii.eqb CR c) && cr_free s.
Proof. unfold cr_free. simpl. now rewrite negb_orb. Qed.

Lemma cr_free_app (a b : text) :
  cr_free (a ++ b) = cr_free a && cr_free b.
Proof.
  unfold cr_free. now rewrite existsb_app, negb_orb.
Qed.

Lemma universal_newlines_cons (c : ascii) (s : text) :
  universal_newlines (c :: s)
  = if Ascii.eqb c CR then
      match s with
      | d :: s' =>
          if Ascii.eqb d LF then LF :: universal_newlines s'
          else LF :: universal_newlines s
      | [] => [LF]
      end
    else c :: universal_newlines s.
Proof. reflexivity. Qed.

Lemma universal_newlines_cr_free (s : text) :
  cr_free (universal_newlines s) = true.
Proof.
  remember (length s) as n eqn:Hn. revert s Hn.
  induction n as [n IH] using lt_wf_ind. intros s Hn.
  destruct s as [|c s]; [reflexivity|]. rewrite universal_newlines_cons.
  destruct (Ascii.eqb c CR) eqn:Ec.
  - destruct s as [|d s]; [reflexivity|].
    destruct (Ascii.eqb d LF); rewrite cr_free_cons;
      change (negb (Ascii.eqb CR LF)) with true; cbn [andb].
    + apply (IH (length s)); [subst n; simpl; lia|reflexivity].
    + apply (IH (length (d :: s))); [subst n; simpl; lia|reflexivity].
  - rewrite cr_free_cons, Ascii.eqb_sym, Ec. cbn [negb andb].
    apply (IH (length s)); [subst n; simpl; lia|reflexivity].
Qed.

Lemma universal_newlines_id (s : text) :
  cr_free s = true -> universal_newlines s = s.
Proof.
  induction s as [|c s IH]; [reflexivity|].
  rewrite cr_free_cons. intros H. apply andb_true_iff in H as [Hc Hs].
  apply negb_true_iff in Hc. rewrite universal_newlines_cons.
  rewrite Ascii.eqb_sym, Hc. now rewrite IH.
Qed.

(** A text without carriage return comes back from the bytes written for
    it. *)
Lemma read_back (linesep s : text) :
  is_linesep linesep = true -> cr_free s = true ->
  universal_newlines
    (decode_latin1 (encode_latin1 (translate_newlines linesep s))) = s.
Proof.
  intros Hsep Hs. rewrite decode_encode_latin1.
  unfold is_linesep in Hsep. apply orb_true_iff in Hsep.
  destruct Hsep as [E|E]; apply text_eqb_eq in E; subst linesep.
  - induction s as [|c s IH]; [reflexivity|].
    rewrite cr_free_cons in Hs. apply andb_true_iff in Hs as [Hc Hs].
    apply negb_true_iff in Hc. cbn [translate_newlines].
    destruct (Ascii.eqb c LF) eqn:El.
    + apply Ascii.eqb_eq in El. subst c. cbn [app].
      rewrite universal_newlines_cons.
      change (Ascii.eqb LF CR) with false. cbv iota. now rewrite IH.
    + rewrite universal_newlines_cons, Ascii.eqb_sym, Hc. now rewrite IH.
  - induction s as [|c s IH]; [reflexivity|].
    rewrite cr_free_cons in Hs. apply andb_true_iff in Hs as [Hc Hs].
    apply negb_true_iff in Hc. cbn [translate_newlines].
    destruct (Ascii.eqb c LF) eqn:El.
    + apply Ascii.eqb_eq in El. subst c. cbn [app].
      rewrite universal_newlines_cons.
      change (Ascii.eqb CR CR) with true.
      change (Ascii.eqb LF LF) with true. cbv iota. now rewrite IH.
    + rewrite universal_newlines_cons, Ascii.eqb_sym, Hc. now rewrite IH.
Qed.

(** The scan puts into its result only what the text and the replacement
    hold. *)
Lemma scan_cr_free (p : Re.pattern) (repl : text) (s : text) :
  cr_free repl = true -> cr_free s = true ->
  forall skip prev pos, cr_free (fst (Re.scan p repl skip prev pos s)) = true.
Proof.
  intros Hrepl. induction s as [|c s IH]; intros Hs skip prev pos.
  - cbn [Re.scan]. destruct skip; [|reflexivity].
    destruct (Re.match_here p prev []); [exact Hrepl|reflexivity].
  - rewrite cr_free_cons in Hs. apply andb_true_iff in Hs as [Hc Hs].
    cbn [Re.scan]. destruct skip as [|k]; [|now apply IH].
    destruct (Re.match_here p prev (c :: s)).
    + destruct (length (Re.literal p)) as [|k].
      * specialize (IH Hs 0 (Some c) (S pos)).
        destruct (Re.scan p repl 0 (Some c) (S pos) s). cbn [fst] in *.
        now rewrite cr_free_app, cr_free_cons, Hrepl, Hc, IH.
      * specialize (IH Hs k (Some c) (S pos)).
        destruct (Re.scan p repl k (Some c) (S pos) s). cbn [fst] in *.
        now rewrite cr_free_app, Hrepl, IH.
    + specialize (IH Hs 0 (Some c) (S pos)).
      destruct (Re.scan p repl 0 (Some c) (S pos) s). cbn [fst] in *.
      now rewrite cr_free_cons, Hc, IH.
Qed.

Lemma rewritten_cr_free (pat : text -> Re.pattern) (repl : text -> text)
    (table : mapping) :
  cr_free_table repl table = true ->
  forall content count,
    cr_free content = true ->
    cr_free (fst (rewritten pat repl table content count)) = true.
Proof.
  induction table as [|[old new] rest IH]; intros Ht content count Hc.
  - exact Hc.
  - simpl in Ht. apply andb_true_iff in Ht as [Hnew Hrest]. simpl.
    pose proof (scan_cr_free (pat old) (repl new) content Hnew Hc 0 None 0)
      as Hscan.
    unfold Re.subn_literal, Re.scan_n.
    destruct (Re.scan (pat old) (repl new) 0 None 0 content) as [c' ms].
    now apply IH.
Qed.

Section ReadBack.

Variable md5_state : Type.
Variable md5_new : md5_state.
Variable md5_update : md5_state -> bytes -> md5_state.
Variable md5_hexdigest : md5_state -> text.
Variable linesep : text.
Hypothesis linesep_known : is_linesep linesep = true.

Lemma settle_read_back (w : world) (path : text) (data : bytes)
    (modified notice : text) (c : list event) :
  fs_lookup (files w) path = Some (File data) ->
  cr_free modified = true ->
  fst (read_text path
         (snd (settle md5_new md5_update md5_hexdigest linesep path data
                 (universal_newlines (decode_latin1 data)) modified notice
                 (World (files w) c))))
  = Return modified.
Proof.
  intros H Hm. unfold settle.
  destruct (text_eqb modified (universal_newlines (decode_latin1 data)))
    eqn:E.
  - apply text_eqb_eq in E. cbn [snd].
    rewrite (read_text_file _ _ data) by exact H. cbn [fst]. now rewrite E.
  - cbn [files console].
    destruct (text_eqb
                (file_digest md5_new md5_update md5_hexdigest data)
                (file_digest md5_new md5_update md5_hexdigest
                   (written linesep modified)));
      cbn [snd];
      rewrite (read_text_file _ _ (written linesep modified))
        by apply fs_lookup_store;
      cbn [fst]; unfold written; now rewrite read_back.
Qed.

(** X2.  What a pass leaves in the file reads back as the text the pass
    arrived at.  For a file that is there, a separator of "\n" or "\r\n" and
    tables whose replacements hold neither a backslash nor a carriage
    return: after [replace_enums], [replace_inputs] or
    [replace_fbs_and_types], reading the file in text mode gives the final
    working copy of the pass, whether the pass wrote it back or found
    nothing to change. *)
Theorem pass_result_reads_back (w : world) (path : text) (data : bytes) :
  fs_lookup (files w) path = Some (File data) ->
  let content := universal_newlines (decode_latin1 data) in
  (forall enum_mapping,
      literal_table (fun new_const => new_const) enum_mapping = true ->
      cr_free_table (fun new_const => new_const) enum_mapping = true ->
      fst (read_text path
             (snd (replace_enums md5_new md5_update md5_hexdigest linesep
                     path enum_mapping w)))
      = Return (fst (rewritten Re.Lit (fun new_const => new_const)
                       enum_mapping content 0)))
  /\ (forall input_mapping,
        literal_table input_replacement input_mapping = true ->
        cr_free_table input_replacement input_mapping = true ->
        fst (read_text path
               (snd (replace_inputs md5_new md5_update md5_hexdigest linesep
                       path input_mapping w)))
        = Return (fst (rewritten input_pattern input_replacement
                         input_mapping content 0)))
  /\ (forall fb_table type_table removal_table,
        literal_table (fun new_fb => new_fb) fb_table = true ->
        literal_table (fun new_type => new_type) type_table = true ->
        cr_free_table (fun new_fb => new_fb) fb_table = true ->
        cr_free_table (fun new_type => new_type) type_table = true ->
        fst (read_text path
               (snd (replace_fbs_and_types md5_new md5_update md5_hexdigest
                       linesep path fb_table type_table removal_table w)))
        = Return
            (fst (rewritten Re.WordLit (fun new_type => new_type) type_table
                    (fst (rewritten Re.WordLit (fun new_fb => new_fb)
                            fb_table content 0))
                    0))).
Proof.
  intros H content.
  assert (Hcontent : cr_free content = true)
    by apply universal_newlines_cr_free.
  split; [|split].
  - intros table Hlit Hcr.
    rewrite (replace_enums_run _ _ _ _ _ _ _ data) by assumption.
    simpl snd. apply settle_read_back; [exact H|].
    now apply rewritten_cr_free.
  - intros table Hlit Hcr.
    rewrite (replace_inputs_run _ _ _ _ _ _ _ data) by assumption.
    simpl snd. apply settle_read_back; [exact H|].
    now apply rewritten_cr_free.
  - intros fb ty rem Hfb Hty Cfb Cty.
    rewrite (replace_fbs_and_types_run _ _ _ _ _ _ _ data) by assumption.
    simpl snd. apply settle_read_back; [exact H|].
    apply rewritten_cr_free; [exact Cty|].
    now apply rewritten_cr_free.
Qed.

End ReadBack.

Lemma pass_result_reads_back_witness :
  fst (read_text "Main.st"
         (snd (replace_enums Sample.plain_new Sample.plain_update
                 Sample.plain_hexdigest Sample.posix_linesep "Main.st"
                 Sample.foo_table Sample.foo_file)))
  = Return ("Barbar BarX Bar.Y" : text).
Proof.
  destruct (pass_result_reads_back bytes Sample.plain_new
              Sample.plain_update Sample.plain_hexdigest
              Sample.posix_linesep eq_refl Sample.foo_file "Main.st"
              (encode_latin1 Sample.foo_text) eq_refl) as [Henum _].
  rewrite (Henum Sample.foo_table eq_refl eq_refl). reflexivity.
Defined.

(** ** What a computation leaves alone *)

Section Keeps.

Variable Rel : fs -> fs -> Prop.
Hypothesis Rel_refl : forall f, Rel f f.
Hypothesis Rel_trans : forall a b c, Rel a b -> Rel b c -> Rel a c.

Lemma keeps_ret (A : Type) (a : A) : keeps Rel (ret a).
Proof. intros w. apply Rel_refl. Qed.

Lemma keeps_raise (A : Type) (e : error) : keeps Rel (@raise A e).
Proof. intros w. apply Rel_refl. Qed.

Lemma keeps_bind (A B : Type) (m : io A) (k : A -> io B) :
  keeps Rel m -> (forall a, keeps Rel (k a)) -> keeps Rel (bind m k).
Proof.
  intros Hm Hk w. unfold bind. specialize (Hm w).
  destruct (m w) as [[a|e] w1]; simpl in *.
  - eapply Rel_trans; [exact Hm|apply Hk].
  - exact Hm.
Qed.

Lemma keeps_emit (e : event) : keeps Rel (emit e).
Proof. intros w. apply Rel_refl. Qed.

Lemma keeps_print (msg : text) : keeps Rel (print msg).
Proof. apply keeps_emit. Qed.

Lemma keeps_log_v (msg : text) : keeps Rel (log_v msg).
Proof. apply keeps_emit. Qed.

Lemma keeps_log (message when severity : text) :
  keeps Rel (log message when severity).
Proof. apply keeps_emit. Qed.

Lemma keeps_read_bytes (path : text) : keeps Rel (read_bytes path).
Proof.
  intros w. unfold read_bytes.
  destruct (fs_lookup (files w) path) as [[|]|]; apply Rel_refl.
Qed.

Lemma keeps_read_text (path : text) : keeps Rel (read_text path).
Proof.
  apply keeps_bind; [apply keeps_read_bytes|]. intros a. apply keeps_ret.
Qed.

Lemma keeps_substitute (pat : text -> Re.pattern) (repl : text -> text)
    (msg : nat -> text -> text -> text) (table : mapping) :
  forall content count,
    keeps Rel (substitute pat repl msg table content count).
Proof.
  induction table as [|[old new] rest IH]; intros content count; simpl.
  - apply keeps_ret.
  - apply keeps_bind.
    + unfold re_subn. destruct (Re.subn _ _ _);
        [apply keeps_ret|apply keeps_raise].
    + intros [content' n]. apply keeps_bind.
      * destruct (0 <? n); [apply keeps_log_v|apply keeps_ret].
      * intros _. apply IH.
Qed.

Lemma keeps_report_removals (table : mapping) (content : text) :
  keeps Rel (report_removals table content).
Proof.
  induction table as [|[old new] rest IH]; simpl.
  - apply keeps_ret.
  - apply keeps_bind; [|intros _; exact IH].
    destruct (Re.search _ _); [|apply keeps_ret].
    destruct (contains _ new); apply keeps_print.
Qed.

Lemma keeps_warn_each (table : mapping) (content : text) :
  keeps Rel (warn_each table content).
Proof.
  induction table as [|[old new] rest IH]; simpl.
  - apply keeps_ret.
  - apply keeps_bind; [|intros _; exact IH].
    destruct (Re.findall _ _); [apply keeps_ret|apply keeps_print].
Qed.

Lemma keeps_warn_inputs (path : text) (table : mapping) :
  keeps Rel (warn_inputs path table).
Proof.
  apply keeps_bind; [apply keeps_read_text|].
  intros content. apply keeps_warn_each.
Qed.

Section Hashed.

Variable md5_state : Type.
Variable md5_new : md5_state.
Variable md5_update : md5_state -> bytes -> md5_state.
Variable md5_hexdigest : md5_state -> text.
Variable linesep : text.

Lemma keeps_hash (path : text) :
  keeps Rel (calculate_file_hash md5_new md5_update md5_hexdigest path).
Proof.
  apply keeps_bind; [apply keeps_read_bytes|]. intros a. apply keeps_ret.
Qed.

Variable path : text.
Hypothesis keeps_write : forall s, keeps Rel (write_text linesep path s).

Lemma keeps_write_back (h original modified notice : text) :
  keeps Rel (write_back md5_new md5_update md5_hexdigest linesep path h
               original modified notice).
Proof.
  unfold write_back. destruct (text_eqb modified original).
  - apply keeps_ret.
  - apply keeps_bind; [apply keeps_write|]. intros _.
    apply keeps_bind; [apply keeps_hash|]. intros new_hash.
    destruct (text_eqb h new_hash); [apply keeps_ret|].
    apply keeps_bind; [apply keeps_print|]. intros _. apply keeps_ret.
Qed.

Lemma keeps_replace_enums (table : mapping) :
  keeps Rel (replace_enums md5_new md5_update md5_hexdigest linesep path
               table).
Proof.
  apply keeps_bind; [apply keeps_hash|]. intros h.
  apply keeps_bind; [apply keeps_read_text|]. intros content.
  apply keeps_bind; [apply keeps_substitute|]. intros [modified n].
  apply keeps_bind; [apply keeps_write_back|]. intros b. apply keeps_ret.
Qed.

Lemma keeps_replace_inputs (table : mapping) :
  keeps Rel (replace_inputs md5_new md5_update md5_hexdigest linesep path
               table).
Proof.
  apply keeps_bind; [apply keeps_hash|]. intros h.
  apply keeps_bind; [apply keeps_read_text|]. intros content.
  apply keeps_bind; [apply keeps_substitute|]. intros [modified n].
  apply keeps_bind; [apply keeps_write_back|]. intros b. apply keeps_ret.
Qed.

Lemma keeps_replace_fbs_and_types (fb ty rem : mapping) :
  keeps Rel (replace_fbs_and_types md5_new md5_update md5_hexdigest linesep
               path fb ty rem).
Proof.
  apply keeps_bind; [apply keeps_hash|]. intros h.
  apply keeps_bind; [apply keeps_read_text|]. intros content.
  apply keeps_bind; [apply keeps_substitute|]. intros [content1 n1].
  apply keeps_bind; [apply keeps_report_removals|]. intros _.
  apply keeps_bind; [apply keeps_substitute|]. intros [modified n2].
  apply keeps_bind; [apply keeps_write_back|]. intros b. apply keeps_ret.
Qed.

End Hashed.

End Keeps.

Lemma same_except_refl (touched : text -> Prop) (f : fs) :
  same_except touched f f.
Proof. intros other _. reflexivity. Qed.

Lemma same_except_trans (touched : text -> Prop) (a b c : fs) :
  same_except touched a b -> same_except touched b c ->
  same_except touched a c.
Proof.
  intros Hab Hbc other Hn. rewrite (Hbc other Hn). now apply Hab.
Qed.

Lemma same_paths_with_refl (path : text) (f : fs) : same_paths_with path f f.
Proof. intros _. reflexivity. Qed.

Lemma same_paths_with_trans (path : text) (a b c : fs) :
  same_paths_with path a b -> same_paths_with path b c ->
  same_paths_with path a c.
Proof.
  intros Hab Hbc Hin. specialize (Hab Hin). rewrite <- Hab. apply Hbc.
  now rewrite Hab.
Qed.

Lemma fs_lookup_in (files : fs) (p : text) (n : node) :
  fs_lookup files p = Some n -> In p (map fst files).
Proof.
  induction files as [|[q m] rest IH]; simpl; [discriminate|].
  destruct (text_eqb q p) eqn:E.
  - apply text_eqb_eq in E. now left.
  - intros H. right. now apply IH.
Qed.

Lemma fs_store_paths (files : fs) (path : text) (data : bytes) :
  In path (map fst files) ->
  map fst (fs_store files path data) = map fst files.
Proof.
  induction files as [|[q m] rest IH]; simpl; [tauto|].
  intros Hin. destruct (text_eqb q path) eqn:E; simpl; [reflexivity|].
  apply text_eqb_neq in E. f_equal. apply IH. tauto.
Qed.

Lemma write_text_same_except (linesep path s : text) :
  keeps (same_except (fun p => p = path)) (write_text linesep path s).
Proof.
  intros w other Hn. unfold write_text.
  destruct (fs_lookup (files w) path) as [[|]|]; simpl; try reflexivity;
    now apply fs_lookup_store_other.
Qed.

Lemma write_text_same_paths (linesep path s : text) :
  keeps (same_paths_with path) (write_text linesep path s).
Proof.
  intros w Hin. unfold write_text.
  destruct (fs_lookup (files w) path) as [[|]|]; simpl; try reflexivity;
    now apply fs_store_paths.
Qed.

Section Confined.

Variable md5_state : Type.
Variable md5_new : md5_state.
Variable md5_update : md5_state -> bytes -> md5_state.
Variable md5_hexdigest : md5_state -> text.
Variable linesep : text.

(** A computation that starts by taking the digest of the file at [path],
    and keeps the two relations, is confined to the path. *)
Lemma hash_first_confined (A B : Type) (path : text)
    (rest : text -> io A) :
  keeps (same_except (fun p => p = path))
    (bind (calculate_file_hash md5_new md5_update md5_hexdigest path) rest) ->
  keeps (same_paths_with path)
    (bind (calculate_file_hash md5_new md5_update md5_hexdigest path) rest) ->
  confined_to path
    (bind (calculate_file_hash md5_new md5_update md5_hexdigest path) rest).
Proof.
  intros Hexcept Hpaths w.
  assert (Hnone : fs_lookup (files w) path = None ->
            bind (calculate_file_hash md5_new md5_update md5_hexdigest path)
              rest w = (Raise FileNotFoundError, w)).
  { intros E. unfold calculate_file_hash. unfold bind, read_bytes.
    now rewrite E. }
  assert (Hdir : fs_lookup (files w) path = Some Dir ->
            bind (calculate_file_hash md5_new md5_update md5_hexdigest path)
              rest w = (Raise IsADirectoryError, w)).
  { intros E. unfold calculate_file_hash. unfold bind, read_bytes.
    now rewrite E. }
  split; [|split; [|split; assumption]].
  - intros other Hn. now apply Hexcept.
  - destruct (fs_lookup (files w) path) as [[data|]|] eqn:E.
    + apply Hpaths. now apply fs_lookup_in in E.
    + now rewrite Hdir.
    + now rewrite Hnone.
Qed.

Lemma replace_enums_confined (path : text) (table : mapping) :
  confined_to path
    (replace_enums md5_new md5_update md5_hexdigest linesep path table).
Proof.
  apply (hash_first_confined _ unit).
  - apply keeps_replace_enums;
      [apply same_except_refl|apply same_except_trans|].
    intros s. apply write_text_same_except.
  - apply keeps_replace_enums;
      [apply same_paths_with_refl|apply same_paths_with_trans|].
    intros s. apply write_text_same_paths.
Qed.

Lemma replace_inputs_confined (path : text) (table : mapping) :
  confined_to path
    (replace_inputs md5_new md5_update md5_hexdigest linesep path table).
Proof.
  apply (hash_first_confined _ unit).
  - apply keeps_replace_inputs;
      [apply same_except_refl|apply same_except_trans|].
    intros s. apply write_text_same_except.
  - apply keeps_replace_inputs;
      [apply same_paths_with_refl|apply same_paths_with_trans|].
    intros s. apply write_text_same_paths.
Qed.

Lemma replace_fbs_and_types_confined (path : text)
    (fb_table type_table removal_table : mapping) :
  confined_to path
    (replace_fbs_and_types md5_new md5_update md5_hexdigest linesep path
       fb_table type_table removal_table).
Proof.
  apply (hash_first_confined _ unit).
  - apply keeps_replace_fbs_and_types;
      [apply same_except_refl|apply same_except_trans|].
    intros s. apply write_text_same_except.
  - apply keeps_replace_fbs_and_types;
      [apply same_paths_with_refl|apply same_paths_with_trans|].
    intros s. apply write_text_same_paths.
Qed.

(** X3.  The three passes touch the file they are given and nothing else:
    every other path keeps its node, no path is added, removed or moved;
    and on a path that is not there, or is a directory, a pass raises
    [FileNotFoundError], or [IsADirectoryError], before it has printed or
    written anything.  This holds for any tables. *)
Theorem passes_confined_to_their_file (path : text) :
  (forall enum_mapping,
      confined_to path
        (replace_enums md5_new md5_update md5_hexdigest linesep path
           enum_mapping))
  /\ (forall input_mapping,
        confined_to path
          (replace_inputs md5_new md5_update md5_hexdigest linesep path
             input_mapping))
  /\ (forall fb_table type_table removal_table,
        confined_to path
          (replace_fbs_and_types md5_new md5_update md5_hexdigest linesep
             path fb_table type_table removal_table)).
Proof.
  split; [|split]; intros.
  - apply replace_enums_confined.
  - apply replace_inputs_confined.
  - apply replace_fbs_and_types_confined.
Qed.

End Confined.

(** ** The run as a whole *)

Lemma bind_return (A B : Type) (m : io A) (k : A -> io B) (w w' : world)
    (a : A) :
  m w = (Return a, w') -> bind m k w = k a w'.
Proof. intros E. unfold bind. now rewrite E. Qed.

Lemma bind_raise (A B : Type) (m : io A) (k : A -> io B) (w w' : world)
    (e : error) :
  m w = (Raise e, w') -> bind m k w = (Raise e, w').
Proof. intros E. unfold bind. now rewrite E. Qed.

Lemma filter_head_in (A : Type) (f : A -> bool) (l : list A) (x : A)
    (rest : list A) :
  filter f l = x :: rest -> In x l /\ f x = true.
Proof.
  intros E. apply filter_In. rewrite E. now left.
Qed.

Lemma filter_nil_all (A : Type) (f : A -> bool) (l : list A) :
  filter f l = [] -> forall x, In x l -> f x = false.
Proof.
  intros E x Hin. destruct (f x) eqn:Ef; [|reflexivity].
  assert (H : In x (filter f l)) by now apply filter_In.
  rewrite E in H. destruct H.
Qed.

Lemma project_check_run (argv0 project_path : text) (w : world) :
  let r := get_and_check_project_file argv0 project_path w in
  (exists apj_file,
      r = (Return apj_file, w)
      /\ endswith apj_file ".apj" = true
      /\ exists p, In p (children (files w) project_path)
                   /\ basename p = apj_file)
  \/ (exists msg,
        r = (Raise (SystemExit 1),
             World (files w) (console w ++ [Out Stderr msg]))
        /\ (fs_lookup (files w) project_path = None
            \/ forall p, In p (children (files w) project_path) ->
                         endswith (basename p) ".apj" = false)).
Proof.
  unfold get_and_check_project_file.
  destruct (fs_lookup (files w) project_path) as [n|] eqn:L.
  - destruct (filter _ (children (files w) project_path)) as [|p rest] eqn:F.
    + right. eexists. split; [reflexivity|]. right.
      exact (filter_nil_all _ _ _ F).
    + left. exists (basename p). apply filter_head_in in F as [Hin Hp].
      split; [reflexivity|]. split; [exact Hp|]. now exists p.
  - right. eexists. split; [reflexivity|]. now left.
Qed.

Lemma check_for_library_found (project_path : text) (names : list text)
    (w : world) (data : bytes) :
  fs_lookup (files w) (package_file project_path) = Some (File data) ->
  check_for_library project_path names w
  = (Return (filter (fun lib =>
                       contains lib (universal_newlines (decode_latin1 data)))
                    names), w).
Proof.
  intros L. unfold check_for_library, is_file. rewrite L.
  now rewrite (bind_return _ _ _ _ _ _ _ (read_text_file _ _ _ L)).
Qed.

Lemma check_for_library_run (project_path : text) (names : list text)
    (w : world) :
  exists libs w',
    files w' = files w
    /\ check_for_library project_path names w = (Return libs, w').
Proof.
  destruct (fs_lookup (files w) (package_file project_path))
    as [[data|]|] eqn:L.
  - eexists. exists w. split; [reflexivity|].
    now apply check_for_library_found with (data := data).
  - unfold check_for_library, is_file. rewrite L.
    eexists. eexists. split; [|reflexivity]. reflexivity.
  - unfold check_for_library, is_file. rewrite L.
    eexists. eexists. split; [|reflexivity]. reflexivity.
Qed.

Lemma ask_user_run (stdin : stdin_state) (message default : text)
    (w : world) :
  exists w',
    files w' = files w
    /\ ask_user stdin message default w
       = (Return (answer stdin default), w').
Proof.
  destruct stdin; eexists; (split; [|reflexivity]); reflexivity.
Qed.

Section WholeRun.

Variable md5_state : Type.
Variable md5_new : md5_state.
Variable md5_update : md5_state -> bytes -> md5_state.
Variable md5_hexdigest : md5_state -> text.
Variable linesep : text.

Local Abbreviation whole_run :=
  (main md5_new md5_update md5_hexdigest linesep).
Local Abbreviation rewrite_run :=
  (migrate md5_new md5_update md5_hexdigest linesep).

(** [main] ends at the project check, or runs what the answer selects in a
    world with the files it started with. *)
Lemma main_prologue (argv0 project_path : text) (verbose : bool)
    (stdin : stdin_state) (w : world) :
  (exists msg,
      whole_run argv0 project_path verbose stdin w
      = (Raise (SystemExit 1),
         World (files w) (console w ++ [Out Stderr msg])))
  \/ (exists w',
        files w' = files w
        /\ whole_run argv0 project_path verbose stdin w
           = (if proceeds (answer stdin "y") then rewrite_run project_path
              else print cancelled) w').
Proof.
  destruct (project_check_run argv0 project_path w)
    as [(apj & E & _)|(msg & E & _)].
  - right. unfold main. rewrite (bind_return _ _ _ _ _ _ _ E).
    unfold bind at 1. unfold emit at 1. unfold bind at 1. unfold print at 1.
    unfold emit at 1. unfold bind at 1. unfold print at 1. unfold emit at 1.
    match goal with
    | |- context [bind (check_for_library ?p ?n) ?k ?w1] =>
        destruct (check_for_library_run p n w1) as (libs & w2 & Hf2 & E2);
        rewrite (bind_return _ _ _ _ _ _ _ E2)
    end.
    simpl files in Hf2.
    unfold bind at 1. unfold print at 1. unfold emit at 1.
    destruct libs as [|lib libs].
    + unfold bind at 1. unfold print at 1. unfold emit at 1.
      match goal with
      | |- context [bind (ask_user ?s ?q ?d) ?k ?w3] =>
          destruct (ask_user_run s q d w3) as (w4 & Hf4 & E4);
          rewrite (bind_return _ _ _ _ _ _ _ E4)
      end.
      simpl files in Hf4. exists w4. split; [congruence|reflexivity].
    + unfold bind at 1. unfold print at 1. unfold emit at 1.
      match goal with
      | |- context [bind (ask_user ?s ?q ?d) ?k ?w3] =>
          destruct (ask_user_run s q d w3) as (w4 & Hf4 & E4);
          rewrite (bind_return _ _ _ _ _ _ _ E4)
      end.
      simpl files in Hf4. exists w4. split; [congruence|reflexivity].
  - left. exists msg. unfold main.
    now rewrite (bind_raise _ _ _ _ _ _ _ E).
Qed.

End WholeRun.

Lemma same_paths_refl (f : fs) : same_paths f f.
Proof. reflexivity. Qed.

Lemma same_paths_trans (a b c : fs) :
  same_paths a b -> same_paths b c -> same_paths a c.
Proof. unfold same_paths. congruence. Qed.

Lemma same_dirs_refl (f : fs) : same_dirs f f.
Proof. intros p H. exact H. Qed.

Lemma same_dirs_trans (a b c : fs) :
  same_dirs a b -> same_dirs b c -> same_dirs a c.
Proof. intros Hab Hbc p H. apply Hbc, Hab, H. Qed.

Lemma write_text_same_dirs (linesep path s : text) :
  keeps same_dirs (write_text linesep path s).
Proof.
  intros w p Hp. unfold write_text.
  destruct (fs_lookup (files w) path) as [[data|]|] eqn:L; simpl;
    try exact Hp.
  - rewrite fs_lookup_store_other; [exact Hp|]. intros ->. congruence.
  - rewrite fs_lookup_store_other; [exact Hp|]. intros ->. congruence.
Qed.

Lemma write_text_same_except_in (touched : text -> Prop)
    (linesep path s : text) :
  touched path -> keeps (same_except touched) (write_text linesep path s).
Proof.
  intros Ht w other Hn. apply write_text_same_except. intros ->. tauto.
Qed.

(** The loops of [main] keep what each pass keeps on the paths of the
    eligible entries. *)
Section Walked.

Variable Rel : fs -> fs -> Prop.
Hypothesis Rel_refl : forall f, Rel f f.
Hypothesis Rel_trans : forall a b c, Rel a b -> Rel b c -> Rel a c.

Variable md5_state : Type.
Variable md5_new : md5_state.
Variable md5_update : md5_state -> bytes -> md5_state.
Variable md5_hexdigest : md5_state -> text.
Variable linesep : text.

Variable touched : text -> Prop.
Hypothesis keeps_enums : forall path table,
  touched path ->
  keeps Rel (replace_enums md5_new md5_update md5_hexdigest linesep path
               table).
Hypothesis keeps_inputs : forall path table,
  touched path ->
  keeps Rel (replace_inputs md5_new md5_update md5_hexdigest linesep path
               table).
Hypothesis keeps_fbs : forall path fb ty rem,
  touched path ->
  keeps Rel (replace_fbs_and_types md5_new md5_update md5_hexdigest linesep
               path fb ty rem).

Lemma keeps_process_entry (t : totals) (entry : text * text) :
  (eligible entry = true -> touched (path_join (fst entry) (snd entry))) ->
  keeps Rel (process_entry md5_new md5_update md5_hexdigest linesep t entry).
Proof.
  destruct entry as [root file]. unfold eligible, process_entry.
  cbn [fst snd]. intros Ht.
  destruct (contains "Libraries" root); [now apply keeps_ret|].
  destruct (endswith_any file [".st" : text; ".c" : text; ".cpp" : text;
                               ".ab" : text]).
  - specialize (Ht eq_refl).
    apply keeps_bind; [assumption| |].
    { now apply keeps_warn_inputs. }
    intros _. apply keeps_bind; [assumption| |].
    { now apply keeps_enums. }
    intros [n changed]. apply keeps_bind; [assumption| |].
    { now apply keeps_inputs. }
    intros [n' changed']. now apply keeps_ret.
  - destruct (endswith_any file [".typ" : text; ".var" : text;
                                 ".fun" : text]).
    + specialize (Ht eq_refl).
      apply keeps_bind; [assumption| |].
      { now apply keeps_fbs. }
      intros [[n1 n2] changed]. now apply keeps_ret.
    + now apply keeps_ret.
Qed.

Lemma keeps_process_entries (entries : list (text * text)) :
  (forall entry, In entry entries -> eligible entry = true ->
                 touched (path_join (fst entry) (snd entry))) ->
  forall t,
    keeps Rel
      (process_entries md5_new md5_update md5_hexdigest linesep t entries).
Proof.
  induction entries as [|e rest IH]; intros Ht t; simpl.
  - now apply keeps_ret.
  - apply keeps_bind; [assumption| |].
    + apply keeps_process_entry. intros He. apply Ht; [now left|exact He].
    + intros t'. apply IH. intros entry Hin. apply Ht. now right.
Qed.

Lemma migrate_keeps (project_path : text) (w : world) :
  (forall entry,
      In entry (walk (files w) (path_join project_path "Logical")) ->
      eligible entry = true ->
      touched (path_join (fst entry) (snd entry))) ->
  Rel (files w)
      (files (snd (migrate md5_new md5_update md5_hexdigest linesep
                     project_path w))).
Proof.
  intros Ht. unfold migrate.
  match goal with
  | |- Rel _ (files (snd (?m w))) =>
      assert (K : keeps Rel m); [|exact (K w)]
  end.
  apply keeps_bind; [assumption| |].
  { now apply keeps_process_entries. }
  intros t. repeat (apply keeps_bind;
            [assumption|now apply keeps_print|intros _]).
  match goal with
  | |- keeps _ (if ?b then _ else _) => destruct b
  end; now apply keeps_print.
Qed.

End Walked.

Section Frame.

Variable md5_state : Type.
Variable md5_new : md5_state.
Variable md5_update : md5_state -> bytes -> md5_state.
Variable md5_hexdigest : md5_state -> text.
Variable linesep : text.

Local Abbreviation the_run :=
  (main md5_new md5_update md5_hexdigest linesep).
Local Abbreviation the_rewrite :=
  (migrate md5_new md5_update md5_hexdigest linesep).

Lemma migrate_same_paths (project_path : text) (w : world) :
  same_paths (files w) (files (snd (the_rewrite project_path w))).
Proof.
  apply migrate_keeps with (Rel := same_paths) (touched := fun _ => True);
    try (exact same_paths_refl || exact same_paths_trans || tauto);
    intros; intros w0.
  - apply (replace_enums_confined _ md5_new md5_update md5_hexdigest linesep
             path table w0).
  - apply (replace_inputs_confined _ md5_new md5_update md5_hexdigest
             linesep path table w0).
  - apply (replace_fbs_and_types_confined _ md5_new md5_update
             md5_hexdigest linesep path fb ty rem w0).
Qed.

Lemma migrate_same_dirs (project_path : text) (w : world) :
  same_dirs (files w) (files (snd (the_rewrite project_path w))).
Proof.
  apply migrate_keeps with (Rel := same_dirs) (touched := fun _ => True);
    try (exact same_dirs_refl || exact same_dirs_trans || tauto); intros.
  - apply keeps_replace_enums;
      [exact same_dirs_refl|exact same_dirs_trans|].
    intros s. apply write_text_same_dirs.
  - apply keeps_replace_inputs;
      [exact same_dirs_refl|exact same_dirs_trans|].
    intros s. apply write_text_same_dirs.
  - apply keeps_replace_fbs_and_types;
      [exact same_dirs_refl|exact same_dirs_trans|].
    intros s. apply write_text_same_dirs.
Qed.

Lemma migrate_same_except (project_path : text) (w : world) :
  same_except (handed_to_a_pass (files w) project_path)
    (files w) (files (snd (the_rewrite project_path w))).
Proof.
  apply migrate_keeps
    with (Rel := same_except (handed_to_a_pass (files w) project_path))
         (touched := handed_to_a_pass (files w) project_path).
  - exact (same_except_refl _).
  - exact (same_except_trans _).
  - intros. apply keeps_replace_enums;
      [exact (same_except_refl _)|exact (same_except_trans _)|].
    intros s. now apply write_text_same_except_in.
  - intros. apply keeps_replace_inputs;
      [exact (same_except_refl _)|exact (same_except_trans _)|].
    intros s. now apply write_text_same_except_in.
  - intros. apply keeps_replace_fbs_and_types;
      [exact (same_except_refl _)|exact (same_except_trans _)|].
    intros s. now apply write_text_same_except_in.
  - intros entry Hin He. now exists entry.
Qed.

(** X4.  A run of [main], whatever the answer and whatever it ends with,
    leaves the list of paths as it was, leaves every directory a directory,
    and leaves every path its node but those it hands to a pass: the
    entries of the walk below [Logical] that have no "Libraries" in their
    folder and end with one of the seven suffixes. *)
Theorem run_touches_only_program_files (argv0 project_path : text)
    (verbose : bool) (stdin : stdin_state) (w : world) :
  let after :=
    files (snd (the_run argv0 project_path verbose stdin w)) in
  map fst after = map fst (files w)
  /\ (forall p, fs_lookup (files w) p = Some Dir ->
                fs_lookup after p = Some Dir)
  /\ (forall p, ~ handed_to_a_pass (files w) project_path p ->
                fs_lookup after p = fs_lookup (files w) p).
Proof.
  destruct (main_prologue _ md5_new md5_update md5_hexdigest linesep
              argv0 project_path verbose stdin w)
    as [(msg & E)|(w' & Hf & E)]; cbv zeta; rewrite E.
  - simpl. repeat split; auto.
  - destruct (proceeds (answer stdin "y")).
    + rewrite <- Hf. split; [|split].
      * apply migrate_same_paths.
      * apply migrate_same_dirs.
      * apply migrate_same_except.
    + simpl. rewrite Hf. repeat split; auto.
Qed.

(** X5.  On an answer other than a bare return or "y" - in any case, with
    blanks around it - no file is changed: the run stops at the project
    check with exit status 1, or it returns normally and the last thing it
    prints is that the operation was cancelled. *)
Theorem declined_run_changes_nothing (argv0 project_path : text)
    (verbose : bool) (stdin : stdin_state) (w : world) :
  proceeds (answer stdin "y") = false ->
  let run := the_run argv0 project_path verbose stdin w in
  files (snd run) = files w
  /\ ((exists msg,
          run = (Raise (SystemExit 1),
                 World (files w) (console w ++ [Out Stderr msg])))
      \/ (fst run = Return tt
          /\ exists before,
               console (snd run)
               = before ++ [Out Stdout (cancelled ++ [LF])])).
Proof.
  intros Hno.
  destruct (main_prologue _ md5_new md5_update md5_hexdigest linesep
              argv0 project_path verbose stdin w)
    as [(msg & E)|(w' & Hf & E)]; cbv zeta; rewrite E.
  - split; [reflexivity|]. left. now exists msg.
  - rewrite Hno. split; [exact Hf|]. right. split; [reflexivity|].
    now exists (console w').
Qed.

End Frame.

Lemma declined_run_changes_nothing_witness :
  let run :=
    main Sample.plain_new Sample.plain_update Sample.plain_hexdigest
      Sample.posix_linesep "mappmotion_update.py" "/proj" true
      (Terminal " No ") Sample.bare_project in
  files (snd run) = files Sample.bare_project
  /\ ((exists msg,
          run = (Raise (SystemExit 1),
                 World (files Sample.bare_project)
                   (console Sample.bare_project ++ [Out Stderr msg])))
      \/ (fst run = Return tt
          /\ exists before,
               console (snd run)
               = before ++ [Out Stdout (cancelled ++ [LF])])).
Proof.
  apply (declined_run_changes_nothing bytes Sample.plain_new
           Sample.plain_update Sample.plain_hexdigest Sample.posix_linesep
           "mappmotion_update.py" "/proj" true (Terminal " No ")
           Sample.bare_project).
  reflexivity.
Defined.

(** X6.  The project check has two outcomes.  It returns the name of an
    entry of the project folder, a name that ends with ".apj", and prints
    nothing; or it ends with exit status 1 after one message on standard
    error, which happens when the path does not exist or no entry of the
    folder has a name ending with ".apj" - and then [main] ends in that same
    way, with nothing else printed and no file changed. *)
Theorem failed_project_check_ends_the_run (md5_state : Type)
    (md5_new : md5_state) (md5_update : md5_state -> bytes -> md5_state)
    (md5_hexdigest : md5_state -> text) (linesep : text)
    (argv0 project_path : text) (verbose : bool) (stdin : stdin_state)
    (w : world) :
  let r := get_and_check_project_file argv0 project_path w in
  (exists apj_file,
      r = (Return apj_file, w)
      /\ endswith apj_file ".apj" = true
      /\ exists p, In p (children (files w) project_path)
                   /\ basename p = apj_file)
  \/ (exists msg,
        let stopped :=
          World (files w) (console w ++ [Out Stderr msg]) in
        r = (Raise (SystemExit 1), stopped)
        /\ main md5_new md5_update md5_hexdigest linesep argv0 project_path
             verbose stdin w = (Raise (SystemExit 1), stopped)
        /\ (fs_lookup (files w) project_path = None
            \/ forall p, In p (children (files w) project_path) ->
                         endswith (basename p) ".apj" = false)).
Proof.
  destruct (project_check_run argv0 project_path w)
    as [Hok|(msg & E & Hwhy)]; [now left|right].
  exists msg. cbv zeta. split; [exact E|split; [|exact Hwhy]].
  unfold main. now rewrite (bind_raise _ _ _ _ _ _ _ E).
Qed.

(** ** Warnings *)

Lemma scan_lit_found (k repl : text) (s : text) :
  contains k s = true ->
  forall prev pos, snd (Re.scan (Re.Lit k) repl 0 prev pos s) <> [].
Proof.
  induction s as [|c s IH]; intros H prev pos.
  - simpl in H. rewrite orb_false_r in H. cbn [Re.scan Re.match_here].
    rewrite H. discriminate.
  - cbn [Re.scan Re.match_here Re.literal].
    destruct (startswith k (c :: s)) eqn:E.
    + destruct (length k);
        destruct (Re.scan (Re.Lit k) repl _ (Some c) (S pos) s);
        discriminate.
    + cbn [contains] in H. rewrite E in H. simpl in H.
      specialize (IH H (Some c) (S pos)).
      destruct (Re.scan (Re.Lit k) repl 0 (Some c) (S pos) s). exact IH.
Qed.

Lemma findall_lit_contains (k s : text) :
  match Re.findall (Re.Lit k) s with
  | [] => contains k s = false
  | _ :: _ => contains k s = true
  end.
Proof.
  unfold Re.findall. destruct (contains k s) eqn:E.
  - pose proof (scan_lit_found k [] s E None 0) as H.
    fold (Re.finditer (Re.Lit k) s) in H.
    destruct (Re.finditer (Re.Lit k) s); [congruence|reflexivity].
  - now rewrite (finditer_absent (Re.Lit k) s E).
Qed.

Lemma warn_each_run (table : mapping) (content : text) :
  forall w,
    warn_each table content w
    = (Return tt,
       World (files w)
         (console w
          ++ map warning
               (filter (fun rule => contains (fst rule) content) table))).
Proof.
  induction table as [|[old new] rest IH]; intros w.
  - simpl. rewrite app_nil_r. now destruct w.
  - cbn [warn_each filter fst]. pose proof (findall_lit_contains old content) as H.
    destruct (Re.findall (Re.Lit old) content); rewrite H.
    + unfold bind at 1. unfold ret at 1. apply IH.
    + unfold bind at 1. unfold print, emit. rewrite IH. cbn [files console map].
      unfold warning at 2. cbn [fst snd]. now rewrite <- app_assoc.
Qed.

(** X7.  [warn_inputs] on a file prints one warning for every rule of its
    table whose key occurs in the text of the file - as a substring, inside
    a longer word as well - in the order of the table, once per rule
    however often the key occurs; it returns normally and changes no
    file. *)
Theorem warnings_name_the_keys_that_occur (path : text) (table : mapping)
    (w : world) (data : bytes) :
  fs_lookup (files w) path = Some (File data) ->
  warn_inputs path table w
  = (Return tt,
     World (files w)
       (console w
        ++ map warning
             (filter (fun rule =>
                        contains (fst rule)
                          (universal_newlines (decode_latin1 data)))
                     table))).
Proof.
  intros L. unfold warn_inputs.
  rewrite (bind_return _ _ _ _ _ _ _ (read_text_file _ _ _ L)).
  apply warn_each_run.
Qed.

Lemma warnings_name_the_keys_that_occur_witness :
  warn_inputs "Main.st" input_mapping_warning stop_file
  = (Return tt,
     World (files stop_file)
       [warning ("StopMode" : text, "AdvancedParameters.StopMode" : text)]).
Proof.
  rewrite (warnings_name_the_keys_that_occur "Main.st"
             input_mapping_warning stop_file
             (encode_latin1 stop_text) eq_refl).
  reflexivity.
Defined.

(** ** Running a pass again *)

Lemma identifier_word_chars (v : text) :
  Re.identifier v = true -> forallb Re.is_word_char v = true.
Proof. destruct v; [discriminate|easy]. Qed.

Lemma identifier_cr_free (v : text) :
  Re.identifier v = true -> cr_free v = true.
Proof.
  intros H. apply identifier_word_chars in H. unfold cr_free.
  apply negb_true_iff. induction v as [|c v IH]; [reflexivity|].
  simpl in H. apply andb_true_iff in H as [Hc Hv]. cbn [existsb].
  rewrite (IH Hv), orb_false_r.
  destruct (Ascii.eqb CR c) eqn:E; [|reflexivity].
  apply Ascii.eqb_eq in E. subst c. discriminate.
Qed.

Lemma identifier_literal (v : text) :
  Re.identifier v = true -> Re.literal_template v = true.
Proof.
  intros H. apply identifier_word_chars in H. unfold Re.literal_template.
  apply negb_true_iff. induction v as [|c v IH]; [reflexivity|].
  simpl in H. apply andb_true_iff in H as [Hc Hv]. cbn [existsb].
  rewrite (IH Hv), orb_false_r.
  match goal with |- Ascii.eqb ?b c = false => destruct (Ascii.eqb b c) eqn:E end;
    [|reflexivity].
  apply Ascii.eqb_eq in E. subst c. discriminate.
Qed.

Lemma identifier_table_literal (table : mapping) :
  identifier_table table = true ->
  literal_table (fun new => new) table = true
  /\ cr_free_table (fun new => new) table = true.
Proof.
  induction table as [|[old new] rest IH]; [easy|]. simpl.
  intros H. apply andb_true_iff in H as [H Hrest].
  apply andb_true_iff in H as [_ Hnew]. destruct (IH Hrest) as [Hl Hc].
  now rewrite Hl, Hc, identifier_literal, identifier_cr_free.
Qed.

(** Renaming a token to an identifier renames it in the list of tokens. *)
Lemma tokens_rename (old new s : text) :
  Re.identifier old = true -> Re.identifier new = true ->
  Re.tokens (Re.rename_token old new s)
  = map (fun t => if text_eqb t old then new else t) (Re.tokens s).
Proof.
  intros Hold Hnew.
  induction s as [|c s Hc IH|w rest Hw Hrest IH] using token_ind.
  - reflexivity.
  - rewrite rename_token_sep by assumption.
    rewrite !tokens_sep_cons by assumption. cbn [map]. rewrite IH.
    destruct (text_eqb [c] old) eqn:E; [|reflexivity].
    apply text_eqb_eq in E. subst old. simpl in Hold. rewrite Hc in Hold.
    discriminate.
  - rewrite rename_token_word by assumption.
    rewrite (tokens_word_app w rest) by assumption. cbn [map].
    rewrite <- IH.
    assert (Hs : Re.sep_head (Re.rename_token old new rest) = true)
      by now apply rename_token_sep_head.
    destruct (text_eqb w old); now rewrite tokens_word_app.
Qed.

Lemma count_token_rename (k old new s : text) :
  Re.identifier old = true -> Re.identifier new = true -> new <> k ->
  Re.count_token k (Re.rename_token old new s)
  = if text_eqb k old then 0 else Re.count_token k s.
Proof.
  intros Hold Hnew Hne. unfold Re.count_token.
  rewrite tokens_rename by assumption.
  induction (Re.tokens s) as [|t ts IH]; [now destruct (text_eqb k old)|].
  cbn [map]. destruct (text_eqb t old) eqn:Et.
  - apply text_eqb_eq in Et. subst t.
    rewrite count_occ_cons_neq by exact Hne. rewrite IH.
    destruct (text_eqb k old) eqn:Ek; [reflexivity|].
    apply text_eqb_neq in Ek. rewrite count_occ_cons_neq; congruence.
  - apply text_eqb_neq in Et. destruct (text_eqb k old) eqn:Ek.
    + apply text_eqb_eq in Ek. subst k.
      rewrite count_occ_cons_neq by exact Et. exact IH.
    + destruct (text_dec t k) as [->|Hn].
      * rewrite !count_occ_cons_eq by reflexivity. now rewrite IH.
      * rewrite !count_occ_cons_neq by exact Hn. exact IH.
Qed.

Lemma rename_token_absent (old new s : text) :
  Re.count_token old s = 0 -> Re.rename_token old new s = s.
Proof.
  unfold Re.count_token, Re.rename_token. intros H.
  rewrite <- (concat_tokens s) at 2. f_equal.
  induction (Re.tokens s) as [|t ts IH]; [reflexivity|].
  destruct (text_dec t old) as [->|Hn].
  - rewrite count_occ_cons_eq in H by reflexivity. discriminate.
  - rewrite count_occ_cons_neq in H by exact Hn. cbn [map].
    rewrite (IH H). apply text_eqb_neq in Hn. now rewrite Hn.
Qed.

(** The renaming loop leaves no token that is a key, where no new name
    is. *)
Lemma rewritten_clears (k : text) (table : mapping) :
  identifier_table table = true -> never_renamed_to k table = true ->
  forall content count,
    Re.count_token k content = 0 \/ In k (map fst table) ->
    Re.count_token k
      (fst (rewritten Re.WordLit (fun new => new) table content count)) = 0.
Proof.
  induction table as [|[old new] rest IH]; intros Hid Hk content count H.
  - destruct H as [H|[]]. exact H.
  - simpl in Hid, Hk. apply andb_true_iff in Hid as [Hrule Hid].
    apply andb_true_iff in Hrule as [Hold Hnew].
    apply andb_true_iff in Hk as [Hne Hk].
    apply negb_true_iff, text_eqb_neq in Hne.
    cbn [rewritten]. rewrite subn_word_tokens by exact Hold.
    apply (IH Hid Hk).
    rewrite count_token_rename by assumption.
    destruct (text_eqb k old) eqn:E; [now left|].
    apply text_eqb_neq in E. destruct H as [H|[H|H]]; [now left| |now right].
    simpl in H. congruence.
Qed.

(** Where no key is a token, the renaming loop changes and counts
    nothing. *)
Lemma rewritten_no_tokens (table : mapping) (content : text) :
  identifier_table table = true ->
  (forall k, In k (map fst table) -> Re.count_token k content = 0) ->
  forall count,
    rewritten Re.WordLit (fun new => new) table content count
    = (content, count).
Proof.
  induction table as [|[old new] rest IH]; intros Hid H count;
    [reflexivity|].
  simpl in Hid. apply andb_true_iff in Hid as [Hrule Hid].
  apply andb_true_iff in Hrule as [Hold Hnew].
  cbn [rewritten]. rewrite subn_word_tokens by exact Hold.
  rewrite rename_token_absent by (apply H; now left).
  rewrite (H old) by now left. rewrite Nat.add_0_r.
  apply (IH Hid). intros k Hin. apply H. now right.
Qed.

Lemma rewrite_log_no_tokens (msg : nat -> text -> text -> text)
    (table : mapping) (content : text) :
  identifier_table table = true ->
  (forall k, In k (map fst table) -> Re.count_token k content = 0) ->
  rewrite_log Re.WordLit (fun new => new) msg table content = [].
Proof.
  induction table as [|[old new] rest IH]; intros Hid H; [reflexivity|].
  simpl in Hid. apply andb_true_iff in Hid as [Hrule Hid].
  apply andb_true_iff in Hrule as [Hold Hnew].
  cbn [rewrite_log]. rewrite subn_word_tokens by exact Hold.
  rewrite rename_token_absent by (apply H; now left).
  rewrite (H old) by now left. cbn [Nat.ltb Nat.leb app].
  apply (IH Hid). intros k Hin. apply H. now right.
Qed.

Lemma never_renamed_to_app (k : text) (a b : mapping) :
  never_renamed_to k (a ++ b) = true ->
  never_renamed_to k a = true /\ never_renamed_to k b = true.
Proof.
  unfold never_renamed_to. rewrite forallb_app. apply andb_true_iff.
Qed.

Section Again.

Variable md5_state : Type.
Variable md5_new : md5_state.
Variable md5_update : md5_state -> bytes -> md5_state.
Variable md5_hexdigest : md5_state -> text.
Variable linesep : text.
Hypothesis linesep_known : is_linesep linesep = true.

Lemma settle_left_behind (w : world) (path : text) (data : bytes)
    (original modified notice : text) :
  fs_lookup (files w) path = Some (File data) ->
  fs_lookup
    (files (snd (settle md5_new md5_update md5_hexdigest linesep path data
                   original modified notice w)))
    path
  = Some (File (left_behind linesep data original modified)).
Proof.
  intros L. unfold settle, left_behind.
  destruct (text_eqb modified original); [exact L|].
  destruct (text_eqb _ _); cbn [snd files]; apply fs_lookup_store.
Qed.

Lemma left_behind_read (data : bytes) (modified : text) :
  cr_free modified = true ->
  universal_newlines
    (decode_latin1
       (left_behind linesep data (universal_newlines (decode_latin1 data))
          modified))
  = modified.
Proof.
  intros Hm. unfold left_behind.
  destruct (text_eqb modified (universal_newlines (decode_latin1 data)))
    eqn:E.
  - apply text_eqb_eq in E. now rewrite E.
  - unfold written. now apply read_back.
Qed.

Lemma settle_unchanged (w : world) (path : text) (data : bytes)
    (content notice : text) :
  settle md5_new md5_update md5_hexdigest linesep path data content content
    notice w = (false, w).
Proof. unfold settle. now rewrite text_eqb_refl. Qed.

(** X8.  The declaration pass settles in one run.  For tables of
    identifiers in which no new name is a key - the tables of [main] are
    such - on a file that is there: running [replace_fbs_and_types] a second
    time, on what the first run left, replaces nothing, reports no change
    and leaves every file as the first run left it. *)
Theorem declaration_pass_settles_in_one_run (w : world) (path : text)
    (data : bytes) (fb_table type_table removal_table : mapping) :
  fs_lookup (files w) path = Some (File data) ->
  settled_tables fb_table type_table = true ->
  let pass :=
    replace_fbs_and_types md5_new md5_update md5_hexdigest linesep path
      fb_table type_table removal_table in
  let once := snd (pass w) in
  fst (pass once) = Return (0, 0, false)
  /\ files (snd (pass once)) = files once.
Proof.
  intros L Hs. unfold settled_tables in Hs.
  apply andb_true_iff in Hs as [Hs Hkeys].
  apply andb_true_iff in Hs as [Hfb Hty].
  destruct (identifier_table_literal _ Hfb) as [Lfb Cfb].
  destruct (identifier_table_literal _ Hty) as [Lty Cty].
  rewrite forallb_forall in Hkeys.
  cbv zeta.
  rewrite (replace_fbs_and_types_run _ _ _ _ _ w path data fb_table
             type_table removal_table L Lfb Lty).
  cbv zeta. cbn [snd].
  set (content := universal_newlines (decode_latin1 data)).
  set (r1 := rewritten Re.WordLit (fun new => new) fb_table content 0).
  set (r2 := rewritten Re.WordLit (fun new => new) type_table (fst r1) 0).
  match goal with
  | |- context [settle _ _ _ _ _ _ _ _ ?n ?w0] =>
      set (notice := n); set (w1 := w0)
  end.
  assert (L1 : fs_lookup (files w1) path = Some (File data)) by exact L.
  pose proof (settle_left_behind w1 path data content (fst r2) notice L1)
    as L2.
  assert (Hcr : cr_free (fst r2) = true).
  { apply rewritten_cr_free; [exact Cty|].
    apply rewritten_cr_free; [exact Cfb|].
    apply universal_newlines_cr_free. }
  assert (Hclear : forall k, In k (map fst (fb_table ++ type_table)) ->
                             Re.count_token k (fst r2) = 0).
  { intros k Hin. destruct (never_renamed_to_app _ _ _ (Hkeys k Hin))
      as [Nfb Nty].
    apply (rewritten_clears k type_table Hty Nty).
    rewrite map_app in Hin. apply in_app_or in Hin as [Hin|Hin];
      [left|now right].
    apply (rewritten_clears k fb_table Hfb Nfb). now right. }
  rewrite (replace_fbs_and_types_run _ _ _ _ _ _ _ _ _ _ _ L2 Lfb Lty).
  cbv zeta. unfold content. rewrite (left_behind_read data (fst r2) Hcr).
  rewrite (rewritten_no_tokens fb_table (fst r2) Hfb)
    by (intros k Hin; apply Hclear; rewrite map_app; apply in_or_app;
        now left).
  cbn [fst snd].
  rewrite (rewritten_no_tokens type_table (fst r2) Hty)
    by (intros k Hin; apply Hclear; rewrite map_app; apply in_or_app;
        now right).
  cbn [fst snd]. rewrite !settle_unchanged. now split.
Qed.

End Again.

Lemma declaration_pass_settles_in_one_run_witness :
  let pass :=
    replace_fbs_and_types Sample.plain_new Sample.plain_update
      Sample.plain_hexdigest Sample.posix_linesep "Types.typ"
      fb_mapping type_mapping fb_removal_mapping in
  let once := snd (pass Sample.removal_file) in
  fst (pass once) = Return (0, 0, false)
  /\ files (snd (pass once)) = files once.
Proof.
  apply (declaration_pass_settles_in_one_run bytes Sample.plain_new
           Sample.plain_update Sample.plain_hexdigest Sample.posix_linesep
           eq_refl Sample.removal_file "Types.typ"
           (encode_latin1 Sample.removal_text) fb_mapping type_mapping
           fb_removal_mapping eq_refl).
  vm_compute. reflexivity.
Defined.

(** ** Module types *)

Lemma until_quote_spec (s v : text) :
  until_quote s = Some v ->
  quote_free v = true /\ startswith (v ++ [dquote]) s = true.
Proof.
  revert v. induction s as [|c s IH]; intros v; [discriminate|].
  cbn [until_quote]. destruct (Ascii.eqb c dquote) eqn:E.
  - intros [= <-]. split; [reflexivity|]. cbn [app startswith].
    rewrite Ascii.eqb_sym, E. reflexivity.
  - destruct (until_quote s) as [u|]; [|discriminate]. intros [= <-].
    destruct (IH u eq_refl) as [Hq Hs]. split.
    + unfold quote_free in *. cbn [existsb]. rewrite Ascii.eqb_sym, E.
      exact Hq.
    + cbn [app startswith]. now rewrite Ascii.eqb_refl.
Qed.

Lemma startswith_contains (k s : text) :
  startswith k s = true -> contains k s = true.
Proof. intros H. destruct s; simpl in *; now rewrite H. Qed.

Lemma contains_cons_later (k : text) (c : ascii) (s : text) :
  contains k s = true -> contains k (c :: s) = true.
Proof. intros H. cbn [contains]. rewrite H. apply orb_true_r. Qed.

Lemma contains_skipn (k s : text) (n : nat) :
  contains k (skipn n s) = true -> contains k s = true.
Proof.
  revert s. induction n as [|n IH]; intros s; [easy|].
  destruct s as [|c s]; [easy|]. cbn [skipn]. intros H.
  apply contains_cons_later. now apply IH.
Qed.

(** The attribute as it stands in the text: [Type=Q], the value, [Q]. *)
Local Abbreviation attribute v := ("Type=" ++ [dquote] ++ v ++ [dquote]).

Lemma startswith_app_both (a k s : text) :
  startswith a s = true -> startswith k (skipn (length a) s) = true ->
  startswith (a ++ k) s = true.
Proof.
  revert s. induction a as [|x a IH]; intros s Ha Hk; [exact Hk|].
  destruct s as [|c s]; [discriminate|]. cbn [startswith] in Ha.
  apply andb_true_iff in Ha as [Hx Ha]. cbn [app startswith].
  rewrite Hx. cbn [length skipn] in Hk. now apply IH.
Qed.

Lemma type_here_spec (s v : text) (n : nat) :
  type_here s = Some (v, n) ->
  v <> [] /\ quote_free v = true /\ startswith (attribute v) s = true.
Proof.
  unfold type_here.
  destruct (startswith ("Type=" ++ [dquote]) s) eqn:E; [|discriminate].
  destruct (until_quote (skipn 6 s)) as [[|c u]|] eqn:U; try discriminate.
  intros [= <- _]. destruct (until_quote_spec _ _ U) as [Hq Hs].
  split; [discriminate|]. split; [exact Hq|].
  change (attribute (c :: u))
    with (("Type=" ++ [dquote]) ++ ((c :: u) ++ [dquote])).
  now apply startswith_app_both.
Qed.

Lemma type_attribute_spec (s v : text) (n : nat) :
  type_attribute s = Some (v, n) ->
  v <> [] /\ quote_free v = true /\ contains (attribute v) s = true.
Proof.
  revert n. induction s as [|c s IH]; intros n.
  - cbn [type_attribute]. intros H.
    destruct (type_here_spec _ _ _ H) as (H1 & H2 & H3).
    split; [exact H1|split; [exact H2|]]. now apply startswith_contains.
  - cbn [type_attribute].
    assert (Hhere : type_here (c :: s) = Some (v, n) ->
                    v <> [] /\ quote_free v = true
                    /\ contains (attribute v) (c :: s) = true).
    { intros H. destruct (type_here_spec _ _ _ H) as (H1 & H2 & H3).
      split; [exact H1|split; [exact H2|]]. now apply startswith_contains. }
    destruct (Ascii.eqb c ">"); [exact Hhere|].
    destruct (type_attribute s) as [[u m]|]; [|exact Hhere].
    intros [= <- _]. destruct (IH m eq_refl) as (H1 & H2 & H3).
    split; [exact H1|split; [exact H2|]]. now apply contains_cons_later.
Qed.

Lemma module_types_from_spec (s : text) :
  forall skip v,
    In v (module_types_from skip s) ->
    v <> [] /\ quote_free v = true /\ contains (attribute v) s = true.
Proof.
  induction s as [|c s IH]; intros skip v; [intros []|].
  assert (Hlater : forall k, In v (module_types_from k s) ->
                     v <> [] /\ quote_free v = true
                     /\ contains (attribute v) (c :: s) = true).
  { intros k H. destruct (IH k v H) as (H1 & H2 & H3).
    split; [exact H1|split; [exact H2|]]. now apply contains_cons_later. }
  cbn [module_types_from]. destruct skip as [|k]; [|apply Hlater].
  destruct (startswith "<Module " (c :: s)); [|apply Hlater].
  destruct (type_attribute (skipn 8 (c :: s))) as [[u n]|] eqn:T;
    [|apply Hlater].
  intros [<-|H]; [|now apply (Hlater _ H)].
  destruct (type_attribute_spec _ _ _ T) as (H1 & H2 & H3).
  repeat split; try assumption. now apply contains_skipn in H3.
Qed.

(** X9.  Every module type the scan of a hardware file extracts is not
    empty, holds no double quote, and stands in the text as the value of
    an attribute [Type=Q...Q] (Q the double quote). *)
Theorem module_types_are_attribute_values (content v : text) :
  In v (module_types content) ->
  v <> []
  /\ quote_free v = true
  /\ contains ("Type=" ++ [dquote] ++ v ++ [dquote]) content = true.
Proof.
  unfold module_types. intros Hin.
  destruct (module_types_from_spec content 0 v Hin) as (Hne & Hq & Hc).
  split; [exact Hne|split; [exact Hq|exact Hc]].
Qed.

Lemma module_types_are_attribute_values_witness :
  ("X100" : text) <> []
  /\ quote_free "X100" = true
  /\ contains ("Type=" ++ [dquote] ++ "X100" ++ [dquote]) Sample.module_line
     = true.
Proof.
  apply (module_types_are_attribute_values Sample.module_line "X100").
  now left.
Defined.

(** ** [count_hardware] *)

Section SetDefault.

Variable V : Type.

Lemma dict_get_setdefault (d : Dict.t V) (k n : text) (v : V) :
  Dict.get (Dict.setdefault d k v) n
  = match Dict.get d n with
    | Some e => Some e
    | None => if text_eqb k n then Some v else None
    end.
Proof.
  unfold Dict.setdefault. destruct (Dict.get d k) eqn:G.
  - destruct (Dict.get d n) eqn:Gn; [reflexivity|].
    destruct (text_eqb k n) eqn:E; [|reflexivity].
    apply text_eqb_eq in E. congruence.
  - induction d as [|[k' v'] rest IH]; simpl in *.
    + reflexivity.
    + destruct (text_eqb k' n); [reflexivity|].
      apply IH. now destruct (text_eqb k' k).
Qed.

Lemma dict_keys_setdefault_nodup (d : Dict.t V) (k : text) (v : V) :
  NoDup (Dict.keys d) -> NoDup (Dict.keys (Dict.setdefault d k v)).
Proof.
  intros Hd. unfold Dict.setdefault. destruct (Dict.get d k) eqn:G.
  - exact Hd.
  - unfold Dict.keys. rewrite map_app. simpl.
    apply NoDup_app; [exact Hd|repeat constructor; intros []|].
    intros x Hx [<-|[]]. apply get_in_keys in Hx. congruence.
Qed.

End SetDefault.

Lemma fold_left_flat_map (A B C : Type) (f : A -> B -> A) (g : C -> list B)
    (l : list C) :
  forall a,
    fold_left (fun acc x => fold_left f (g x) acc) l a
    = fold_left f (flat_map g l) a.
Proof.
  induction l as [|x l IH]; intros a; simpl; [reflexivity|].
  now rewrite fold_left_app, IH.
Qed.

Lemma count_step_get (d : Dict.t counter) (x m : text) :
  Dict.get (count_step d x) m
  = if text_eqb x m
    then Some (Counter (match Dict.get d m with
                        | Some e => cnt e
                        | None => 0
                        end + 1))
    else Dict.get d m.
Proof.
  unfold count_step. destruct (text_eqb x m) eqn:E.
  - apply text_eqb_eq in E. subst x.
    rewrite get_update_same, dict_get_setdefault, text_eqb_refl.
    now destruct (Dict.get d m).
  - apply text_eqb_neq in E.
    rewrite get_update_other by exact E. rewrite dict_get_setdefault.
    apply text_eqb_neq in E. rewrite E. now destruct (Dict.get d m).
Qed.

Lemma count_fold_get (l : list text) (m : text) :
  forall d,
    Dict.get (fold_left count_step l d) m
    = counted_from (Dict.get d m) (count_occ text_dec l m).
Proof.
  induction l as [|x l IH]; intros d; [reflexivity|].
  cbn [fold_left]. rewrite IH, count_step_get.
  destruct (text_dec x m) as [->|Hn].
  - rewrite count_occ_cons_eq by reflexivity. rewrite text_eqb_refl.
    unfold counted_from. cbn [cnt].
    destruct (count_occ text_dec l m) as [|n]; [reflexivity|].
    do 2 f_equal. lia.
  - rewrite count_occ_cons_neq by exact Hn.
    apply text_eqb_neq in Hn. now rewrite Hn.
Qed.

Lemma count_fold_nodup (l : list text) :
  forall d, NoDup (Dict.keys d) ->
            NoDup (Dict.keys (fold_left count_step l d)).
Proof.
  induction l as [|x l IH]; intros d Hd; [exact Hd|].
  cbn [fold_left]. apply IH. unfold count_step.
  rewrite keys_update. now apply dict_keys_setdefault_nodup.
Qed.

(** X10.  [count_hardware] counts every match: for each module type, the
    dictionary holds under it the number of [Module] elements of that type
    in the hardware files below the folder, and holds no key for a type
    that none of them has; each type is a key once. *)
Theorem count_hardware_counts_every_module (read_file : text -> text)
    (files : fs) (folder module : text) :
  let result := count_hardware read_file files folder in
  let matches := modules_below read_file files folder in
  Dict.get result module
  = match count_occ text_dec matches module with
    | 0 => None
    | S n => Some (Counter (S n))
    end
  /\ (In module (Dict.keys result) <-> In module matches)
  /\ NoDup (Dict.keys result).
Proof.
  cbv zeta. unfold count_hardware, modules_below.
  rewrite fold_left_flat_map.
  set (matches := flat_map _ _).
  assert (G : Dict.get (fold_left count_step matches []) module
              = match count_occ text_dec matches module with
                | 0 => None
                | S n => Some (Counter (S n))
                end).
  { rewrite count_fold_get. unfold counted_from. cbn [Dict.get].
    now destruct (count_occ text_dec matches module). }
  split; [exact G|split].
  - rewrite <- get_in_keys, G.
    rewrite (count_occ_In text_dec matches module).
    destruct (count_occ text_dec matches module); split; intros H;
      try lia; try congruence; discriminate.
  - apply count_fold_nodup. constructor.
Qed.

(** ** What [check_hardware] reports *)

Section HardwareReport.

Variable read_file : text -> text.

Local Abbreviation hw_function :=
  (ProcessFunction "process_hw_file" (process_hw_file read_file)).

Lemma hw_scan_found (files : fs) (physical_path : text)
    (unsupported_hardware : catalog) (hardware_results : list hw_match) :
  scan_files_parallel files physical_path [".hw" : text]
    (OneFunction hw_function) unsupported_hardware (Flat hardware_results) ->
  hardware_results <> []
  <-> listed_module_found read_file files physical_path
        unsupported_hardware.
Proof.
  intros Hscan.
  destruct (scan_one_function _ _ _ _ _ _ _ _ Hscan) as (l & [= <-] & Hperm).
  cbn [call] in Hperm. unfold listed_module_found. split.
  - intros Hne. destruct hardware_results as [|x rest]; [congruence|].
    assert (Hx : In x (x :: rest)) by now left.
    apply (Permutation_in _ Hperm), in_flat_map in Hx
      as (file_path & Hpath & Hx).
    apply process_hw_file_in in Hx
      as (hw_type & reason & items & Ht & Hr & Hm & _).
    now exists file_path, hw_type, reason, items.
  - intros (file_path & hw_type & reason & items & Hpath & Ht & Hr & Hm) ->.
    apply Permutation_nil in Hperm.
    assert (Hx : In (hw_type, reason, file_path)
                   (flat_map
                      (fun p => process_hw_file read_file p
                                  unsupported_hardware)
                      (file_paths files physical_path [".hw" : text]))).
    { apply in_flat_map. exists file_path. split; [exact Hpath|].
      apply process_hw_file_in. now exists hw_type, reason, items. }
    rewrite Hperm in Hx. destruct Hx.
Qed.

(** X11.  Whenever [check_hardware] comes to its end - the scan has
    completed, in whatever order the pool completed its tasks, none of them
    having raised - what it has logged after its banner is decided by the
    files alone: one warning, tagged AS4, when some hardware file below the
    path holds a module that the catalog lists under a reason; otherwise
    nothing, or in verbose mode the one line that nothing was found. *)
Theorem hardware_warning_iff_listed_module (files : fs)
    (physical_path : text) (unsupported_hardware : catalog)
    (verbose : bool) (logs : list log_call) :
  check_hardware read_file files physical_path unsupported_hardware
    verbose logs ->
  let found :=
    listed_module_found read_file files physical_path unsupported_hardware in
  (found -> exists output,
              logs = [banner; LogCall output "AS4" "WARNING"])
  /\ (~ found ->
      logs = banner :: (if verbose then [nothing_found] else [])).
Proof.
  intros Hlogs. cbv zeta. destruct Hlogs as [hardware_results Hscan].
  pose proof (hw_scan_found _ _ _ _ Hscan) as Hfound.
  unfold report. destruct hardware_results as [|x rest].
  - split.
    + intros Hf. apply Hfound in Hf. congruence.
    + reflexivity.
  - split.
    + intros _. eexists. reflexivity.
    + intros Hn. exfalso. apply Hn, Hfound. discriminate.
Qed.

End HardwareReport.

Lemma hardware_warning_iff_listed_module_witness :
  listed_module_found Sample.same_module Sample.four_configs
    "/proj/Physical" Sample.eol_catalog
  /\ exists output,
       banner :: report Sample.four_results false
       = [banner; LogCall output "AS4" "WARNING"].
Proof.
  assert (Hfound : listed_module_found Sample.same_module
                     Sample.four_configs "/proj/Physical"
                     Sample.eol_catalog).
  { exists ("/proj/Physical/ConfigA/Hardware.hw" : text), ("X100" : text),
      ("EOL" : text), ["X100" : text].
    split; [|split; [|split]].
    - do 3 right. left. reflexivity.
    - left. reflexivity.
    - left. reflexivity.
    - reflexivity. }
  split; [exact Hfound|].
  apply (hardware_warning_iff_listed_module Sample.same_module
           Sample.four_configs "/proj/Physical" Sample.eol_catalog false
           (banner :: report Sample.four_results false)
           (@check_hardware_done Sample.same_module Sample.four_configs
              "/proj/Physical" Sample.eol_catalog false Sample.four_results
              (@scan_completed hw_match catalog Sample.four_configs
                 "/proj/Physical" [".hw" : text]
                 (OneFunction
                    (ProcessFunction "process_hw_file"
                       (process_hw_file Sample.same_module)))
                 Sample.eol_catalog _ (Permutation_refl _)))).
  exact Hfound.
Defined.

(** ** The length of a rewritten text *)

Lemma startswith_le (k s : text) :
  startswith k s = true -> length k <= length s.
Proof.
  revert s. induction k as [|a k IH]; intros s H; [apply Nat.le_0_l|].
  destruct s as [|b s]; [discriminate|]. cbn [startswith] in H.
  apply andb_true_iff in H as [_ H]. cbn [length].
  apply le_n_S. now apply IH.
Qed.

Lemma scan_length (p : Re.pattern) (repl : text) (s : text) :
  forall skip prev pos out ms,
    skip <= length s ->
    Re.scan p repl skip prev pos s = (out, ms) ->
    length out + length ms * length (Re.literal p) + skip
    = length s + length ms * length repl
    /\ length ms * length (Re.literal p) + skip <= length s.
Proof.
  induction s as [|c s IH]; intros skip prev pos out ms Hskip E.
  - cbn [length] in Hskip. assert (skip = 0) by lia. subst skip.
    cbn [Re.scan] in E.
    destruct (Re.match_here p prev []) eqn:M; inversion E; subst out ms.
    + apply match_here_startswith, startswith_nil_r in M.
      rewrite M. cbn [length]. lia.
    + cbn [length]. lia.
  - cbn [Re.scan] in E. cbn [length] in Hskip. destruct skip as [|k].
    + destruct (Re.match_here p prev (c :: s)) eqn:M.
      * apply match_here_startswith, startswith_le in M. cbn [length] in M.
        destruct (length (Re.literal p)) as [|k] eqn:Lk.
        -- destruct (Re.scan p repl 0 (Some c) (S pos) s) as [out' ms'] eqn:E'.
           inversion E; subst out ms.
           destruct (IH 0 _ _ _ _ (Nat.le_0_l _) E') as [H1 H2].
           rewrite length_app. cbn [length]. lia.
        -- destruct (Re.scan p repl k (Some c) (S pos) s) as [out' ms'] eqn:E'.
           inversion E; subst out ms.
           assert (Hk : k <= length s) by lia.
           destruct (IH k _ _ _ _ Hk E') as [H1 H2].
           rewrite length_app. cbn [length]. lia.
      * destruct (Re.scan p repl 0 (Some c) (S pos) s) as [out' ms'] eqn:E'.
        inversion E; subst out ms.
        destruct (IH 0 _ _ _ _ (Nat.le_0_l _) E') as [H1 H2].
        cbn [length]. lia.
    + assert (Hk : k <= length s) by lia.
      destruct (IH k _ _ _ _ Hk E) as [H1 H2]. cbn [length]. lia.
Qed.

(** X12.  A substitution changes the length of a text by the difference
    between the replacement and the key, once for every match it counts:
    with [n] the count, the length of the result plus [n] times the length
    of the key is the length of the text plus [n] times the length of the
    replacement.  The matches do not overlap: [n] keys fit into the text.
    This holds for the plain patterns of the enumerator pass and for the
    patterns between word boundaries alike. *)
Theorem substitution_length (p : Re.pattern) (repl s : text) :
  let (out, n) := Re.subn_literal p repl s in
  length out + n * length (Re.literal p) = length s + n * length repl
  /\ n * length (Re.literal p) <= length s.
Proof.
  unfold Re.subn_literal, Re.scan_n.
  destruct (Re.scan p repl 0 None 0 s) as [out ms] eqn:E.
  destruct (scan_length p repl s 0 None 0 out ms (Nat.le_0_l _) E)
    as [H1 H2].
  lia.
Qed.

(** ** Libraries found *)

(** X13.  [check_for_library] on a project with a package descriptor
    prints nothing and returns the names of the list that occur in the
    descriptor, each as often as the list names it: with the list of
    [main], which names McAcpAx twice, a project that uses McAcpAx has it
    found twice. *)
Theorem found_libraries_follow_the_list (project_path : text)
    (names : list text) (w : world) (data : bytes) (lib : text) :
  fs_lookup (files w) (package_file project_path) = Some (File data) ->
  exists found,
    check_for_library project_path names w = (Return found, w)
    /\ count_occ text_dec found lib
       = if contains lib (universal_newlines (decode_latin1 data))
         then count_occ text_dec names lib
         else 0.
Proof.
  intros L. eexists. split.
  - exact (check_for_library_found project_path names w data L).
  - apply (count_occ_filter
             (fun lib => contains lib (universal_newlines (decode_latin1 data)))).
Qed.

Lemma found_libraries_follow_the_list_witness :
  exists found,
    check_for_library "/proj" library_names library_project
    = (Return found, library_project)
    /\ count_occ text_dec found "McAcpAx" = 2.
Proof.
  destruct (found_libraries_follow_the_list "/proj" library_names
              library_project (encode_latin1 library_text) "McAcpAx"
              eq_refl) as (found & Hrun & Hcount).
  exists found. split; [exact Hrun|]. rewrite Hcount. reflexivity.
Defined.

(** ** Configuration names *)

Lemma slash_free_cons (c : ascii) (s : text) :
  slash_free (c :: s) = negb (Ascii.eqb c slash) && slash_free s.
Proof.
  unfold slash_free. cbn [existsb]. rewrite negb_orb.
  now rewrite (Ascii.eqb_sym slash c).
Qed.

Lemma split_slash_free (s : text) :
  slash_free s = true -> split_at_last_slash s = ([], s).
Proof.
  induction s as [|c s IH]; [reflexivity|].
  rewrite slash_free_cons. intros H. apply andb_true_iff in H as [Hc Hs].
  apply negb_true_iff in Hc. cbn [split_at_last_slash].
  now rewrite (IH Hs), Hc.
Qed.

Lemma split_at_last_slash_app (head tail : text) :
  slash_free tail = true ->
  split_at_last_slash (head ++ slash :: tail) = (head ++ [slash], tail).
Proof.
  intros Ht. induction head as [|c head IH].
  - cbn [app split_at_last_slash]. now rewrite (split_slash_free _ Ht).
  - cbn [app split_at_last_slash]. rewrite IH.
    now destruct (head ++ [slash]) eqn:E; [destruct head; discriminate|].
Qed.

Lemma rstrip_slashes_keep (x : text) (c : ascii) :
  Ascii.eqb c slash = false ->
  rstrip_slashes (x ++ [c; slash]) = x ++ [c].
Proof.
  intros Hc. induction x as [|a x IH].
  - cbn [app rstrip_slashes]. now rewrite Ascii.eqb_refl, Hc.
  - cbn [app rstrip_slashes]. rewrite IH. now destruct (x ++ [c]) eqn:E; [destruct x; discriminate|].
Qed.

Lemma dirname_app (head name tail : text) :
  name <> [] -> slash_free name = true -> slash_free tail = true ->
  dirname (head ++ name ++ slash :: tail) = head ++ name.
Proof.
  intros Hne Hn Ht. unfold dirname.
  rewrite app_assoc, split_at_last_slash_app by exact Ht. cbn [fst].
  destruct (exists_last Hne) as (x & c & ->).
  assert (Hc : Ascii.eqb c slash = false).
  { unfold slash_free in Hn. apply negb_true_iff in Hn.
    rewrite existsb_app in Hn. apply orb_false_iff in Hn as [_ Hn].
    cbn [existsb] in Hn. rewrite orb_false_r in Hn.
    now rewrite Ascii.eqb_sym. }
  rewrite <- !app_assoc. cbn [app].
  rewrite (app_assoc head x), rstrip_slashes_keep by exact Hc.
  rewrite <- app_assoc.
  now destruct (head ++ x ++ [c]) eqn:E;
    [destruct head; destruct x; discriminate|].
Qed.

(** X15.  The configuration a finding is reported under is the folder that
    holds the hardware file: for a path that ends with a folder name, a
    slash and a file name - two names without a slash, the first not
    empty - [config_name] is the folder name, whatever comes before it.
    A path without any slash has the empty configuration name. *)
Theorem config_name_is_the_holding_folder (above folder file : text) :
  folder <> [] -> slash_free folder = true -> slash_free file = true ->
  config_name (above ++ slash :: folder ++ slash :: file) = folder
  /\ config_name (folder ++ slash :: file) = folder
  /\ config_name file = [].
Proof.
  intros Hne Hfolder Hfile. unfold config_name. split; [|split].
  - change (above ++ slash :: folder ++ slash :: file)
      with (above ++ [slash] ++ folder ++ slash :: file).
    rewrite app_assoc, dirname_app by assumption.
    rewrite <- app_assoc. cbn [app]. unfold basename.
    now rewrite split_at_last_slash_app.
  - change (folder ++ slash :: file) with ([] ++ folder ++ slash :: file).
    rewrite (dirname_app [] folder file) by assumption. cbn [app].
    unfold basename. now rewrite split_slash_free.
  - unfold dirname, basename. rewrite (split_slash_free _ Hfile).
    reflexivity.
Qed.

Lemma config_name_is_the_holding_folder_witness :
  config_name Sample.hw_path = "Config1".
Proof.
  apply (config_name_is_the_holding_folder "/proj/Physical" "Config1"
           "Hardware.hw"); [discriminate|reflexivity|reflexivity].
Defined.

(** ** The declaration pass, token by token *)

Lemma never_renamed_to_not_key (table : mapping) (new : text) :
  (forall k, In k (map fst table) -> new <> k) ->
  is_key table new = false /\ renamed_by table new = new.
Proof.
  unfold is_key, renamed_by.
  induction table as [|[o n] rest IH]; intros H; [easy|].
  cbn [existsb find fst].
  assert (E : text_eqb o new = false).
  { apply text_eqb_neq. intros ->. now apply (H new); [left|]. }
  rewrite E. apply IH. intros k Hk. apply H. now right.
Qed.

Lemma renamed_by_cons (old new : text) (rest : mapping) (t : text) :
  renamed_by ((old, new) :: rest) t
  = if text_eqb old t then new else renamed_by rest t.
Proof. unfold renamed_by. cbn [find fst]. now destruct (text_eqb old t). Qed.

Lemma is_key_cons (old new : text) (rest : mapping) (t : text) :
  is_key ((old, new) :: rest) t = text_eqb old t || is_key rest t.
Proof. reflexivity. Qed.

Lemma count_occ_length_filter (l : list text) (k : text) :
  count_occ text_dec l k = length (filter (fun t => text_eqb k t) l).
Proof.
  induction l as [|t l IH]; [reflexivity|]. cbn [filter].
  destruct (text_dec t k) as [->|Hn].
  - rewrite count_occ_cons_eq by reflexivity. rewrite text_eqb_refl.
    cbn [length]. now rewrite IH.
  - rewrite count_occ_cons_neq by exact Hn.
    assert (E : text_eqb k t = false) by (apply text_eqb_neq; congruence).
    now rewrite E.
Qed.

(** A table of identifiers without a chain renames all at once: every
    token that is a key becomes the new name of its first rule, and the
    count is the number of such tokens. *)
Lemma rewritten_tokens (table : mapping) :
  identifier_table table = true -> no_chain table = true ->
  forall content count,
    rewritten Re.WordLit (fun new => new) table content count
    = (concat (map (renamed_by table) (Re.tokens content)),
       count + length (filter (is_key table) (Re.tokens content))).
Proof.
  induction table as [|[old new] rest IH]; intros Hid Hch content count.
  - cbn [rewritten filter is_key existsb]. unfold renamed_by. cbn [find].
    rewrite map_id, concat_tokens.
    assert (E : filter (fun _ : text => false) (Re.tokens content) = []).
    { induction (Re.tokens content); [reflexivity|assumption]. }
    unfold is_key. cbn [existsb]. rewrite E. cbn [length].
    now rewrite Nat.add_0_r.
  - cbn [identifier_table forallb fst snd] in Hid.
    apply andb_true_iff in Hid as [Hrule Hid].
    apply andb_true_iff in Hrule as [Hold Hnew].
    unfold no_chain in Hch. rewrite forallb_forall in Hch.
    assert (Hnew_key : forall k, In k (map fst ((old, new) :: rest)) ->
                                 new <> k).
    { intros k Hk. specialize (Hch k Hk). cbn [never_renamed_to forallb snd] in Hch.
      apply andb_true_iff in Hch as [Hne _].
      now apply negb_true_iff, text_eqb_neq in Hne. }
    assert (Hch' : no_chain rest = true).
    { unfold no_chain. apply forallb_forall. intros k Hk.
      assert (Hk' : In k (map fst ((old, new) :: rest))) by now right.
      specialize (Hch k Hk'). cbn [never_renamed_to forallb] in Hch.
      now apply andb_true_iff in Hch as [_ Hrest]. }
    destruct (never_renamed_to_not_key rest new) as [Knew Rnew].
    { intros k Hk. apply Hnew_key. now right. }
    cbn [rewritten]. rewrite subn_word_tokens by exact Hold.
    rewrite (IH Hid Hch'). rewrite tokens_rename by assumption.
    unfold Re.count_token. rewrite count_occ_length_filter.
    generalize (Re.tokens content) as ts. intros ts.
    assert (G : concat (map (renamed_by rest)
                          (map (fun t => if text_eqb t old then new else t)
                               ts))
                = concat (map (renamed_by ((old, new) :: rest)) ts)
                /\ length (filter (fun t => text_eqb old t) ts)
                   + length (filter (is_key rest)
                               (map (fun t => if text_eqb t old then new
                                              else t) ts))
                   = length (filter (is_key ((old, new) :: rest)) ts)).
    { induction ts as [|t ts [IHc IHn]]; [easy|].
      cbn [map concat filter]. rewrite renamed_by_cons, is_key_cons.
      destruct (text_eqb t old) eqn:E.
      - apply text_eqb_eq in E. subst t. rewrite text_eqb_refl.
        rewrite Rnew, Knew, IHc. split; [reflexivity|].
        cbn [length orb]. now rewrite <- IHn.
      - assert (E' : text_eqb old t = false).
        { apply text_eqb_neq. apply text_eqb_neq in E. congruence. }
        rewrite E'. cbn [orb]. rewrite IHc. split; [reflexivity|].
        destruct (is_key rest t); cbn [length]; lia. }
    destruct G as [Gc Gn]. rewrite Gc. f_equal. lia.
Qed.

Lemma rewritten_app (pat : text -> Re.pattern) (repl : text -> text)
    (a b : mapping) :
  forall content count,
    rewritten pat repl (a ++ b) content count
    = rewritten pat repl b (fst (rewritten pat repl a content count))
        (snd (rewritten pat repl a content count)).
Proof.
  induction a as [|[old new] a IH]; intros content count; [reflexivity|].
  cbn [app rewritten]. destruct (Re.subn_literal _ _ content). apply IH.
Qed.

Lemma rewritten_count (pat : text -> Re.pattern) (repl : text -> text)
    (table : mapping) :
  forall content count,
    fst (rewritten pat repl table content count)
    = fst (rewritten pat repl table content 0)
    /\ snd (rewritten pat repl table content count)
       = count + snd (rewritten pat repl table content 0).
Proof.
  induction table as [|[old new] rest IH]; intros content count.
  - cbn [rewritten fst snd]. now rewrite Nat.add_0_r.
  - cbn [rewritten]. destruct (Re.subn_literal _ _ content) as [c n].
    destruct (IH c (count + n)) as [H1 H2].
    destruct (IH c (0 + n)) as [H3 H4].
    rewrite H1, H2, H3, H4. split; [reflexivity|lia].
Qed.

Lemma identifier_table_app (a b : mapping) :
  identifier_table (a ++ b)
  = identifier_table a && identifier_table b.
Proof. apply forallb_app. Qed.

Section TokenByToken.

Variable md5_state : Type.
Variable md5_new : md5_state.
Variable md5_update : md5_state -> bytes -> md5_state.
Variable md5_hexdigest : md5_state -> text.
Variable linesep : text.
Hypothesis linesep_known : is_linesep linesep = true.

(** X16.  The declaration pass, for tables of identifiers in which no new
    name is a key - the tables of [main] are such - renames token by
    token.  The text it leaves in the file is the text it read with every
    token that is a key of the function-block or type table replaced by
    the new name of the first rule for it, and everything else in place;
    the two counts it returns add up to the number of such tokens. *)
Theorem declaration_pass_renames_token_by_token (w : world) (path : text)
    (data : bytes) (fb_table type_table removal_table : mapping) :
  fs_lookup (files w) path = Some (File data) ->
  settled_tables fb_table type_table = true ->
  let run :=
    replace_fbs_and_types md5_new md5_update md5_hexdigest linesep path
      fb_table type_table removal_table w in
  let read_tokens := Re.tokens (universal_newlines (decode_latin1 data)) in
  fst (read_text path (snd run))
  = Return (concat (map (renamed_by (fb_table ++ type_table)) read_tokens))
  /\ exists function_replacements type_replacements changed,
       fst run = Return (function_replacements, type_replacements, changed)
       /\ function_replacements + type_replacements
          = length (filter (is_key (fb_table ++ type_table)) read_tokens).
Proof.
  intros L Hs. unfold settled_tables in Hs.
  apply andb_true_iff in Hs as [Hs Hkeys].
  apply andb_true_iff in Hs as [Hfb Hty].
  destruct (identifier_table_literal _ Hfb) as [Lfb Cfb].
  destruct (identifier_table_literal _ Hty) as [Lty Cty].
  assert (Hid : identifier_table (fb_table ++ type_table) = true)
    by now rewrite identifier_table_app, Hfb, Hty.
  pose proof (rewritten_tokens (fb_table ++ type_table) Hid Hkeys
                (universal_newlines (decode_latin1 data)) 0) as Hall.
  rewrite rewritten_app in Hall.
  cbv zeta.
  rewrite (replace_fbs_and_types_run _ _ _ _ _ w path data fb_table
             type_table removal_table L Lfb Lty).
  cbv zeta. cbn [fst snd].
  set (content := universal_newlines (decode_latin1 data)) in *.
  set (r1 := rewritten Re.WordLit (fun new => new) fb_table content 0) in *.
  set (r2 := rewritten Re.WordLit (fun new => new) type_table (fst r1) 0).
  destruct (rewritten_count Re.WordLit (fun new => new) type_table (fst r1)
              (snd r1)) as [H1 H2].
  fold r2 in H1, H2. rewrite Hall in H1, H2. cbn [fst snd] in H1, H2.
  split.
  - rewrite (settle_read_back _ md5_new md5_update md5_hexdigest linesep
               linesep_known w path data (fst r2)); [now rewrite <- H1|exact L|].
    apply rewritten_cr_free; [exact Cty|].
    apply rewritten_cr_free; [exact Cfb|].
    apply universal_newlines_cr_free.
  - exists (snd r1), (snd r2). eexists. split; [reflexivity|].
    now rewrite <- H2.
Qed.

End TokenByToken.

Lemma declaration_pass_renames_token_by_token_witness :
  let run :=
    replace_fbs_and_types Sample.plain_new Sample.plain_update
      Sample.plain_hexdigest Sample.posix_linesep "Types.typ"
      fb_mapping type_mapping fb_removal_mapping Sample.removal_file in
  fst (read_text "Types.typ" (snd run))
  = Return
      ("fb : MC_BR_AsmSegGrpPowerOn_AcpTrak; p : MpAxisRecoveryParType;"
       : text)
  /\ exists function_replacements type_replacements changed,
       fst run = Return (function_replacements, type_replacements, changed)
       /\ function_replacements + type_replacements = 1.
Proof.
  exact (declaration_pass_renames_token_by_token bytes Sample.plain_new
           Sample.plain_update Sample.plain_hexdigest Sample.posix_linesep
           eq_refl Sample.removal_file "Types.typ"
           (encode_latin1 Sample.removal_text) fb_mapping type_mapping
           fb_removal_mapping eq_refl eq_refl).
Defined.

(** ** The answer *)

Lemma lstrip_spaces (pad s : text) :
  forallb is_space pad = true -> lstrip (pad ++ s) = lstrip s.
Proof.
  induction pad as [|c pad IH]; [reflexivity|]. cbn [forallb].
  intros H. apply andb_true_iff in H as [Hc Hpad].
  cbn [app lstrip]. rewrite Hc. now apply IH.
Qed.

Lemma lstrip_app (s pad : text) :
  lstrip s <> [] -> lstrip (s ++ pad) = lstrip s ++ pad.
Proof.
  induction s as [|c s IH]; [easy|]. cbn [app lstrip].
  destruct (is_space c); [exact IH|reflexivity].
Qed.

Lemma lstrip_all_spaces (s pad : text) :
  lstrip s = [] -> forallb is_space pad = true -> lstrip (s ++ pad) = [].
Proof.
  intros Hs Hpad. induction s as [|c s IH].
  - cbn [app]. rewrite <- (app_nil_r pad). now rewrite lstrip_spaces.
  - cbn [app lstrip] in *. destruct (is_space c); [now apply IH|discriminate].
Qed.

Lemma forallb_rev (A : Type) (f : A -> bool) (l : list A) :
  forallb f (rev l) = forallb f l.
Proof.
  induction l as [|x l IH]; [reflexivity|]. cbn [rev forallb].
  rewrite forallb_app, IH. cbn [forallb]. rewrite andb_true_r.
  apply andb_comm.
Qed.

Lemma strip_padded (pad line pad' : text) :
  forallb is_space pad = true -> forallb is_space pad' = true ->
  strip (pad ++ line ++ pad') = strip line.
Proof.
  intros Hpad Hpad'. unfold strip. rewrite lstrip_spaces by exact Hpad.
  destruct (lstrip line) as [|c rest] eqn:E.
  - now rewrite lstrip_all_spaces.
  - rewrite lstrip_app by (rewrite E; discriminate). rewrite E, rev_app_distr.
    rewrite lstrip_spaces; [reflexivity|]. now rewrite forallb_rev.
Qed.

Lemma lower_char_y (c : ascii) :
  lower_char c = "y"%char <-> c = "y"%char \/ c = "Y"%char.
Proof.
  destruct c as [[] [] [] [] [] [] [] []]; vm_compute; split;
    intros H; try discriminate; try (destruct H; discriminate); tauto.
Qed.

(** X17.  What [ask_user] returns, and what [main] takes for consent.
    With a terminal the answer is the line typed, stripped of the blanks
    around it and in lower case - so blanks around the line never change
    it - and [main] proceeds on it exactly when the stripped line is empty,
    "y" or "Y"; without a terminal, or when reading fails, the answer is
    the default, on which [main] proceeds.  Asking changes no file. *)
Theorem consent_is_y_or_nothing (stdin : stdin_state) (message : text)
    (w : world) :
  (exists w',
      ask_user stdin message "y" w = (Return (answer stdin "y"), w')
      /\ files w' = files w)
  /\ (forall line,
        proceeds (answer (Terminal line) "y") = true
        <-> strip line = [] \/ strip line = "y" \/ strip line = "Y")
  /\ (forall pad line pad',
        forallb is_space pad = true -> forallb is_space pad' = true ->
        answer (Terminal (pad ++ line ++ pad')) "y"
        = answer (Terminal line) "y")
  /\ proceeds (answer NoTerminal "y") = true
  /\ (forall e, proceeds (answer (TerminalError e) "y") = true).
Proof.
  split; [|split; [|split; [|split]]].
  - destruct (ask_user_run stdin message "y" w) as (w' & Hf & E).
    now exists w'.
  - intros line. unfold proceeds, answer. rewrite orb_true_iff.
    rewrite !text_eqb_eq. unfold lower.
    destruct (strip line) as [|c [|d rest]]; cbn [map].
    + split; [now left|now left].
    + split.
      * intros [H|H]; [discriminate|]. injection H as H.
        apply lower_char_y in H as [->| ->]; tauto.
      * intros [H|[H|H]]; [discriminate| |]; injection H as ->; now right.
    + split; [intros [H|H]; discriminate|].
      intros [H|[H|H]]; discriminate.
  - intros pad line pad' Hpad Hpad'. unfold answer.
    now rewrite strip_padded.
  - reflexivity.
  - reflexivity.
Qed.

(** ** The notice for a removed function block *)

Lemma split_dot_free (s : text) : dot_free s = true -> split_dot s = [s].
Proof.
  induction s as [|c s IH]; [reflexivity|]. unfold dot_free.
  cbn [existsb]. rewrite negb_orb. intros H.
  apply andb_true_iff in H as [Hc Hs]. apply negb_true_iff in Hc.
  cbn [split_dot]. rewrite Ascii.eqb_sym, Hc. now rewrite (IH Hs).
Qed.

Lemma split_dot_app (a rest : text) :
  dot_free a = true ->
  split_dot (a ++ "."%char :: rest) = a :: split_dot rest.
Proof.
  induction a as [|c a IH].
  - intros _. cbn [app split_dot]. now rewrite Ascii.eqb_refl.
  - unfold dot_free. cbn [existsb]. rewrite negb_orb. intros H.
    apply andb_true_iff in H as [Hc Ha]. apply negb_true_iff in Hc.
    cbn [app split_dot]. rewrite Ascii.eqb_sym, Hc. now rewrite (IH Ha).
Qed.

Lemma contains_dot (a rest : text) :
  contains "." (a ++ "."%char :: rest) = true.
Proof.
  induction a as [|c a IH]; [reflexivity|].
  cbn [app]. now apply contains_cons_later.
Qed.

(** X18.  The notice for a function block that was removed in favour of
    an element of another names the two as the table gives them: for a
    target [fb.element] it says that the functionality is covered by the
    element [element] of the FB [fb]; of a target with more dots it names
    the first two parts.  It is this notice, not the one for a plain
    function block, that a target with a dot selects. *)
Theorem removal_notice_names_element_and_block
    (old_fb fb element more : text) :
  dot_free fb = true -> dot_free element = true ->
  let notice : text :=
    "Found usage(s) of " ++ quoted old_fb
    ++ ", the functionality is now covered by the element "
    ++ quoted element ++ " of the FB " ++ quoted fb
    ++ " - skipping auto-replacement due to expected functionality change"
  in
  removal_msg_element old_fb (fb ++ "." ++ element)
  = notice
  /\ removal_msg_element old_fb (fb ++ "." ++ element ++ "." ++ more)
     = notice
  /\ contains "." (fb ++ "." ++ element) = true.
Proof.
  intros Hfb Hel. cbv zeta. unfold removal_msg_element.
  change (fb ++ "." ++ element) with (fb ++ "."%char :: element).
  change (fb ++ "." ++ element ++ "." ++ more)
    with (fb ++ "."%char :: (element ++ "."%char :: more)).
  rewrite !split_dot_app by assumption.
  rewrite (split_dot_free element Hel). cbn [nth].
  split; [reflexivity|split; [reflexivity|apply contains_dot]].
Qed.

Lemma removal_notice_names_element_and_block_witness :
  removal_msg_element "MC_BR_AsmSegGrpPowerOn_AcpTrak"
    "MC_BR_AsmPowerOn_AcpTrak.SegmentGroup"
  = "Found usage(s) of 'MC_BR_AsmSegGrpPowerOn_AcpTrak', the functionality is now covered by the element 'SegmentGroup' of the FB 'MC_BR_AsmPowerOn_AcpTrak' - skipping auto-replacement due to expected functionality change".
Proof.
  destruct (removal_notice_names_element_and_block
              "MC_BR_AsmSegGrpPowerOn_AcpTrak" "MC_BR_AsmPowerOn_AcpTrak"
              "SegmentGroup" [] eq_refl eq_refl) as [H _].
  exact H.
Defined.

(** ** A project below a folder named Libraries *)

Lemma startswith_app_l (k a b : text) :
  startswith k a = true -> startswith k (a ++ b) = true.
Proof.
  revert a. induction k as [|x k IH]; intros a H; [reflexivity|].
  destruct a as [|y a]; [discriminate|]. cbn [startswith] in H.
  apply andb_true_iff in H as [Hx Hk]. cbn [app startswith].
  now rewrite Hx, IH.
Qed.

Lemma contains_app_l (k a b : text) :
  contains k a = true -> contains k (a ++ b) = true.
Proof.
  induction a as [|c a IH]; intros H.
  - simpl in H. rewrite orb_false_r in H.
    apply startswith_nil_r in H. subst k. now destruct b.
  - cbn [contains] in H. apply orb_true_iff in H as [H|H].
    + apply startswith_contains. now apply (startswith_app_l k (c :: a) b).
    + cbn [app]. apply contains_cons_later. now apply IH.
Qed.

Lemma split_head_prefix (a b : text) :
  exists m, fst (split_at_last_slash (a ++ slash :: b)) = a ++ slash :: m.
Proof.
  induction a as [|c a [m IH]].
  - cbn [app split_at_last_slash]. destruct (split_at_last_slash b) as [h t].
    destruct h as [|x h]; [now exists []|now exists (x :: h)].
  - cbn [app split_at_last_slash].
    destruct (split_at_last_slash (a ++ slash :: b)) as [h t].
    cbn [fst] in IH. subst h. exists m.
    now destruct (a ++ slash :: m) eqn:E; [destruct a; discriminate|].
Qed.

Lemma rstrip_slashes_prefix (x : text) (c : ascii) (y : text) :
  Ascii.eqb c slash = false ->
  exists z, rstrip_slashes (x ++ c :: y) = x ++ c :: z.
Proof.
  intros Hc. induction x as [|a x [z IH]].
  - cbn [app rstrip_slashes]. destruct (rstrip_slashes y) as [|r rs].
    + rewrite Hc. now exists [].
    + now exists (r :: rs).
  - cbn [app rstrip_slashes]. rewrite IH. exists z.
    now destruct (x ++ c :: z) eqn:E; [destruct x; discriminate|].
Qed.

Lemma dirname_below (x : text) (c : ascii) (b : text) :
  Ascii.eqb c slash = false ->
  exists z, dirname (x ++ c :: slash :: b) = x ++ c :: z.
Proof.
  intros Hc. unfold dirname. cbv zeta.
  destruct (split_head_prefix (x ++ [c]) b) as [m Hm].
  rewrite <- !app_assoc in Hm. cbn [app] in Hm. rewrite Hm.
  destruct (rstrip_slashes_prefix x c (slash :: m) Hc) as [z Hz].
  rewrite Hz. exists z.
  now destruct (x ++ c :: z) eqn:E; [destruct x; discriminate|].
Qed.

Lemma logical_path_shape (project_path : text) :
  exists sep,
    path_join project_path "Logical"
    = (project_path ++ sep ++ "Logica") ++ ["l"%char].
Proof.
  unfold path_join.
  change (startswith "/" "Logical") with false. cbv iota.
  match goal with
  | |- context [if ?b then _ else _] => destruct b
  end.
  - exists []. now rewrite <- app_assoc.
  - exists "/". now rewrite <- !app_assoc.
Qed.

Lemma path_join_nil (x : text) :
  path_join (x ++ ["l"%char]) [] = x ++ "l"%char :: slash :: [].
Proof.
  unfold path_join. cbn [startswith].
  assert (E : endswith (x ++ ["l"%char]) "/" = false).
  { unfold endswith. now rewrite rev_unit. }
  rewrite E. destruct (x ++ ["l"%char]) eqn:Ex;
    [destruct x; discriminate|].
  rewrite <- Ex, <- app_assoc. reflexivity.
Qed.

Lemma walk_roots_below (files : fs) (project_path : text)
    (entry : text * text) :
  In entry (walk files (path_join project_path "Logical")) ->
  exists sep z, fst entry = (project_path ++ sep ++ "Logica") ++ "l"%char :: z.
Proof.
  destruct (logical_path_shape project_path) as [sep E]. rewrite E.
  unfold walk. intros H. apply in_map_iff in H as (p & <- & Hp).
  apply filter_In in Hp as [_ Hp]. apply andb_true_iff in Hp as [Hb _].
  unfold below in Hb. apply andb_true_iff in Hb as [Hs _].
  rewrite path_join_nil in Hs. apply startswith_split in Hs.
  rewrite <- app_assoc in Hs. cbn [app] in Hs. cbn [fst]. rewrite Hs.
  destruct (dirname_below (project_path ++ sep ++ "Logica") "l"%char
              (skipn
                 (length ((project_path ++ sep ++ "Logica")
                          ++ "l"%char :: slash :: []))
                 p) eq_refl) as [z Hz].
  now exists sep, z.
Qed.

Section Shelved.

Variable md5_state : Type.
Variable md5_new : md5_state.
Variable md5_update : md5_state -> bytes -> md5_state.
Variable md5_hexdigest : md5_state -> text.
Variable linesep : text.

Lemma process_entries_skipped (entries : list (text * text)) (t : totals)
    (w : world) :
  (forall entry, In entry entries ->
                 contains "Libraries" (fst entry) = true) ->
  process_entries md5_new md5_update md5_hexdigest linesep t entries w
  = (Return t, w).
Proof.
  induction entries as [|[root file] rest IH]; intros H; [reflexivity|].
  cbn [process_entries]. unfold process_entry at 1.
  assert (E : contains "Libraries" root = true)
    by (apply (H (root, file)); now left).
  rewrite E. unfold bind at 1. unfold ret at 1. apply IH.
  intros entry Hin. apply H. now right.
Qed.

(** X19.  A folder counts as a library folder when "Libraries" occurs
    anywhere in its path, the part above the project included.  So for a
    project kept at a path that contains "Libraries", the rewrite hands no
    file to any pass: it changes nothing and prints the summary of a run
    that found nothing to replace. *)
Theorem project_below_libraries_is_skipped (project_path : text)
    (w : world) :
  contains "Libraries" project_path = true ->
  migrate md5_new md5_update md5_hexdigest linesep project_path w
  = (Return tt, World (files w) (console w ++ summary_of_nothing)).
Proof.
  intros Hc.
  assert (Hskip : forall entry,
            In entry (walk (files w) (path_join project_path "Logical")) ->
            contains "Libraries" (fst entry) = true).
  { intros entry Hin.
    destruct (walk_roots_below _ _ _ Hin) as (sep & z & ->).
    rewrite <- !app_assoc. now apply contains_app_l. }
  unfold migrate.
  rewrite (bind_return _ _ _ _ _ _ _
             (process_entries_skipped _ (Totals 0 0 0 0 0) w Hskip)).
  unfold bind, print, emit. cbn. unfold summary_of_nothing. cbn [map].
  repeat rewrite <- app_assoc. reflexivity.
Qed.

End Shelved.

Lemma project_below_libraries_is_skipped_witness :
  migrate Sample.plain_new Sample.plain_update Sample.plain_hexdigest
    Sample.posix_linesep "/Libraries/proj" shelved_project
  = (Return tt,
     World (files shelved_project)
       (console shelved_project ++ summary_of_nothing)).
Proof.
  apply (project_below_libraries_is_skipped bytes Sample.plain_new
           Sample.plain_update Sample.plain_hexdigest Sample.posix_linesep
           "/Libraries/proj" shelved_project).
  reflexivity.
Defined.

(** ** A removed function block is reported, not rewritten *)

(** The notice for a target [fb.element], or [fb.element.more], spelled
    out. *)
Lemma removal_msg_element_names (old_fb fb element tail : text) :
  dot_free fb = true -> dot_free element = true ->
  tail = [] \/ (exists more, tail = "."%char :: more) ->
  removal_msg_element old_fb (fb ++ "." ++ element ++ tail)
  = "Found usage(s) of " ++ quoted old_fb
    ++ ", the functionality is now covered by the element "
    ++ quoted element ++ " of the FB " ++ quoted fb
    ++ " - skipping auto-replacement due to expected functionality change".
Proof.
  intros Hfb Hel Htail. unfold removal_msg_element.
  change (fb ++ "." ++ element ++ tail)
    with (fb ++ "."%char :: (element ++ tail)).
  rewrite split_dot_app by exact Hfb.
  destruct Htail as [->|[more ->]].
  - rewrite app_nil_r, (split_dot_free element Hel). reflexivity.
  - rewrite split_dot_app by exact Hel. reflexivity.
Qed.

(** The renaming loop maps the tokens one for one, and leaves alone a token
    that is no key. *)
Lemma rewritten_token_map (key : text) (table : mapping) :
  identifier_table table = true -> renames_others key table = true ->
  exists rename : text -> text,
    rename key = key
    /\ forall content count,
         Re.tokens
           (fst (rewritten Re.WordLit (fun new => new) table content count))
         = map rename (Re.tokens content).
Proof.
  induction table as [|[old new] rest IH]; intros Hid Ho.
  - exists (fun t => t). split; [reflexivity|]. intros content count.
    cbn [rewritten fst]. now rewrite map_id.
  - cbn [identifier_table forallb fst snd] in Hid.
    apply andb_true_iff in Hid as [Hrule Hid].
    apply andb_true_iff in Hrule as [Hold Hnew].
    cbn [renames_others forallb fst] in Ho.
    apply andb_true_iff in Ho as [Hne Ho].
    apply andb_true_iff in Hne as [_ Hne].
    apply negb_true_iff, text_eqb_neq in Hne.
    destruct (IH Hid Ho) as (rename & Hkey & Hmap).
    exists (fun t => rename (if text_eqb t old then new else t)).
    split.
    + assert (E : text_eqb key old = false)
        by (apply text_eqb_neq; congruence).
      now rewrite E.
    + intros content count. cbn [rewritten].
      rewrite subn_word_tokens by exact Hold.
      rewrite Hmap, tokens_rename by assumption. apply map_map.
Qed.

Section RemovalClaim.

Variable md5_state : Type.
Variable md5_new : md5_state.
Variable md5_update : md5_state -> bytes -> md5_state.
Variable md5_hexdigest : md5_state -> text.
Variable linesep : text.

Local Abbreviation kept :=
  (reported_and_kept md5_new md5_update md5_hexdigest linesep).

(** Tables of identifiers whose function-block and type keys are other
    than a key of the removal table leave that key alone. *)
Lemma removal_key_kept (w : world) (path : text) (data : bytes)
    (fb_table type_table removal_table : mapping)
    (key fb element tail : text) :
  fs_lookup (files w) path = Some (File data) ->
  identifier_table fb_table = true ->
  identifier_table type_table = true ->
  renames_others key fb_table = true ->
  renames_others key type_table = true ->
  Re.identifier key = true ->
  In (key, fb ++ "." ++ element ++ tail) removal_table ->
  dot_free fb = true -> dot_free element = true ->
  tail = [] \/ (exists more, tail = "."%char :: more) ->
  Re.search (Re.WordLit key) (universal_newlines (decode_latin1 data))
  = true ->
  kept w path data fb_table type_table removal_table key
    ("Found usage(s) of " ++ quoted key
     ++ ", the functionality is now covered by the element "
     ++ quoted element ++ " of the FB " ++ quoted fb
     ++ " - skipping auto-replacement due to expected functionality change").
Proof.
  intros H Ifb Ity Ofb Oty Hkey Hin Hdfb Hdel Htail Hsearch.
  destruct (identifier_table_literal _ Ifb) as [Hfb _].
  destruct (identifier_table_literal _ Ity) as [Hty _].
  unfold reported_and_kept.
  set (content := universal_newlines (decode_latin1 data)) in *.
  set (r1 := rewritten Re.WordLit (fun new_fb => new_fb) fb_table
               content 0).
  set (r2 := rewritten Re.WordLit (fun new_type => new_type) type_table
               (fst r1) 0).
  assert (K1 : Re.count_token key content <= Re.count_token key (fst r1))
    by now apply rewritten_keeps_token.
  assert (K2 : Re.count_token key (fst r1) <= Re.count_token key (fst r2))
    by now apply rewritten_keeps_token.
  assert (Hnotice : In (Out Stdout
                          (removal_msg_element key
                             (fb ++ "." ++ element ++ tail) ++ [LF]))
                       (removal_notices removal_table (fst r1))).
  { apply removal_notice_in; [exact Hin| |].
    - apply search_count; [exact Hkey|].
      apply (search_count _ _ Hkey) in Hsearch. lia.
    - apply (contains_dot fb (element ++ tail)). }
  rewrite removal_msg_element_names in Hnotice by assumption.
  assert (Htokens : exists rename : text -> text,
            rename key = key
            /\ Re.tokens (fst r2) = map rename (Re.tokens content)).
  { destruct (rewritten_token_map key fb_table Ifb Ofb)
      as (rename1 & Hk1 & Hm1).
    destruct (rewritten_token_map key type_table Ity Oty)
      as (rename2 & Hk2 & Hm2).
    exists (fun t => rename2 (rename1 t)). split; [congruence|].
    unfold r2, r1. now rewrite Hm2, Hm1, map_map. }
  rewrite (replace_fbs_and_types_run _ _ _ _ _ _ _ data _ _
             removal_table) by assumption.
  rewrite (replace_fbs_and_types_run _ _ _ _ _ _ _ data _ _ [])
    by assumption.
  fold content. fold r1. fold r2. simpl fst. simpl snd.
  unfold settle.
  destruct (text_eqb (fst r2) content);
    [|destruct (text_eqb _ _)]; simpl;
    (split; [eexists; reflexivity|]);
    (split; [rewrite ?in_app_iff; tauto|]);
    (split; [exact Htokens|]);
    (split; [rewrite !finditer_word_tokens by exact Hkey; lia|]);
    (split; [|split; reflexivity]).
  - left. exact H.
  - right. apply fs_lookup_store.
  - right. apply fs_lookup_store.
Qed.

(** C7.  Take a file whose text holds, as a whole token, a key of the
    removal table of [main], its target being [fb.element].  Then
    [replace_fbs_and_types], run with the tables of [main], returns, having
    printed the notice that names the key, the element and the function
    block: "Found usage(s) of 'key', the functionality is now covered by
    the element 'element' of the FB 'fb' - skipping auto-replacement due to
    expected functionality change".  The final working copy has the tokens
    of the text read, one for one, each under a renaming that leaves the
    key as it is: every occurrence of the key stands where it stood, and
    the key is matched in the final working copy at least as often as in
    the text read.  The file holds its old bytes or that working copy; and
    the counts and the files are those of the pass run with an empty
    removal table.  The same holds for any tables of identifiers whose
    function-block and type keys are other than the key, the key being an
    identifier whose target is [fb.element] or [fb.element.more]. *)
Theorem removal_key_reported_not_rewritten (w : world) (path : text)
    (data : bytes) :
  fs_lookup (files w) path = Some (File data) ->
  let notice (key fb element : text) : text :=
    "Found usage(s) of " ++ quoted key
    ++ ", the functionality is now covered by the element "
    ++ quoted element ++ " of the FB " ++ quoted fb
    ++ " - skipping auto-replacement due to expected functionality change"
  in
  (forall key fb element,
      In (key, fb ++ "." ++ element) fb_removal_mapping ->
      dot_free fb = true -> dot_free element = true ->
      Re.search (Re.WordLit key) (universal_newlines (decode_latin1 data))
      = true ->
      kept w path data fb_mapping type_mapping fb_removal_mapping key
        (notice key fb element))
  /\ (forall fb_table type_table removal_table key fb element tail,
        identifier_table fb_table = true ->
        identifier_table type_table = true ->
        renames_others key fb_table = true ->
        renames_others key type_table = true ->
        Re.identifier key = true ->
        In (key, fb ++ "." ++ element ++ tail) removal_table ->
        dot_free fb = true -> dot_free element = true ->
        tail = [] \/ (exists more, tail = "."%char :: more) ->
        Re.search (Re.WordLit key) (universal_newlines (decode_latin1 data))
        = true ->
        kept w path data fb_table type_table removal_table key
          (notice key fb element)).
Proof.
  intros H. cbv zeta. split.
  - intros key fb element Hin Hdfb Hdel Hsearch.
    assert (Hmain : renames_others key fb_mapping = true
                    /\ renames_others key type_mapping = true
                    /\ Re.identifier key = true).
    { destruct Hin as [E|[E|[]]]; injection E as Hk _; subst key;
        repeat split; reflexivity. }
    destruct Hmain as (Ofb & Oty & Hkey).
    apply (removal_key_kept w path data fb_mapping type_mapping
             fb_removal_mapping key fb element []); trivial.
    + now rewrite app_nil_r.
    + now left.
  - intros fb_table type_table removal_table key fb element tail.
    now apply removal_key_kept.
Qed.

End RemovalClaim.

Lemma removal_key_reported_not_rewritten_witness :
  let run :=
    replace_fbs_and_types Sample.plain_new Sample.plain_update
      Sample.plain_hexdigest Sample.posix_linesep "Types.typ"
      fb_mapping type_mapping fb_removal_mapping Sample.removal_file in
  fst run = Return (0, 1, true)
  /\ In (Out Stdout
           ("Found usage(s) of 'MC_BR_AsmSegGrpPowerOn_AcpTrak', the functionality is now covered by the element 'SegmentGroup' of the FB 'MC_BR_AsmPowerOn_AcpTrak' - skipping auto-replacement due to expected functionality change"
            ++ [LF]))
        (console (snd run))
  /\ fs_lookup (files (snd run)) "Types.typ"
     = Some (File (encode_latin1
          "fb : MC_BR_AsmSegGrpPowerOn_AcpTrak; p : MpAxisRecoveryParType;")).
Proof.
  intros run.
  destruct (removal_key_reported_not_rewritten
              bytes Sample.plain_new Sample.plain_update
              Sample.plain_hexdigest Sample.posix_linesep
              Sample.removal_file "Types.typ"
              (encode_latin1 Sample.removal_text) eq_refl)
    as [Hmain _].
  destruct (Hmain "MC_BR_AsmSegGrpPowerOn_AcpTrak"
              "MC_BR_AsmPowerOn_AcpTrak" "SegmentGroup"
              (or_introl eq_refl) eq_refl eq_refl eq_refl)
    as (_ & Hnotice & _).
  split; [reflexivity|]. split; [exact Hnotice|reflexivity].
Defined.
